(** * vignette: the Freedesktop thumbnail store, embedded in Rocq

    A shallow embedding of [vignette/__init__.py]: the identity
    canonicaliser ([_any2uri], [hash_name]), the path deriver
    ([build_thumbnail_path]), the three image backends, and the store
    operations ([try_get_thumbnail], [get_thumbnail], [create_thumbnail],
    [put_thumbnail], [put_fail], [is_thumbnail_failed]), with the library
    functions they call ([os.path], [urllib], [hashlib.md5], [tempfile],
    [int(float(.))]), the housekeeping of the cache ([makedirs],
    [create_temp]), and the Python 2 predecessor [thumbnail.py] short of
    its [put_thumbnail], followed by the properties proved of them.

    Conventions of the model (Python 3 on a POSIX system):
    - a Python [str] is a Rocq [string]; its characters are the bytes of
      its UTF-8 encoding, so [uri.encode('utf-8')] is the identity, and
      the letters of a pattern are the ASCII letters;
    - a Python [int] is a [Z]; a size argument is an [int] or a [str],
      an mtime argument is an [int], metadata values are [str];
    - an exception is a value of [exn] returned in place of the result,
      and a subclass of [OSError] is recorded as [OSError];
    - the file system is a finite map from path strings to nodes; a file
      is found under the very string that names it (no symbolic links, no
      second spelling of a path), and the mtime of a node is the whole
      number of seconds [int(os.path.getmtime(p))];
    - an image is its pixel box and its text; every backend decodes the
      same files, and the rasters themselves are left out;
    - stateful functions thread a [world]: the file system, the random
      names [tempfile] will draw, and the log of the file-system calls
      issued. *)

From Stdlib Require Import ZArith Ascii String List Bool Lia DecimalString DecimalPos.
From stdpp Require Import base option gmap strings list fin_maps.

Local Open Scope string_scope.
Local Open Scope Z_scope.

(** ** Python strings *)

Module Str.

(** [s.startswith(p)] *)
Definition startswith (s p : string) : bool := String.prefix p s.

(** [s.endswith('/')] *)
Fixpoint endswith_slash (s : string) : bool :=
  match s with
  | EmptyString => false
  | String c EmptyString => Ascii.eqb c "/"
  | String _ s' => endswith_slash s'
  end.

(** [all(c == '/' for c in s)] *)
Fixpoint all_slashes (s : string) : bool :=
  match s with
  | EmptyString => true
  | String c s' => Ascii.eqb c "/" && all_slashes s'
  end.

Definition rev (s : string) : string :=
  string_of_list_ascii (List.rev (list_ascii_of_string s)).

Fixpoint lstrip_slash (s : string) : string :=
  match s with
  | String c s' => if Ascii.eqb c "/" then lstrip_slash s' else s
  | EmptyString => EmptyString
  end.

(** [s.rstrip('/')] *)
Definition rstrip_slash (s : string) : string := rev (lstrip_slash (rev s)).

(** [s.split('/')] *)
Fixpoint split_slash_aux (cur : string) (s : string) : list string :=
  match s with
  | EmptyString => [rev cur]
  | String c s' =>
      if Ascii.eqb c "/" then rev cur :: split_slash_aux EmptyString s'
      else split_slash_aux (String c cur) s'
  end.
Definition split_slash (s : string) : list string := split_slash_aux EmptyString s.

(** ['/'.join(l)] *)
Fixpoint join_slash (l : list string) : string :=
  match l with
  | [] => EmptyString
  | [x] => x
  | x :: l' => x ++ "/" ++ join_slash l'
  end.

(** The two halves of [s] around its last ['/']: [(s[:i], s[i:])] with
    [i = s.rfind('/') + 1]. *)
Fixpoint rpartition_aux (head tail : string) (s : string) : string * string :=
  match s with
  | EmptyString => (rev head, rev tail)
  | String c s' =>
      if Ascii.eqb c "/"
      then rpartition_aux (String c (tail ++ head)) EmptyString s'
      else rpartition_aux head (String c tail) s'
  end.
Definition rpartition_slash (s : string) : string * string :=
  rpartition_aux EmptyString EmptyString s.

Definition is_empty (s : string) : bool :=
  match s with EmptyString => true | _ => false end.

End Str.

(** ** [os.path] (posixpath) *)

Module Path.

(** [os.path.join(a, b)] *)
Definition join (a b : string) : string :=
  if Str.startswith b "/" then b
  else if Str.is_empty a || Str.endswith_slash a then a ++ b
  else a ++ "/" ++ b.

(** [os.path.split(p)] *)
Definition split (p : string) : string * string :=
  let '(head, tail) := Str.rpartition_slash p in
  let head' :=
    if negb (Str.is_empty head) && negb (Str.all_slashes head)
    then Str.rstrip_slash head else head in
  (head', tail).

Definition dirname (p : string) : string := fst (split p).
Definition basename (p : string) : string := snd (split p).

Definition isabs (p : string) : bool := Str.startswith p "/".

(** The loop of [normpath] over the components of the path;
    [new_comps] is kept in reverse. *)
Fixpoint norm_comps (initial_slashes : bool) (new_comps : list string)
         (comps : list string) : list string :=
  match comps with
  | [] => List.rev new_comps
  | comp :: rest =>
      if String.eqb comp "" || String.eqb comp "." then
        norm_comps initial_slashes new_comps rest
      else if negb (String.eqb comp "..")
              || (negb initial_slashes && match new_comps with [] => true | _ => false end)
              || match new_comps with top :: _ => String.eqb top ".." | [] => false end
      then norm_comps initial_slashes (comp :: new_comps) rest
      else match new_comps with
           | _ :: popped => norm_comps initial_slashes popped rest
           | [] => norm_comps initial_slashes new_comps rest
           end
  end.

(** [os.path.normpath(path)] *)
Definition normpath (path : string) : string :=
  if Str.is_empty path then "."
  else
    let initial := Str.startswith path "/" in
    let two := Str.startswith path "//" && negb (Str.startswith path "///") in
    let comps := norm_comps initial [] (Str.split_slash path) in
    let body := Str.join_slash comps in
    let res := if initial then (if two then "//" else "/") ++ body else body in
    if Str.is_empty res then "." else res.

(** [os.path.abspath(path)] with [os.getcwd() = cwd] *)
Definition abspath (cwd path : string) : string :=
  normpath (if isabs path then path else join cwd path).

End Path.

(** ** [urllib.request.pathname2url] *)

Module Url.

Definition hexdigit_upper (n : N) : ascii :=
  match n with
  | 0 => "0" | 1 => "1" | 2 => "2" | 3 => "3" | 4 => "4" | 5 => "5" | 6 => "6"
  | 7 => "7" | 8 => "8" | 9 => "9" | 10 => "A" | 11 => "B" | 12 => "C"
  | 13 => "D" | 14 => "E" | _ => "F"
  end%N%char.

Definition is_alpha (c : ascii) : bool :=
  let n := N_of_ascii c in
  ((65 <=? n) && (n <=? 90) || (97 <=? n) && (n <=? 122))%N.

Definition is_digit (c : ascii) : bool :=
  let n := N_of_ascii c in ((48 <=? n) && (n <=? 57))%N.

(** The characters [quote] never escapes, with its default [safe='/']. *)
Definition is_safe (c : ascii) : bool :=
  is_alpha c || is_digit c
  || Ascii.eqb c "_" || Ascii.eqb c "." || Ascii.eqb c "-" || Ascii.eqb c "~"
  || Ascii.eqb c "/".

(** [urllib.parse.quote(s)] on the UTF-8 bytes of [s] *)
Fixpoint quote (s : string) : string :=
  match s with
  | EmptyString => EmptyString
  | String c s' =>
      if is_safe c then String c (quote s')
      else
        let n := N_of_ascii c in
        String "%" (String (hexdigit_upper (n / 16)) (String (hexdigit_upper (n mod 16)) (quote s')))
  end.

(** On POSIX, [pathname2url(p)] is [quote(p)]. *)
Definition pathname2url (p : string) : string := quote p.

End Url.

(** ** [hashlib.md5] *)

Module MD5.

Definition mask32 : Z := 0xFFFFFFFF.
Definition add32 (x y : Z) : Z := Z.land (x + y) mask32.
Definition not32 (x : Z) : Z := Z.lxor x mask32.
Definition rotl32 (x s : Z) : Z :=
  Z.land (Z.lor (Z.shiftl x s) (Z.shiftr x (32 - s))) mask32.

(** [K[i] = floor(2^32 * abs(sin(i + 1)))] *)
Definition K : list Z :=
  [ 0xd76aa478; 0xe8c7b756; 0x242070db; 0xc1bdceee; 0xf57c0faf; 0x4787c62a;
    0xa8304613; 0xfd469501; 0x698098d8; 0x8b44f7af; 0xffff5bb1; 0x895cd7be;
    0x6b901122; 0xfd987193; 0xa679438e; 0x49b40821; 0xf61e2562; 0xc040b340;
    0x265e5a51; 0xe9b6c7aa; 0xd62f105d; 0x02441453; 0xd8a1e681; 0xe7d3fbc8;
    0x21e1cde6; 0xc33707d6; 0xf4d50d87; 0x455a14ed; 0xa9e3e905; 0xfcefa3f8;
    0x676f02d9; 0x8d2a4c8a; 0xfffa3942; 0x8771f681; 0x6d9d6122; 0xfde5380c;
    0xa4beea44; 0x4bdecfa9; 0xf6bb4b60; 0xbebfbc70; 0x289b7ec6; 0xeaa127fa;
    0xd4ef3085; 0x04881d05; 0xd9d4d039; 0xe6db99e5; 0x1fa27cf8; 0xc4ac5665;
    0xf4292244; 0x432aff97; 0xab9423a7; 0xfc93a039; 0x655b59c3; 0x8f0ccc92;
    0xffeff47d; 0x85845dd1; 0x6fa87e4f; 0xfe2ce6e0; 0xa3014314; 0x4e0811a1;
    0xf7537e82; 0xbd3af235; 0x2ad7d2bb; 0xeb86d391 ].

Definition S : list Z :=
  [ 7; 12; 17; 22; 7; 12; 17; 22; 7; 12; 17; 22; 7; 12; 17; 22;
    5; 9; 14; 20; 5; 9; 14; 20; 5; 9; 14; 20; 5; 9; 14; 20;
    4; 11; 16; 23; 4; 11; 16; 23; 4; 11; 16; 23; 4; 11; 16; 23;
    6; 10; 15; 21; 6; 10; 15; 21; 6; 10; 15; 21; 6; 10; 15; 21 ].

Definition state : Type := Z * Z * Z * Z.

Definition init : state := (0x67452301, 0xefcdab89, 0x98badcfe, 0x10325476).

Definition round (M : list Z) (st : state) (i : nat) : state :=
  let '(a, b, c, d) := st in
  let iz := Z.of_nat i in
  let '(f, g) :=
    if iz <? 16 then (Z.lor (Z.land b c) (Z.land (not32 b) d), iz)
    else if iz <? 32 then (Z.lor (Z.land d b) (Z.land (not32 d) c), (5 * iz + 1) mod 16)
    else if iz <? 48 then (Z.lxor (Z.lxor b c) d, (3 * iz + 5) mod 16)
    else (Z.lxor c (Z.lor b (not32 d)), (7 * iz) mod 16) in
  let f' := add32 (add32 (add32 f a) (nth i K 0)) (nth (Z.to_nat g) M 0) in
  (d, add32 b (rotl32 f' (nth i S 0)), b, c).

Definition block (st : state) (M : list Z) : state :=
  let '(a, b, c, d) := st in
  let '(a', b', c', d') := fold_left (round M) (seq 0 64) st in
  (add32 a a', add32 b b', add32 c c', add32 d d').

(** little-endian words of a list of bytes *)
Fixpoint words (bytes : list Z) : list Z :=
  match bytes with
  | b0 :: b1 :: b2 :: b3 :: rest =>
      (b0 + Z.shiftl b1 8 + Z.shiftl b2 16 + Z.shiftl b3 24) :: words rest
  | _ => []
  end.

Fixpoint chunks (n : nat) (l : list Z) : list (list Z) :=
  match n with
  | O => []
  | Datatypes.S n' => firstn 16 l :: chunks n' (skipn 16 l)
  end.

Definition le_bytes (n : nat) (x : Z) : list Z :=
  map (fun k => Z.land (Z.shiftr x (8 * Z.of_nat k)) 255) (seq 0 n).

Definition pad (msg : list Z) : list Z :=
  let len := Z.of_nat (List.length msg) in
  let zeros := Z.to_nat ((55 - len) mod 64) in
  (msg ++ [128] ++ repeat 0 zeros ++ le_bytes 8 (Z.land (8 * len) 0xFFFFFFFFFFFFFFFF))%list.

Definition digest_state (msg : list Z) : state :=
  let ws := words (pad msg) in
  fold_left block (chunks (List.length ws / 16) ws) init.

Definition hexdigit (n : Z) : ascii :=
  match n with
  | 0 => "0" | 1 => "1" | 2 => "2" | 3 => "3" | 4 => "4" | 5 => "5" | 6 => "6"
  | 7 => "7" | 8 => "8" | 9 => "9" | 10 => "a" | 11 => "b" | 12 => "c"
  | 13 => "d" | 14 => "e" | _ => "f"
  end%char.

Definition hex_word (x : Z) (rest : string) : string :=
  fold_right (fun b acc => String (hexdigit (Z.shiftr b 4)) (String (hexdigit (Z.land b 15)) acc))
             rest (le_bytes 4 x).

Definition bytes_of_string (s : string) : list Z :=
  map (fun c => Z.of_N (N_of_ascii c)) (list_ascii_of_string s).

(** [hashlib.md5(s).hexdigest()] *)
Definition hexdigest (s : string) : string :=
  let '(a, b, c, d) := digest_state (bytes_of_string s) in
  hex_word a (hex_word b (hex_word c (hex_word d EmptyString))).

End MD5.

(** ** Exceptions and results *)

Inductive exn : Type :=
| ValueError | TypeError | KeyError | AttributeError | OverflowError
| OSError. (* with its subclasses FileNotFoundError, FileExistsError, ... *)

Inductive result (A : Type) : Type :=
| Ok (a : A)
| Raise (e : exn).
Arguments Ok {A} a.
Arguments Raise {A} e.

Definition raised {A} (r : result A) : Prop := exists e, r = Raise e.

(** ** Python numbers: [str(n)] and [int(float(x))] *)

Module Num.

(** [str(n)] for an [int] *)
Definition str (n : Z) : string := DecimalString.NilZero.string_of_int (Z.to_int n).

(** Nearest integer to [num / den], ties to even ([0 <= num], [0 < den]). *)
Definition round_half_even (num den : Z) : Z :=
  let q := num / den in
  let r := num mod den in
  if 2 * r <? den then q
  else if den <? 2 * r then q + 1
  else if Z.even q then q else q + 1.

Definition bit_length (n : Z) : Z := if n =? 0 then 0 else Z.log2 n + 1.

(** [int(float(num / den))] for a non-negative rational: the rational is
    rounded to a 53-bit significand (IEEE 754 binary64, round half to
    even), and the resulting float is truncated. *)
Definition trunc_double (num den : Z) : Z :=
  let e := bit_length (num / den) - 53 in
  if 0 <=? e then round_half_even num (den * 2 ^ e) * 2 ^ e
  else round_half_even (num * 2 ^ (- e)) den / 2 ^ (- e).

(** The float is infinite from [2^1024] on: [int(inf)] and
    [float(10**400)] both raise [OverflowError]. *)
Definition finite (neg : bool) (r : Z) : result Z :=
  if 2 ^ 1024 <=? r then Raise OverflowError
  else Ok (if neg then - r else r).

(** [int(float(n))] for an [int] *)
Definition int_float (n : Z) : result Z :=
  finite (n <? 0) (trunc_double (Z.abs n) 1).

Definition is_space (c : ascii) : bool :=
  let n := N_of_ascii c in ((n =? 32) || (9 <=? n) && (n <=? 13))%N.

Definition digit_val (c : ascii) : option Z :=
  let n := N_of_ascii c in
  if ((48 <=? n) && (n <=? 57))%N then Some (Z.of_N n - 48) else None.

(** [digit (["_"] digit)*] after its first digit: value so far, number
    of digits so far. *)
Fixpoint digits_loop (acc cnt : Z) (l : list ascii) : Z * Z * list ascii :=
  match l with
  | c :: l' =>
      match digit_val c with
      | Some d => digits_loop (10 * acc + d) (cnt + 1) l'
      | None =>
          if Ascii.eqb c "_" then
            match l' with
            | c' :: l'' =>
                match digit_val c' with
                | Some d => digits_loop (10 * acc + d) (cnt + 1) l''
                | None => (acc, cnt, l)
                end
            | [] => (acc, cnt, l)
            end
          else (acc, cnt, l)
      end
  | [] => (acc, cnt, l)
  end.

Definition digitpart (acc : Z) (l : list ascii) : option (Z * Z * list ascii) :=
  match l with
  | c :: l' =>
      match digit_val c with
      | Some d => Some (digits_loop (10 * acc + d) 1 l')
      | None => None
      end
  | [] => None
  end.

Definition sign (l : list ascii) : bool * list ascii :=
  match l with
  | c :: l' =>
      if Ascii.eqb c "-" then (true, l')
      else if Ascii.eqb c "+" then (false, l') else (false, l)
  | [] => (false, l)
  end.

Definition lower (c : ascii) : ascii :=
  let n := N_of_ascii c in
  if ((65 <=? n) && (n <=? 90))%N then ascii_of_N (n + 32) else c.

(** [[digitpart] "." digitpart | digitpart ["."]]: the digits without
    the point, and how many of them follow the point. *)
Definition number (l : list ascii) : option (Z * Z * list ascii) :=
  match digitpart 0 l with
  | Some (ip, _, rest) =>
      match rest with
      | c :: rest' =>
          if Ascii.eqb c "." then
            match digitpart ip rest' with
            | Some (m, k, rest'') => Some (m, k, rest'')
            | None => Some (ip, 0, rest')
            end
          else Some (ip, 0, rest)
      | [] => Some (ip, 0, rest)
      end
  | None =>
      match l with
      | c :: rest' => if Ascii.eqb c "." then digitpart 0 rest' else None
      | [] => None
      end
  end.

(** [("e" | "E") [sign] digitpart], when present *)
Definition exponent (l : list ascii) : option (Z * list ascii) :=
  match l with
  | c :: l' =>
      if Ascii.eqb (lower c) "e" then
        let '(neg, l'') := sign l' in
        match digitpart 0 l'' with
        | Some (x, _, rest) => Some (if neg then - x else x, rest)
        | None => None
        end
      else Some (0, l)
  | [] => Some (0, l)
  end.

Fixpoint lstrip (l : list ascii) : list ascii :=
  match l with
  | c :: l' => if is_space c then lstrip l' else l
  | [] => []
  end.

(** [s.strip()] *)
Definition strip (l : list ascii) : list ascii :=
  List.rev (lstrip (List.rev (lstrip l))).

(** [int(float(s))] for a [str] *)
Definition int_float_str (s : string) : result Z :=
  let '(neg, body) := sign (strip (list_ascii_of_string s)) in
  let word := string_of_list_ascii (map lower body) in
  if String.eqb word "inf" || String.eqb word "infinity" then Raise OverflowError
  else if String.eqb word "nan" then Raise ValueError
  else
    match number body with
    | Some (m, k, rest) =>
        match exponent rest with
        | Some (x, []) =>
            let e10 := x - k in
            finite neg (if 0 <=? e10 then trunc_double (m * 10 ^ e10) 1
                        else trunc_double m (10 ^ (- e10)))
        | _ => Raise ValueError
        end
    | None => Raise ValueError
    end.

End Num.

(** ** Metadata keys *)

Definition KEY_URI : string := "Thumb::URI".
Definition KEY_MTIME : string := "Thumb::MTime".
Definition KEY_WIDTH : string := "Thumb::Image::Width".
Definition KEY_HEIGHT : string := "Thumb::Image::Height".
Definition KEY_SIZE : string := "Thumb::Size".

(** ** Size arguments *)

(** What a caller may pass as [size]: an [int] or a [str]. *)
Inductive size_arg : Type :=
| SizeInt (n : Z)
| SizeStr (s : string).

(** What [_any2size] returns: the pair [(pixels, name)] of its first two
    branches, or the bare [int] of its last two. *)
Inductive size_ret : Type :=
| SizePair (px : Z) (name : string)
| SizeBare (px : Z).

(** [size in ('normal', 128, '128')] and [size in ('large', 256, '256')] *)
Definition is_normal_alias (size : size_arg) : bool :=
  match size with
  | SizeStr s => String.eqb s "normal" || String.eqb s "128"
  | SizeInt n => n =? 128
  end.

Definition is_large_alias (size : size_arg) : bool :=
  match size with
  | SizeStr s => String.eqb s "large" || String.eqb s "256"
  | SizeInt n => n =? 256
  end.

(** [_any2size(size)]. Comparing an [int] with a [str] ([0 < 'huge'])
    raises [TypeError]. *)
Definition _any2size (size : size_arg) : result size_ret :=
  if is_normal_alias size then Ok (SizePair 128 "normal")
  else if is_large_alias size then Ok (SizePair 256 "large")
  else
    match size with
    | SizeStr _ => Raise TypeError
    | SizeInt n =>
        if (0 <? n) && (n <=? 128) then Ok (SizeBare 128)
        else if (128 <? n) && (n <=? 256) then Ok (SizeBare 256)
        else Raise ValueError
    end.

(** [r[0]] and [r[1]]: an [int] is not subscriptable. *)
Definition subscript0 (r : size_ret) : result Z :=
  match r with
  | SizePair px _ => Ok px
  | SizeBare _ => Raise TypeError
  end.

Definition subscript1 (r : size_ret) : result string :=
  match r with
  | SizePair _ name => Ok name
  | SizeBare _ => Raise TypeError
  end.

Definition rbind {A B} (r : result A) (f : A -> result B) : result B :=
  match r with
  | Ok a => f a
  | Raise e => Raise e
  end.

(** ** The identity canonicaliser *)

(** [[a-z0-9.+-]] under [re.I] *)
Definition is_scheme_char (c : ascii) : bool :=
  Url.is_alpha c || Url.is_digit c
  || Ascii.eqb c "." || Ascii.eqb c "+" || Ascii.eqb c "-".

(** [[a-z0-9.+-]*:] at the head of [s] *)
Fixpoint scheme_rest (s : string) : bool :=
  match s with
  | EmptyString => false
  | String c s' =>
      if Ascii.eqb c ":" then true
      else if is_scheme_char c then scheme_rest s' else false
  end.

(** [URI_RE.match(s)] for [URI_RE = re.compile(r'[a-z][a-z0-9.+-]*:', re.I)]:
    the match is anchored at the start of [s], and since the colon is
    not in the class there is nothing to backtrack over. *)
Definition URI_RE_match (s : string) : bool :=
  match s with
  | EmptyString => false
  | String c s' => Url.is_alpha c && scheme_rest s'
  end.

(** ** Images, backends and the platform *)

(** A decoded image: its pixel box and the text attached to it (the
    tEXt chunks of a PNG). Pixels are not modelled. *)
Record image : Type := {
  i_width : Z;
  i_height : Z;
  i_text : gmap string string;
}.

Inductive backend : Type := QtBackend | MagickBackend | PilBackend.

(** The process environment the module reads, the imaging toolkits that
    can be imported, and what the model leaves to the outside: the clock,
    the size of an encoded PNG and the box a toolkit scales an image to. *)
Record platform : Type := {
  cwd : string;                        (* os.getcwd() *)
  HOME : string;                       (* what '~' expands to *)
  XDG_CACHE_HOME : option string;      (* os.getenv('XDG_CACHE_HOME') *)
  umask : Z;
  qt_available : bool;                 (* from PyQt5 import QtGui *)
  magick_available : bool;             (* import PythonMagick *)
  pil_available : bool;                (* import PIL.Image *)
  now : Z;                             (* mtime given to a file written now *)
  png_size : image -> Z;               (* bytes of the encoded file *)
  scaled : backend -> Z -> Z * Z -> Z * Z;
}.

Section Identity.
Variable P : platform.

(** [_any2uri(sth)] *)
Definition _any2uri (sth : string) : string :=
  if URI_RE_match sth then sth
  else "file://" ++ Url.pathname2url (Path.abspath (cwd P) sth).

(** [_thumb_path_prefix()] *)
Definition _thumb_path_prefix : string :=
  let xdgcache :=
    match XDG_CACHE_HOME P with
    | Some v => v
    | None => Str.rstrip_slash (HOME P) ++ "/.cache"   (* expanduser('~/.cache') *)
    end in
  let xdgcache := Path.normpath xdgcache in
  Path.join xdgcache "thumbnails".

(** [hash_name(src)] *)
Definition hash_name (src : string) : string :=
  let uri := _any2uri src in
  MD5.hexdigest uri.

(** [build_thumbnail_path(src, size)] *)
Definition build_thumbnail_path (src : string) (size : size_arg) : result string :=
  rbind (rbind (_any2size size) subscript1) (fun sizename =>
  let prefix := Path.join _thumb_path_prefix sizename in
  if Str.startswith src (prefix ++ "/") then Ok src
  else
    let md5uri := hash_name src in
    Ok (Path.join prefix (md5uri ++ ".png"))).

End Identity.

(** ** The world: file system, temporary names, log of calls *)

Inductive content : Type :=
| Directory
| Picture (img : image)     (* a file every toolkit decodes *)
| Bytes.                    (* any other file: not an image *)

Record node : Type := {
  n_content : content;
  n_mode : Z;
  n_mtime : Z;                (* int(os.path.getmtime(p)) *)
  n_size : Z;                 (* os.path.getsize(p) *)
}.

(** The file-system calls the module issues, in the order issued. A
    call is recorded when it is made, whether or not it succeeds; a
    [mkstemp] that finds no free name has no file to record. *)
Inductive event : Type :=
| EvMkdir (p : string) (mode : Z)
| EvMkstemp (dir p : string)
| EvChmod (p : string) (mode : Z)
| EvSave (p : string)         (* a toolkit writes an image file at p *)
| EvRename (a b : string)
| EvMove (a b : string).

Record world : Type := {
  w_fs : gmap string node;
  w_names : list string;      (* the random names tempfile will try *)
  w_log : list event;
}.

Definition set_fs (fs : gmap string node) (w : world) : world :=
  {| w_fs := fs; w_names := w_names w; w_log := w_log w |}.

Definition add_log (e : event) (w : world) : world :=
  {| w_fs := w_fs w; w_names := w_names w; w_log := (w_log w ++ [e])%list |}.

(** Computations that read and change the world and may raise. *)
Definition M (A : Type) : Type := world -> result A * world.

Definition ret {A} (a : A) : M A := fun w => (Ok a, w).
Definition raise {A} (e : exn) : M A := fun w => (Raise e, w).
Definition lift {A} (r : result A) : M A := fun w => (r, w).
Definition bind {A B} (m : M A) (f : A -> M B) : M B :=
  fun w =>
    match m w with
    | (Ok a, w') => f a w'
    | (Raise e, w') => (Raise e, w')
    end.

Notation "x <- m ;; k" := (bind m (fun x => k))
  (at level 100, m at next level, right associativity).

Definition is_dir (n : node) : bool :=
  match n_content n with Directory => true | _ => false end.

Module Os.

(** [os.path.exists(p)] *)
Definition exists_ (p : string) : M bool :=
  fun w => (Ok (match w_fs w !! p with Some _ => true | None => false end), w).

(** [os.path.isdir(p)] *)
Definition isdir (p : string) : M bool :=
  fun w => (Ok (match w_fs w !! p with Some n => is_dir n | None => false end), w).

(** [int(os.path.getmtime(p))] *)
Definition getmtime (p : string) : M Z :=
  fun w => (match w_fs w !! p with Some n => Ok (n_mtime n) | None => Raise OSError end, w).

(** [os.path.getsize(p)] *)
Definition getsize (p : string) : M Z :=
  fun w => (match w_fs w !! p with Some n => Ok (n_size n) | None => Raise OSError end, w).

(** [os.chmod(p, mode)] *)
Definition chmod (p : string) (mode : Z) : M unit :=
  fun w =>
    let w := add_log (EvChmod p mode) w in
    match w_fs w !! p with
    | Some n =>
        (Ok tt, set_fs (<[p := {| n_content := n_content n; n_mode := mode;
                                  n_mtime := n_mtime n; n_size := n_size n |}]> (w_fs w)) w)
    | None => (Raise OSError, w)
    end.

(** [os.rename(a, b)]: the node moves from [a] to [b], replacing what
    was there. A file does not replace a directory, nor a directory a
    file. *)
Definition rename (a b : string) : M unit :=
  fun w =>
    let w := add_log (EvRename a b) w in
    match w_fs w !! a with
    | None => (Raise OSError, w)
    | Some n =>
        if String.eqb a b then (Ok tt, w)
        else
          match w_fs w !! b with
          | Some nb =>
              if Bool.eqb (is_dir n) (is_dir nb)
              then (Ok tt, set_fs (<[b := n]> (delete a (w_fs w))) w)
              else (Raise OSError, w)
          | None => (Ok tt, set_fs (<[b := n]> (delete a (w_fs w))) w)
          end
    end.

(** [shutil.move(a, b)] onto a regular file [b] *)
Definition move (a b : string) : M unit :=
  fun w =>
    let w := add_log (EvMove a b) w in
    match w_fs w !! a with
    | None => (Raise OSError, w)
    | Some n =>
        if is_dir n then (Raise OSError, w)
        else if String.eqb a b then (Ok tt, w)
        else (Ok tt, set_fs (<[b := n]> (delete a (w_fs w))) w)
    end.

Definition parent_is_dir (fs : gmap string node) (p : string) : bool :=
  let d := Path.dirname p in
  if Str.is_empty d then true
  else match fs !! d with Some n => is_dir n | None => false end.

Section WithPlatform.
Variable P : platform.

(** [os.mkdir(p, mode)] *)
Definition mkdir (p : string) (mode : Z) : M unit :=
  fun w =>
    let w := add_log (EvMkdir p mode) w in
    match w_fs w !! p with
    | Some _ => (Raise OSError, w)
    | None =>
        if parent_is_dir (w_fs w) p
        then (Ok tt, set_fs (<[p := {| n_content := Directory; n_mode := Z.ldiff mode (umask P);
                                       n_mtime := now P; n_size := 4096 |}]> (w_fs w)) w)
        else (Raise OSError, w)
    end.

(** [os.makedirs(name, mode)]: missing parents are made first, with the
    default mode. The recursion is on a path that gets shorter. *)
Fixpoint makedirs_rec (fuel : nat) (name : string) (mode : Z) : M unit :=
  match fuel with
  | O => raise OSError
  | S fuel' =>
      let '(head, tail) := Path.split name in
      let '(head, tail) := if Str.is_empty tail then Path.split head else (head, tail) in
      if negb (Str.is_empty head) && negb (Str.is_empty tail) then
        ex <- exists_ head ;;
        if ex then mkdir name mode
        else
          _ <- makedirs_rec fuel' head 511 ;;
          if String.eqb tail "." then ret tt else mkdir name mode
      else mkdir name mode
  end.

Definition makedirs (name : string) (mode : Z) : M unit :=
  makedirs_rec (Datatypes.S (String.length name)) name mode.

(** The loop of [tempfile.mkstemp]: the first drawn name that is free. *)
Fixpoint mkstemp_loop (fs : gmap string node) (dir : string) (names : list string)
  : option (string * list string) :=
  match names with
  | [] => None
  | name :: rest =>
      let file := Path.join dir ("tmp" ++ name ++ ".png") in
      match fs !! file with
      | None => Some (file, rest)
      | Some _ => mkstemp_loop fs dir rest
      end
  end.

(** [tempfile.mkstemp(suffix='.png', dir=dir)] followed by [os.close(fd)] *)
Definition mkstemp (dir : string) : M string :=
  fun w =>
    match w_fs w !! dir with
    | Some n =>
        if is_dir n then
          match mkstemp_loop (w_fs w) dir (w_names w) with
          | Some (file, rest) =>
              (Ok file,
               {| w_fs := <[file := {| n_content := Bytes; n_mode := 384;
                                       n_mtime := now P; n_size := 0 |}]> (w_fs w);
                  w_names := rest;
                  w_log := (w_log w ++ [EvMkstemp dir file])%list |})
          | None => (Raise OSError, {| w_fs := w_fs w; w_names := []; w_log := w_log w |})
          end
        else (Raise OSError, w)
    | None => (Raise OSError, w)
    end.

(** A toolkit writes [img] as a PNG file at [p]. *)
Definition save (p : string) (img : image) : M unit :=
  fun w =>
    let w := add_log (EvSave p) w in
    let mode := match w_fs w !! p with Some n => n_mode n | None => Z.ldiff 438 (umask P) end in
    (Ok tt, set_fs (<[p := {| n_content := Picture img; n_mode := mode;
                              n_mtime := now P; n_size := png_size P img |}]> (w_fs w)) w).

End WithPlatform.

(** What a toolkit gets when it opens [p]: the image, if [p] is one. *)
Definition read_image (p : string) : M (option image) :=
  fun w => (Ok (match w_fs w !! p with
                | Some n => match n_content n with Picture img => Some img | _ => None end
                | None => None
                end), w).

End Os.

(** ** The store *)

Section Store.
Variable P : platform.

(** [d.setdefault(k, v)], as a new dict *)
Definition setdefault (k v : string) (d : gmap string string) : gmap string string :=
  match d !! k with
  | Some _ => d
  | None => <[k := v]> d
  end.

(** [_any2mtime(origname, mtime)] *)
Definition _any2mtime (origname : option string) (mtime : option Z) : M Z :=
  match mtime with
  | None =>
      match origname with
      | Some p => Os.getmtime p
      | None => raise TypeError
      end
  | Some m => lift (Num.int_float m)
  end.

(** [_info_dict(d, mtime, src)]. The default is computed before
    [setdefault] looks at the dict, so reading the mtime of a missing
    file raises even when the key is already there. *)
Definition _info_dict (d : option (gmap string string)) (mtime : option Z)
           (src : option string) : M (gmap string string) :=
  let d := default ∅ d in
  d <- (match mtime, src with
        | None, None => ret d
        | _, _ => m <- _any2mtime src mtime ;; ret (setdefault KEY_MTIME (Num.str m) d)
        end) ;;
  match src with
  | Some s => ret (setdefault KEY_URI (_any2uri P s) d)
  | None => ret d
  end.

(** [_mkstemp(dest)] *)
Definition _mkstemp (dest : string) : M string :=
  path <- Os.mkstemp P (Path.dirname dest) ;;
  _ <- Os.chmod path 384 ;;
  ret path.

(** *** Backends *)

Definition is_available (b : backend) : bool :=
  match b with
  | QtBackend => qt_available P
  | MagickBackend => magick_available P
  | PilBackend => pil_available P
  end.

Definition BACKENDS : list backend := [QtBackend; MagickBackend; PilBackend].

(** [get_backend()]: [None] when the loop finds nothing. *)
Definition get_backend : option backend := List.find is_available BACKENDS.

(** [get_backend().method]: looking a method up on [None] raises. *)
Definition the_backend : M backend :=
  match get_backend with
  | Some b => ret b
  | None => raise AttributeError
  end.

(** [setattributes(img, moreinfo)]: the keys of [moreinfo] replace those
    of the image. *)
Definition setattributes (img : image) (moreinfo : gmap string string) : image :=
  {| i_width := i_width img; i_height := i_height img;
     i_text := moreinfo ∪ i_text img |}.

Definition with_size_text (img : image) (w h : Z) : image :=
  {| i_width := i_width img; i_height := i_height img;
     i_text := <[KEY_HEIGHT := Num.str h]> (<[KEY_WIDTH := Num.str w]> (i_text img)) |}.

Definition resized (b : backend) (size : Z) (img : image) : image :=
  let '(w, h) := scaled P b size (i_width img, i_height img) in
  {| i_width := w; i_height := h; i_text := i_text img |}.

(** The three last lines of every writing method: a temporary file
    beside [dest], the image saved there, the file renamed to [dest]. *)
Definition write_then_rename (dest : string) (img : image) : M string :=
  tmp <- _mkstemp dest ;;
  _ <- Os.save P tmp img ;;
  _ <- Os.rename tmp dest ;;
  ret dest.

(** [backend.create_thumbnail(src, dest, size, moreinfo)] *)
Definition backend_create_thumbnail (b : backend) (src dest : string) (size : Z)
           (moreinfo : gmap string string) : M (option string) :=
  o <- Os.read_image src ;;
  match o with
  | None => ret None
  | Some img =>
      let out :=
        match b with
        | PilBackend =>
            (* outinfo holds moreinfo, then the size of the source *)
            with_size_text
              {| i_width := i_width (resized b size img);
                 i_height := i_height (resized b size img);
                 i_text := moreinfo |}
              (i_width img) (i_height img)
        | MagickBackend | QtBackend => setattributes (resized b size img) moreinfo
        end in
      d <- write_then_rename dest out ;;
      ret (Some d)
  end.

(** [backend.create_fail(dest, moreinfo)] *)
Definition backend_create_fail (b : backend) (dest : string)
           (moreinfo : gmap string string) : M string :=
  write_then_rename dest {| i_width := 1; i_height := 1; i_text := moreinfo |}.

(** [backend.update_metadata(dest, moreinfo)] *)
Definition backend_update_metadata (b : backend) (dest : string)
           (moreinfo : gmap string string) : M (option string) :=
  o <- Os.read_image dest ;;
  match b, o with
  | PilBackend, None => raise OSError
  | PilBackend, Some img =>
      d <- write_then_rename dest
             {| i_width := i_width img; i_height := i_height img; i_text := moreinfo |} ;;
      ret (Some d)
  | _, None => ret None
  | _, Some img =>
      d <- write_then_rename dest
             (with_size_text (setattributes img moreinfo) (i_width img) (i_height img)) ;;
      ret (Some d)
  end.

Record info : Type := { info_mtime : Z; info_uri : string }.

(** [backend.get_info(path)] *)
Definition backend_get_info (b : backend) (path : string) : M (option info) :=
  o <- Os.read_image path ;;
  match b, o with
  | PilBackend, None => raise OSError
  | PilBackend, Some img =>
      match i_text img !! KEY_MTIME with
      | None => raise KeyError
      | Some t =>
          mtime <- lift (Num.int_float_str t) ;;
          match i_text img !! KEY_URI with
          | None => raise KeyError
          | Some u => ret (Some {| info_mtime := mtime; info_uri := u |})
          end
      end
  | _, None => ret None
  | _, Some img =>
      (* img.text(k) is '' for a missing key, and ['' or 0] is [0] *)
      let t := default "" (i_text img !! KEY_MTIME) in
      mtime <- lift (if Str.is_empty t then Num.int_float 0 else Num.int_float_str t) ;;
      ret (Some {| info_mtime := mtime; info_uri := default "" (i_text img !! KEY_URI) |})
  end.

(** [thumbnail_info(thumbnail)] *)
Definition thumbnail_info (thumbnail : string) : M (option info) :=
  b <- the_backend ;;
  backend_get_info b thumbnail.

(** *** Module functions *)

(** [is_thumbnail_valid(thumbnail, uri, mtime)]: [info['uri']] on a
    [None] raises [TypeError]. *)
Definition is_thumbnail_valid (thumbnail uri : string) (mtime : Z) : M bool :=
  o <- thumbnail_info thumbnail ;;
  match o with
  | None => raise TypeError
  | Some i => ret (String.eqb (info_uri i) uri && (info_mtime i =? mtime))
  end.

Definition fail_path (src appname : string) : string :=
  let prefix := _thumb_path_prefix P in
  let apppath := Path.join (Path.join prefix "fail") appname in
  Path.join apppath (hash_name P src ++ ".png").

(** [is_thumbnail_failed(src, appname, mtime)] *)
Definition is_thumbnail_failed (src appname : string) (mtime : option Z) : M bool :=
  let uri := _any2uri P src in
  mtime <- _any2mtime (Some src) mtime ;;
  let thumb := fail_path src appname in
  ex <- Os.exists_ thumb ;;
  if ex then is_thumbnail_valid thumb uri mtime else ret false.

(** [put_fail(src, appname, mtime, moreinfo)] *)
Definition put_fail (src appname : string) (mtime : option Z)
           (moreinfo : option (gmap string string)) : M string :=
  let prefix := Path.join (Path.join (_thumb_path_prefix P) "fail") appname in
  isd <- Os.isdir prefix ;;
  _ <- (if isd then ret tt else Os.makedirs P prefix 448) ;;
  let dest := Path.join prefix (hash_name P src ++ ".png") in
  moreinfo <- _info_dict moreinfo mtime (Some src) ;;
  b <- the_backend ;;
  backend_create_fail b dest moreinfo.

(** [put_thumbnail(src, size, thumb, mtime, moreinfo)] *)
Definition put_thumbnail (src : string) (size : size_arg) (thumb : string)
           (mtime : option Z) (moreinfo : option (gmap string string)) : M string :=
  dest <- lift (build_thumbnail_path P src size) ;;
  tmp <- (if String.eqb dest thumb then
            tmp <- _mkstemp dest ;;
            _ <- Os.rename dest tmp ;;
            ret tmp
          else if String.eqb (Path.dirname dest) (Path.dirname thumb) then
            ret thumb
          else
            tmp <- _mkstemp dest ;;
            _ <- Os.move thumb tmp ;;
            ret tmp) ;;
  moreinfo <- _info_dict moreinfo mtime (Some src) ;;
  b <- the_backend ;;
  _ <- backend_update_metadata b tmp moreinfo ;;
  _ <- Os.chmod tmp 384 ;;
  _ <- Os.rename tmp dest ;;
  ret dest.

(** A returned path counts as true unless it is the empty string. *)
Definition truthy (o : option string) : bool :=
  match o with
  | Some s => negb (Str.is_empty s)
  | None => false
  end.

(** [create_thumbnail(src, size, moreinfo, use_fail_appname)] *)
Definition create_thumbnail (src : string) (size : size_arg)
           (moreinfo : option (gmap string string)) (use_fail_appname : option string)
  : M (option string) :=
  size <- lift (rbind (_any2size size) subscript0) ;;
  filesize <- Os.getsize src ;;
  dest <- lift (build_thumbnail_path P src (SizeInt size)) ;;
  moreinfo <- _info_dict moreinfo None (Some src) ;;
  let moreinfo := <[KEY_SIZE := Num.str filesize]> moreinfo in
  isd <- Os.isdir (Path.dirname dest) ;;
  _ <- (if isd then ret tt else Os.makedirs P (Path.dirname dest) 448) ;;
  b <- the_backend ;;
  r <- backend_create_thumbnail b src dest size moreinfo ;;
  if truthy r then ret (Some dest)
  else
    match use_fail_appname with
    | Some appname => _ <- put_fail src appname None None ;; ret None
    | None => ret None
    end.

(** The loop of [try_get_thumbnail] over the candidate sizes. *)
Fixpoint try_sizes (src uri : string) (mtime : Z) (sizes : list size_arg)
  : M (option string) :=
  match sizes with
  | [] => ret None
  | size :: rest =>
      thumb <- lift (build_thumbnail_path P src size) ;;
      ex <- Os.exists_ thumb ;;
      if ex then
        if String.eqb src thumb then ret (Some src)
        else
          v <- is_thumbnail_valid thumb uri mtime ;;
          if v then ret (Some thumb) else try_sizes src uri mtime rest
      else try_sizes src uri mtime rest
  end.

(** [try_get_thumbnail(src, size, mtime)] *)
Definition try_get_thumbnail (src : string) (size : option size_arg) (mtime : option Z)
  : M (option string) :=
  let sizes :=
    match size with
    | None => [SizeStr "large"; SizeStr "normal"]
    | Some s => [s]
    end in
  mtime <- _any2mtime (Some src) mtime ;;
  let uri := _any2uri P src in
  try_sizes src uri mtime sizes.

(** [get_thumbnail(src, size, use_fail_appname)] *)
Definition get_thumbnail (src : string) (size : option size_arg)
           (use_fail_appname : option string) : M (option string) :=
  thumb <- try_get_thumbnail src size None ;;
  match thumb with
  | Some t => ret (Some t)
  | None =>
      failed <- (match use_fail_appname with
                 | Some appname =>
                     mtime <- _any2mtime (Some src) None ;;
                     is_thumbnail_failed src appname (Some mtime)
                 | None => ret false
                 end) ;;
      if failed then ret None
      else
        let size := match size with None => SizeStr "large" | Some s => s end in
        create_thumbnail src size None use_fail_appname
  end.

(** [create_temp(size)] *)
Definition create_temp (size : size_arg) : M string :=
  size <- lift (rbind (_any2size size) subscript1) ;;
  let dir := Path.join (_thumb_path_prefix P) size in
  isd <- Os.isdir dir ;;
  _ <- (if isd then ret tt else Os.makedirs P dir 448) ;;
  _mkstemp (Path.join dir "ignored").

End Store.

(** ** Preparing the cache directories *)

Section Housekeeping.
Variable P : platform.

(** The loop of [makedirs()] over the children of the cache root. *)
Fixpoint makedirs_loop (root : string) (children : list string) : M unit :=
  match children with
  | [] => ret tt
  | child :: rest =>
      let path := Path.join root child in
      isd <- Os.isdir path ;;
      _ <- (if isd then Os.chmod path 448 else Os.makedirs P path 448) ;;
      makedirs_loop root rest
  end.

(** [makedirs()] *)
Definition makedirs : M unit :=
  makedirs_loop (_thumb_path_prefix P) ["normal"; "large"; "fail"].

End Housekeeping.

(** ** The predecessor module, [thumbnail.py]

    The repository keeps the Python 2 module the store grew from. Its
    size parser is the sibling of [_any2size]. *)

Module Legacy.

(** [int(s)] for a [str] of Python 2: blanks, a sign, decimal digits. *)
Fixpoint all_digits (acc : Z) (l : list ascii) : option Z :=
  match l with
  | [] => Some acc
  | c :: l' =>
      match Num.digit_val c with
      | Some d => all_digits (10 * acc + d) l'
      | None => None
      end
  end.

Definition int_str (s : string) : result Z :=
  let '(neg, body) := Num.sign (Num.strip (list_ascii_of_string s)) in
  match body with
  | [] => Raise ValueError
  | _ =>
      match all_digits 0 body with
      | Some n => Ok (if neg then - n else n)
      | None => Raise ValueError
      end
  end.

(** [_any2size(size)] of [thumbnail.py]: a pair, or [None] when the
    function falls off its end. *)
Definition _any2size (size : size_arg) : option (Z * string) :=
  if is_large_alias size then Some (256, "large")
  else if is_normal_alias size then Some (128, "normal")
  else
    match (match size with SizeInt n => Ok n | SizeStr s => int_str s end) with
    | Ok n => if (0 <? n) && (n <=? 128) then Some (128, "normal") else None
    | Raise _ => None
    end.

End Legacy.

(** ** The rest of [thumbnail.py]

    The Python 2 module has no backends: it uses PIL directly, stores
    the URI without percent-encoding, and compares the mtime alone. *)

Module LegacyStore.
Section WithPlatform.
Variable P : platform.

(** [_URI_RE.match(s)] for [_URI_RE = re.compile(r'[a-zA-Z0-9.+-]+:')] *)
Definition _URI_RE_match (s : string) : bool :=
  match s with
  | EmptyString => false
  | String c s' => is_scheme_char c && scheme_rest s'
  end.

(** [_any2uri(sth)] *)
Definition _any2uri (sth : string) : string :=
  if _URI_RE_match sth then sth
  else "file://" ++ Path.abspath (cwd P) sth.

(** [_create_pnginfo(uri, mtime, moreinfo)]: text chunks are written in
    the order added, and a reader keeps the last chunk of a key, so the
    keys of [moreinfo] win. *)
Definition _create_pnginfo (uri : string) (mtime : Z)
           (moreinfo : option (gmap string string)) : gmap string string :=
  default ∅ moreinfo ∪ <[KEY_MTIME := Num.str mtime]> (<[KEY_URI := uri]> ∅).

(** [_any2mtime(origname, mtime)] *)
Definition _any2mtime (origname : string) (mtime : option Z) : M Z :=
  match mtime with
  | None => Os.getmtime origname
  | Some m => ret m
  end.

(** [_thumb_path_prefix()] *)
Definition _thumb_path_prefix : string :=
  let xdgcache :=
    match XDG_CACHE_HOME P with
    | Some v => v
    | None => Str.rstrip_slash (HOME P) ++ "/.cache"
    end in
  Path.join xdgcache "thumbnails".

(** [if size:] *)
Definition size_given (size : option size_arg) : option size_arg :=
  match size with
  | Some (SizeInt n) => if n =? 0 then None else size
  | Some (SizeStr s) => if Str.is_empty s then None else size
  | None => None
  end.

(** [_gen_filenames(name, size)]: a tuple of one or two paths, as its
    first element and the others. [None[1]] raises [TypeError]. *)
Definition _gen_filenames (name : string) (size : option size_arg)
  : result (string * list string) :=
  let uri := _any2uri name in
  let md5uri := MD5.hexdigest uri in
  let prefix := _thumb_path_prefix in
  match size_given size with
  | Some s =>
      match Legacy._any2size s with
      | Some (_, sizename) =>
          Ok (Path.join (Path.join prefix sizename) (md5uri ++ ".png"), [])
      | None => Raise TypeError
      end
  | None =>
      let large := Path.join (Path.join prefix "large") (md5uri ++ ".png") in
      let normal := Path.join (Path.join prefix "normal") (md5uri ++ ".png") in
      Ok (large, [normal])
  end.

(** [thumbnail_path(name, size)] *)
Definition thumbnail_path (name : string) (size : option size_arg) : result string :=
  rbind (_gen_filenames name size) (fun fns => Ok (fst fns)).

Definition fail_path (name appname : string) : string :=
  let apppath := Path.join (Path.join _thumb_path_prefix "fail") appname in
  Path.join apppath (MD5.hexdigest (_any2uri name) ++ ".png").

(** [is_thumbnail_failed(name, appname)] *)
Definition is_thumbnail_failed (name appname : string) : M bool :=
  Os.exists_ (fail_path name appname).

(** [do1(filename)] of [_fine_existing_thumbnail_path]: [PILI.open]
    raises [IOError] for a file that is not an image, and [int] raises
    [ValueError], which nothing catches. *)
Definition do1 (mtime : Z) (filename : string) : M Z :=
  ex <- Os.exists_ filename ;;
  if negb ex then ret 1
  else
    o <- Os.read_image filename ;;
    match o with
    | None => ret 2
    | Some img =>
        match i_text img !! KEY_MTIME with
        | None => ret 2
        | Some t =>
            tntime <- lift (Legacy.int_str t) ;;
            ret (if mtime =? tntime then 0 else 3)
        end
    end.

(** The loop over the candidate files: the first with code 0, else the
    code and the name of the last. *)
Fixpoint scan (mtime : Z) (filename : string) (rest : list string) : M (Z * string) :=
  code <- do1 mtime filename ;;
  if code =? 0 then ret (0, filename)
  else
    match rest with
    | [] => ret (code, filename)
    | f :: rest' => scan mtime f rest'
    end.

(** [_fine_existing_thumbnail_path(name, size, mtime, use_fail_appname)] *)
Definition _fine_existing_thumbnail_path (name : string) (size : option size_arg)
           (mtime : option Z) (use_fail_appname : option string)
  : M (Z * option string) :=
  mtime <- _any2mtime name mtime ;;
  fns <- lift (_gen_filenames name size) ;;
  r <- scan mtime (fst fns) (snd fns) ;;
  if fst r =? 0 then ret (0, Some (snd r))
  else
    failed <- (match use_fail_appname with
               | Some appname => is_thumbnail_failed name appname
               | None => ret false
               end) ;;
    if failed then ret (4, None) else ret (fst r, Some (snd r)).

(** [existing_thumbnail_path(name, size, mtime)]: the path, or [False]
    (here [None]). *)
Definition existing_thumbnail_path (name : string) (size : option size_arg)
           (mtime : option Z) : M (option string) :=
  r <- _fine_existing_thumbnail_path name size mtime None ;;
  if fst r =? 0 then ret (snd r) else ret None.

(** [os.makedirs(name, mode)] of Python 2: the mode is handed down to
    the parents. (The [EEXIST] it forgives cannot come from a parent that
    was just found missing.) *)
Fixpoint makedirs_rec (fuel : nat) (name : string) (mode : Z) : M unit :=
  match fuel with
  | O => raise OSError
  | S fuel' =>
      let '(head, tail) := Path.split name in
      let '(head, tail) := if Str.is_empty tail then Path.split head else (head, tail) in
      if negb (Str.is_empty head) && negb (Str.is_empty tail) then
        ex <- Os.exists_ head ;;
        if ex then Os.mkdir P name mode
        else
          _ <- makedirs_rec fuel' head mode ;;
          if String.eqb tail "." then ret tt else Os.mkdir P name mode
      else Os.mkdir P name mode
  end.

Definition makedirs (name : string) (mode : Z) : M unit :=
  makedirs_rec (Datatypes.S (String.length name)) name mode.

(** [put_fail(origname, appname, mtime, moreinfo)]: the marker is saved
    at its final path. *)
Definition put_fail (origname appname : string) (mtime : option Z)
           (moreinfo : option (gmap string string)) : M unit :=
  let apppath := Path.join (Path.join _thumb_path_prefix "fail") appname in
  isd <- Os.isdir apppath ;;
  _ <- (if isd then ret tt else makedirs apppath 448) ;;
  m <- _any2mtime origname mtime ;;
  let outinfo := _create_pnginfo (_any2uri origname) m moreinfo in
  Os.save P (Path.join apppath (MD5.hexdigest (_any2uri origname) ++ ".png"))
    {| i_width := 1; i_height := 1; i_text := outinfo |}.

End WithPlatform.
End LegacyStore.

Module LegacyGen.
Section WithPlatform.
Variable P : platform.

(** [force_gen_image_thumbnail(filename, size, moreinfo, use_fail_appname)]:
    [False] is [None] here. Of the calls inside the [try], only
    [PILI.open] raises the [IOError] that is caught. *)
Definition force_gen_image_thumbnail (filename : string) (size : option size_arg)
           (moreinfo : option (gmap string string)) (use_fail_appname : option string)
  : M (option string) :=
  let sizeinfo :=
    match size with
    | Some s => Legacy._any2size s
    | None => Some (256, "large")
    end in
  sizename <- lift (match sizeinfo with
                    | Some (_, name) => Ok name
                    | None => Raise TypeError
                    end) ;;
  fns <- lift (LegacyStore._gen_filenames P filename (Some (SizeStr sizename))) ;;
  let thfilename := fst fns in
  isd <- Os.isdir (Path.dirname thfilename) ;;
  _ <- (if isd then ret tt else LegacyStore.makedirs P (Path.dirname thfilename) 448) ;;
  o <- Os.read_image filename ;;
  match o with
  | Some img =>
      mtime <- Os.getmtime filename ;;
      let outinfo :=
        <[KEY_HEIGHT := Num.str (i_height img)]>
          (<[KEY_WIDTH := Num.str (i_width img)]>
             (LegacyStore._create_pnginfo (LegacyStore._any2uri P filename) mtime moreinfo)) in
      let px := match sizeinfo with Some (px, _) => px | None => 0 end in
      tmppath <- Os.mkstemp P (Path.dirname thfilename) ;;
      _ <- Os.save P tmppath
             {| i_width := i_width (resized P PilBackend px img);
                i_height := i_height (resized P PilBackend px img);
                i_text := outinfo |} ;;
      _ <- Os.rename tmppath thfilename ;;
      ret (Some thfilename)
  | None =>
      _ <- (match use_fail_appname with
            | Some appname => LegacyStore.put_fail P filename appname None moreinfo
            | None => ret tt
            end) ;;
      ret None
  end.

(** [gen_image_thumbnail(filename, size, moreinfo, use_fail_appname)]:
    the probe is called without the app name. *)
Definition gen_image_thumbnail (filename : string) (size : option size_arg)
           (moreinfo : option (gmap string string)) (use_fail_appname : option string)
  : M (option string) :=
  r <- LegacyStore._fine_existing_thumbnail_path P filename size None None ;;
  if fst r =? 0 then ret (snd r)
  else if fst r =? 4 then ret None
  else force_gen_image_thumbnail filename size moreinfo use_fail_appname.

End WithPlatform.
End LegacyGen.

(** * The vocabulary of the properties *)

(** ** Canonical URIs *)


(** ** Thumbnail paths *)

(** The size classes of the specification, their directories and the
    arguments that name them. *)
Inductive size_class : Type := Normal | Large.

Definition class_dir (c : size_class) : string :=
  match c with Normal => "normal" | Large => "large" end.

Definition class_aliases (c : size_class) : list size_arg :=
  match c with
  | Normal => [SizeStr "normal"; SizeInt 128; SizeStr "128"]
  | Large => [SizeStr "large"; SizeInt 256; SizeStr "256"]
  end.

(** [<cache_root>/<size_dir>] *)
Definition size_dir_path (P : platform) (c : size_class) : string :=
  _thumb_path_prefix P ++ "/" ++ class_dir c.

(** The path in the words of the specification:
    [<cache_root>/<size_dir>/<md5 of the canonical URI>.png], or the
    reference itself when it lies under [<cache_root>/<size_dir>/]. *)
Definition thumbnail_path_spec (P : platform) (ref : string) (c : size_class) : string :=
  if Str.startswith ref (size_dir_path P c ++ "/") then ref
  else size_dir_path P c ++ "/" ++ MD5.hexdigest (_any2uri P ref) ++ ".png".

(** ** Probing the cache *)

Definition default_large (size : option size_arg) : size_arg :=
  match size with
  | None => SizeStr "large"
  | Some s => s
  end.

Section ProbingSpec.
Variable P : platform.





End ProbingSpec.

(** ** Computations *)

(** A computation that only looks at the world. *)
Definition readonly {A} (m : M A) : Prop := forall w, snd (m w) = w.


(** What the file at [p] holds. *)
Definition content_at (w : world) (p : string) : option content :=
  n_content <$> w_fs w !! p.

(** ** The log of file-system calls *)

Definition is_save (e : event) : bool :=
  match e with EvSave _ => true | _ => false end.

(** A log in which every image write is the third call of a
    publication: [mkstemp] in the directory of the destination, [chmod]
    of the new file, the write into the new file, the rename of the new
    file onto the destination. *)
Inductive atomic_writes : list event -> Prop :=
| aw_nil : atomic_writes []
| aw_other (e : event) (tr : list event) :
    is_save e = false -> atomic_writes tr -> atomic_writes (e :: tr)
| aw_publish (dest tmp : string) (tr : list event) :
    atomic_writes tr ->
    atomic_writes (EvMkstemp (Path.dirname dest) tmp :: EvChmod tmp 384
                   :: EvSave tmp :: EvRename tmp dest :: tr).




(** ** Names and modes *)

(** ['/' not in s] *)
Fixpoint no_slash (s : string) : bool :=
  match s with
  | EmptyString => true
  | String c s' => negb (Ascii.eqb c "/") && no_slash s'
  end.

(** [c in '0123456789abcdef'] *)
Definition is_lower_hex (c : ascii) : bool :=
  let n := N_of_ascii c in
  ((48 <=? n) && (n <=? 57) || (97 <=? n) && (n <=? 102))%N.

(** A directory name of one component: not empty, no slash, not [.]. *)
Definition plain_child (child : string) : Prop :=
  Str.is_empty child = false /\ no_slash child = true /\ String.eqb child "." = false.

(** No permission bit for the group or for others. *)
Definition owner_only (mode : Z) : Prop := Z.land mode 63 = 0.

(** [_any2size(size)[0]] for a size of the class. *)
Definition class_px (c : size_class) : Z :=
  match c with Normal => 128 | Large => 256 end.



(** ** Files left alone *)

(** Every file of [w] that is not named in [l] is in [w'] as it was. *)
Definition unchanged_except (l : list string) (w w' : world) : Prop :=
  forall q n, w_fs w !! q = Some n -> ~ In q l -> w_fs w' !! q = Some n.

(** Started anywhere the files of [w0] outside [l] are as they were, the
    computation leaves them so, and what it returns satisfies [Q]. *)
Definition keeps {A} (w0 : world) (l : list string) (m : M A) (Q : A -> Prop) : Prop :=
  forall w, unchanged_except l w0 w ->
    unchanged_except l w0 (snd (m w)) /\ forall a, fst (m w) = Ok a -> Q a.

(** A path the computation may write to: one of [l], or a path that was
    free in [w0]. *)
Definition writable (w0 : world) (l : list string) (p : string) : Prop :=
  In p l \/ w_fs w0 !! p = None.

(** The paths of the cache that belong to a source. *)
Definition cache_paths (P : platform) (src : string) (app : option string) : list string :=
  thumbnail_path_spec P src Normal :: thumbnail_path_spec P src Large
  :: match app with Some a => [fail_path P src a] | None => [] end.

(** ** What the store writes *)

(** The caller leaves the two mandatory keys to the store. *)
Definition lacks_mandatory (moreinfo : option (gmap string string)) : Prop :=
  default ∅ moreinfo !! KEY_URI = None /\ default ∅ moreinfo !! KEY_MTIME = None.

(** What [put_thumbnail] leaves at the destination for a file that held
    [c0]: the image a backend re-encodes, or the file itself when the
    toolkit could not decode it. *)
Definition published (b : backend) (d : gmap string string) (c0 : content) : content :=
  match c0 with
  | Picture img0 =>
      Picture match b with
              | PilBackend =>
                  {| i_width := i_width img0; i_height := i_height img0; i_text := d |}
              | _ => with_size_text (setattributes img0 d) (i_width img0) (i_height img0)
              end
  | _ => c0
  end.

(** The call is an [os.mkdir]. *)
Definition is_mkdir (e : event) : bool :=
  match e with EvMkdir _ _ => true | _ => false end.

(** [<prefix>/<dir>/<md5 of the URI>.png] in [thumbnail.py] *)
Definition legacy_path (P : platform) (name dir : string) : string :=
  Path.join (Path.join (LegacyStore._thumb_path_prefix P) dir)
            (MD5.hexdigest (LegacyStore._any2uri P name) ++ ".png").

(** * A machine to run the store on *)

(** A user with PIL installed and no cache directory configured. *)
Definition demo_platform : platform :=
  {| cwd := "/home/u"; HOME := "/home/u"; XDG_CACHE_HOME := None; umask := 18;
     qt_available := false; magick_available := false; pil_available := true;
     now := 2000; png_size := fun _ => 1024;
     scaled := fun _ box wh => (Z.min box (fst wh), Z.min box (snd wh)) |}.


Definition dir_node : node :=
  {| n_content := Directory; n_mode := 493; n_mtime := 0; n_size := 4096 |}.

Definition demo_picture : image :=
  {| i_width := 640; i_height := 480; i_text := ∅ |}.

(** A home directory with one photograph and no cache yet. *)
Definition demo_world : world :=
  {| w_fs := list_to_map
       [ ("/", dir_node); ("/home", dir_node); ("/home/u", dir_node); ("/tmp", dir_node);
         ("/tmp/a.jpg", {| n_content := Picture demo_picture; n_mode := 420;
                           n_mtime := 1000; n_size := 5000 |}) ];
     w_names := ["aaaaaaaa"; "bbbbbbbb"; "cccccccc"; "dddddddd"];
     w_log := [] |}.

(** The cache after a thumbnail of the photograph was generated. *)
Definition cached_world : world :=
  snd (get_thumbnail demo_platform "/tmp/a.jpg" None None demo_world).

(** The cache after [app-1.0] recorded a failure for the photograph, at
    the mtime of the file and at mtime 100. *)
Definition failed_world : world :=
  snd (put_fail demo_platform "/tmp/a.jpg" "app-1.0" None None demo_world).

Definition marked_world : world :=
  snd (put_fail demo_platform "/tmp/a.jpg" "app-1.0" (Some 100) None demo_world).


(** Metadata in which the caller names another source. *)
Definition forged : gmap string string :=
  {[ KEY_URI := "http://other.example/x" ]}.

(** The same machine with Qt installed as well: Qt is bound. *)
Definition qt_platform : platform :=
  {| cwd := "/home/u"; HOME := "/home/u"; XDG_CACHE_HOME := None; umask := 18;
     qt_available := true; magick_available := false; pil_available := true;
     now := 2000; png_size := fun _ => 1024;
     scaled := fun _ box wh => (Z.min box (fst wh), Z.min box (snd wh)) |}.

Definition preview_picture : image :=
  {| i_width := 256; i_height := 192; i_text := ∅ |}.

(** The home directory with a preview an application has rendered and
    a text file, before and after [makedirs()]. *)
Definition desk_world : world :=
  {| w_fs := list_to_map
       [ ("/", dir_node); ("/home", dir_node); ("/home/u", dir_node); ("/tmp", dir_node);
         ("/tmp/a.jpg", {| n_content := Picture demo_picture; n_mode := 420;
                           n_mtime := 1000; n_size := 5000 |});
         ("/tmp/preview.png", {| n_content := Picture preview_picture; n_mode := 420;
                                 n_mtime := 1500; n_size := 900 |});
         ("/tmp/notes.txt", {| n_content := Bytes; n_mode := 420;
                               n_mtime := 1200; n_size := 40 |}) ];
     w_names := ["aaaaaaaa"; "bbbbbbbb"; "cccccccc"; "dddddddd"];
     w_log := [] |}.

Definition stocked_world : world := snd (makedirs demo_platform desk_world).

(** The cache after a normal thumbnail of the photograph was generated. *)
Definition small_world : world :=
  snd (create_thumbnail demo_platform "/tmp/a.jpg" (SizeStr "normal") None None demo_world).

(** The photograph modified after its thumbnail was generated. *)
Definition touched_world : world :=
  set_fs (<["/tmp/a.jpg" := {| n_content := Picture demo_picture; n_mode := 420;
                               n_mtime := 1001; n_size := 5000 |}]> (w_fs cached_world))
         cached_world.

(** The cache after an application pushed its preview of a document. *)
Definition pdf_world : world :=
  snd (put_thumbnail demo_platform "http://x/y.pdf" (SizeStr "large") "/tmp/preview.png"
         (Some 0) None stocked_world).

(** The cache after the generation of a thumbnail of the text file was
    refused. *)
Definition refused_world : world :=
  snd (create_thumbnail demo_platform "/tmp/notes.txt" (SizeStr "large") None
         (Some "app-1.0") desk_world).

(** A file where the directory of large thumbnails should be. *)
Definition blocked_world : world :=
  set_fs (<["/home/u/.cache/thumbnails/large" :=
              {| n_content := Bytes; n_mode := 420; n_mtime := 1200; n_size := 40 |}]>
            (w_fs demo_world)) demo_world.

(** A thumbnail file that names another source. *)
Definition foreign_picture : image :=
  {| i_width := 256; i_height := 192;
     i_text := <[KEY_MTIME := "1000"]> {[ KEY_URI := "http://other.example/x" ]} |}.

Definition foreign_world : world :=
  {| w_fs := {[ "/home/u/.cache/thumbnails/large/fd3d4bbf23a83793d4c47b368af0416e.png" :=
                {| n_content := Picture foreign_picture;
                   n_mode := 384; n_mtime := 1500; n_size := 900 |} ]};
     w_names := []; w_log := [] |}.

(** * Properties *)

(** ** The library functions, on examples *)

Example join_ex1 : Path.join "/home/u/.cache" "thumbnails" = "/home/u/.cache/thumbnails".
Proof. reflexivity. Qed.
Example join_ex2 : Path.join "/a/" "b" = "/a/b" /\ Path.join "/a" "/b" = "/b".
Proof. split; reflexivity. Qed.
Example split_ex : Path.split "/a/b//c.png" = ("/a/b", "c.png") /\ Path.split "//x" = ("//", "x").
Proof. split; reflexivity. Qed.
Example normpath_ex :
  Path.normpath "/a//b/./c/../d/" = "/a/b/d" /\ Path.normpath "//a/.." = "//"
  /\ Path.normpath "a/../.." = ".." /\ Path.normpath "/.." = "/".
Proof. repeat split; reflexivity. Qed.
Example abspath_ex : Path.abspath "/home/u" "pics/../a b.jpg" = "/home/u/a b.jpg".
Proof. reflexivity. Qed.

Example quote_ex : Url.pathname2url "/tmp/a b#1.jpg" = "/tmp/a%20b%231.jpg".
Proof. reflexivity. Qed.

Example md5_empty : MD5.hexdigest "" = "d41d8cd98f00b204e9800998ecf8427e".
Proof. vm_compute. reflexivity. Qed.
Example md5_abc : MD5.hexdigest "abc" = "900150983cd24fb0d6963f7d28e17f72".
Proof. vm_compute. reflexivity. Qed.
Example md5_uri : MD5.hexdigest "file:///tmp/a.jpg" = "fd3d4bbf23a83793d4c47b368af0416e".
Proof. vm_compute. reflexivity. Qed.
Example md5_two_blocks :
  MD5.hexdigest "aaaaaaaaaaaaaaaaaaaaaaaaaaaaaaaaaaaaaaaaaaaaaaaaaaaaaaaa"
  = "3b0c8ac703f828b04c6c197006d17218".
Proof. vm_compute. reflexivity. Qed.

Example str_ex : Num.str 1000 = "1000" /\ Num.str 0 = "0" /\ Num.str (-12) = "-12".
Proof. repeat split; reflexivity. Qed.
Example int_float_ex :
  Num.int_float 100 = Ok 100 /\ Num.int_float (2 ^ 53 + 1) = Ok (2 ^ 53)
  /\ Num.int_float (2 ^ 53 + 3) = Ok (2 ^ 53 + 4) /\ Num.int_float (- 7) = Ok (- 7).
Proof. repeat split; vm_compute; reflexivity. Qed.
Example int_float_str_ex :
  Num.int_float_str "1000" = Ok 1000 /\ Num.int_float_str " 12.75 " = Ok 12
  /\ Num.int_float_str "-1_0.5e1" = Ok (- 105) /\ Num.int_float_str "" = Raise ValueError
  /\ Num.int_float_str "12e" = Raise ValueError /\ Num.int_float_str "NaN" = Raise ValueError
  /\ Num.int_float_str "1e400" = Raise OverflowError /\ Num.int_float_str ".5" = Ok 0
  /\ Num.int_float_str "0.99999999999999999" = Ok 1 /\ Num.int_float_str "1." = Ok 1
  /\ Num.int_float_str "." = Raise ValueError /\ Num.int_float_str "9007199254740993" = Ok (2 ^ 53).
Proof. repeat split; vm_compute; reflexivity. Qed.

Example any2uri_ex :
  _any2uri demo_platform "/tmp/a.jpg" = "file:///tmp/a.jpg"
  /\ _any2uri demo_platform "http://x/y.pdf" = "http://x/y.pdf"
  /\ _any2uri demo_platform "pics/a b.jpg" = "file:///home/u/pics/a%20b.jpg".
Proof. repeat split; reflexivity. Qed.

Example build_thumbnail_path_ex :
  build_thumbnail_path demo_platform "/tmp/a.jpg" (SizeStr "large")
  = Ok "/home/u/.cache/thumbnails/large/fd3d4bbf23a83793d4c47b368af0416e.png".
Proof. vm_compute. reflexivity. Qed.

(** ** Strings and paths *)

Lemma append_cons (c : ascii) (a b : string) : String c a ++ b = String c (a ++ b).
Proof. reflexivity. Qed.

Lemma append_assoc (a b c : string) : (a ++ b) ++ c = a ++ (b ++ c).
Proof.
  induction a as [|x a IH]; [reflexivity|].
  change (String x ((a ++ b) ++ c) = String x (a ++ b ++ c)). now rewrite IH.
Qed.

Lemma is_empty_app_r (a b : string) :
  Str.is_empty b = false -> Str.is_empty (a ++ b) = false.
Proof. destruct a; simpl; auto. Qed.

Lemma endswith_slash_app (a b : string) :
  Str.is_empty b = false -> Str.endswith_slash (a ++ b) = Str.endswith_slash b.
Proof.
  intros Hb. induction a as [|x a IH]; simpl; [reflexivity|].
  rewrite IH. destruct (a ++ b) eqn:E; [|reflexivity].
  apply (is_empty_app_r a) in Hb. rewrite E in Hb. discriminate.
Qed.

Lemma startswith_cons (c : ascii) (s : string) :
  Str.startswith (String c s) "/" = Ascii.eqb c "/".
Proof.
  unfold Str.startswith.
  change (String.prefix "/" (String c s))
    with (if ascii_dec "/" c then String.prefix "" s else false).
  destruct (ascii_dec "/" c) as [<-|Hne].
  - destruct s; reflexivity.
  - symmetry. apply Ascii.eqb_neq. congruence.
Qed.

(** [join] of a directory name that does not end in a slash and a
    relative name puts one slash between them. *)
Lemma join_plain (a b : string) :
  Str.is_empty a = false -> Str.endswith_slash a = false ->
  Str.startswith b "/" = false ->
  Path.join a b = a ++ "/" ++ b.
Proof. intros Ha He Hb. unfold Path.join. rewrite Hb, Ha, He. reflexivity. Qed.

Lemma hexdigit_not_slash (n : Z) : Ascii.eqb (MD5.hexdigit n) "/" = false.
Proof.
  destruct n as [|p|p]; try reflexivity.
  do 4 (destruct p as [p|p|]; try reflexivity).
Qed.

(** A digest starts with a hexadecimal digit. *)
Lemma hexdigest_relative (s suffix : string) :
  Str.startswith (MD5.hexdigest s ++ suffix) "/" = false.
Proof.
  unfold MD5.hexdigest. destruct (MD5.digest_state _) as [[[a b] c] d].
  unfold MD5.hex_word at 1, MD5.le_bytes.
  cbn [map seq fold_right].
  rewrite append_cons, startswith_cons. apply hexdigit_not_slash.
Qed.

Lemma thumb_path_prefix_shape (P : platform) :
  Str.is_empty (_thumb_path_prefix P) = false
  /\ Str.endswith_slash (_thumb_path_prefix P) = false.
Proof.
  unfold _thumb_path_prefix, Path.join.
  set (x := Path.normpath _). simpl Str.startswith.
  assert (forall y, Str.is_empty (y ++ "thumbnails") = false
                    /\ Str.endswith_slash (y ++ "thumbnails") = false) as H.
  { intros y. split; [now apply is_empty_app_r | now rewrite endswith_slash_app]. }
  destruct (Str.is_empty x || Str.endswith_slash x); [apply H|].
  replace (x ++ "/" ++ "thumbnails") with ((x ++ "/") ++ "thumbnails")
    by apply append_assoc.
  apply H.
Qed.

(** [<cache_root>/<dir>] *)
Lemma join_prefix_dir (P : platform) (dir : string) :
  Str.startswith dir "/" = false ->
  Path.join (_thumb_path_prefix P) dir = _thumb_path_prefix P ++ "/" ++ dir.
Proof.
  intros Hd. destruct (thumb_path_prefix_shape P) as [H1 H2].
  now apply join_plain.
Qed.

(** ** Size arguments *)

Lemma any2size_alias (size : size_arg) :
  is_normal_alias size = true -> _any2size size = Ok (SizePair 128 "normal").
Proof. intros H. unfold _any2size. now rewrite H. Qed.

Lemma any2size_large_alias (size : size_arg) :
  is_large_alias size = true -> _any2size size = Ok (SizePair 256 "large").
Proof.
  intros H. unfold _any2size. rewrite H.
  destruct size as [n|s]; simpl in *.
  - destruct (Z.eqb_spec n 256); [subst; reflexivity | discriminate].
  - destruct (String.eqb_spec s "large"); [subst; reflexivity|].
    destruct (String.eqb_spec s "256"); [subst; reflexivity | discriminate].
Qed.

(** Outside the two boxes the parser raises [ValueError]. *)
Lemma any2size_out_of_range (n : Z) :
  n <= 0 \/ 256 < n -> _any2size (SizeInt n) = Raise ValueError.
Proof.
  intros H. unfold _any2size, is_normal_alias, is_large_alias.
  destruct (Z.eqb_spec n 128); [lia|]. destruct (Z.eqb_spec n 256); [lia|].
  destruct (Z.ltb_spec 0 n), (Z.leb_spec n 128), (Z.ltb_spec 128 n), (Z.leb_spec n 256);
    simpl; try reflexivity; lia.
Qed.

(** The predecessor returned the pair for a number inside the small box. *)
Lemma legacy_any2size_numeric (n : Z) :
  0 < n <= 128 -> Legacy._any2size (SizeInt n) = Some (128, "normal").
Proof.
  intros H. unfold Legacy._any2size, is_large_alias, is_normal_alias.
  destruct (Z.eqb_spec n 256); [lia|].
  destruct (Z.eqb_spec n 128); [reflexivity|].
  destruct (Z.ltb_spec 0 n), (Z.leb_spec n 128); simpl; try reflexivity; lia.
Qed.

Lemma any2size_numeric (n : Z) :
  0 < n <= 256 -> n <> 128 -> n <> 256 ->
  _any2size (SizeInt n) = Ok (SizeBare (if n <=? 128 then 128 else 256)).
Proof.
  intros H H1 H2. unfold _any2size, is_normal_alias, is_large_alias.
  destruct (Z.eqb_spec n 128); [lia|]. destruct (Z.eqb_spec n 256); [lia|].
  destruct (Z.ltb_spec 0 n), (Z.leb_spec n 128), (Z.ltb_spec 128 n), (Z.leb_spec n 256);
    simpl; try reflexivity; lia.
Qed.

(** C4. A number inside one of the two boxes that is not 128 or 256
    makes [_any2size] return a bare [int] where its callers subscript a
    pair: [build_thumbnail_path], [create_thumbnail], [create_temp],
    [put_thumbnail] and [try_get_thumbnail] all raise [TypeError] on it,
    whatever the source and the state of the cache. *)
Theorem numeric_size_raises_TypeError (P : platform) (src thumb : string) (n : Z)
        (mtime : option Z) (moreinfo : option (gmap string string))
        (app : option string) (w : world) :
  0 < n <= 256 -> n <> 128 -> n <> 256 ->
  _any2size (SizeInt n) = Ok (SizeBare (if n <=? 128 then 128 else 256))
  /\ build_thumbnail_path P src (SizeInt n) = Raise TypeError
  /\ create_thumbnail P src (SizeInt n) moreinfo app w = (Raise TypeError, w)
  /\ create_temp P (SizeInt n) w = (Raise TypeError, w)
  /\ put_thumbnail P src (SizeInt n) thumb mtime moreinfo w = (Raise TypeError, w)
  /\ try_get_thumbnail P src (Some (SizeInt n)) (Some 0) w = (Raise TypeError, w).
Proof.
  intros H H1 H2. pose proof (any2size_numeric n H H1 H2) as E.
  assert (build_thumbnail_path P src (SizeInt n) = Raise TypeError) as B.
  { unfold build_thumbnail_path. rewrite E. reflexivity. }
  repeat split; try assumption.
  - unfold create_thumbnail, bind, lift. rewrite E. reflexivity.
  - unfold create_temp, bind, lift. rewrite E. reflexivity.
  - unfold put_thumbnail, bind, lift. rewrite B. reflexivity.
  - unfold try_get_thumbnail, bind, _any2mtime, lift. cbn [try_sizes].
    unfold bind, lift. rewrite B. reflexivity.
Qed.

Lemma numeric_size_raises_TypeError_witness :
  build_thumbnail_path demo_platform "/tmp/a.jpg" (SizeInt 100) = Raise TypeError.
Proof.
  apply (numeric_size_raises_TypeError demo_platform "/tmp/a.jpg" "" 100 None None None
           {| w_fs := ∅; w_names := []; w_log := [] |}); lia.
Defined.

(** ** Canonical URIs *)





(** ** Thumbnail paths *)

Lemma any2size_class (c : size_class) (s : size_arg) :
  In s (class_aliases c) ->
  rbind (_any2size s) subscript1 = Ok (class_dir c)
  /\ rbind (_any2size s) subscript0 = Ok (match c with Normal => 128 | Large => 256 end).
Proof.
  destruct c; cbn [class_aliases In];
    intros [<-|[<-|[<-|[]]]]; split; reflexivity.
Qed.

Lemma size_dir_path_shape (P : platform) (c : size_class) :
  Path.join (_thumb_path_prefix P) (class_dir c) = size_dir_path P c
  /\ Str.is_empty (size_dir_path P c) = false
  /\ Str.endswith_slash (size_dir_path P c) = false.
Proof.
  unfold size_dir_path. split; [|split].
  - apply join_prefix_dir. destruct c; reflexivity.
  - apply is_empty_app_r. destruct c; reflexivity.
  - rewrite endswith_slash_app; destruct c; reflexivity.
Qed.

Lemma build_thumbnail_path_class (P : platform) (ref : string) (c : size_class)
      (s : size_arg) :
  In s (class_aliases c) ->
  build_thumbnail_path P ref s = Ok (thumbnail_path_spec P ref c).
Proof.
  intros Hs. destruct (any2size_class c s Hs) as [E _].
  destruct (size_dir_path_shape P c) as (J & Hne & Hsl).
  unfold build_thumbnail_path, thumbnail_path_spec. rewrite E. cbn [rbind].
  rewrite J. destruct (Str.startswith ref _); [reflexivity|].
  unfold hash_name. rewrite join_plain; auto using hexdigest_relative.
Qed.

(** C7, as amended. For a size argument [s] naming the class [c],
    [build_thumbnail_path ref s] is
    [<cache_root>/<size_dir>/<md5 of the canonical URI>.png], except that
    a reference lying under [<cache_root>/<size_dir>/] is returned
    unchanged. Two references with the same canonical URI have the same
    identifier, and the same path when neither of them lies under
    [<cache_root>/<size_dir>/]. *)
Theorem build_thumbnail_path_spec (P : platform) (ref ref' : string) (c : size_class)
        (s : size_arg) :
  In s (class_aliases c) ->
  _any2uri P ref = _any2uri P ref' ->
  build_thumbnail_path P ref s = Ok (thumbnail_path_spec P ref c)
  /\ hash_name P ref = hash_name P ref'
  /\ (Str.startswith ref (size_dir_path P c ++ "/") = false ->
      Str.startswith ref' (size_dir_path P c ++ "/") = false ->
      build_thumbnail_path P ref s = build_thumbnail_path P ref' s).
Proof.
  intros Hs Hu. split; [now apply build_thumbnail_path_class|]. split.
  - unfold hash_name. now rewrite Hu.
  - intros H1 H2. rewrite !(build_thumbnail_path_class P _ c s Hs).
    unfold thumbnail_path_spec. now rewrite H1, H2, Hu.
Qed.

Lemma build_thumbnail_path_spec_witness :
  build_thumbnail_path demo_platform "/tmp/a.jpg" (SizeInt 256)
  = Ok "/home/u/.cache/thumbnails/large/fd3d4bbf23a83793d4c47b368af0416e.png"
  /\ build_thumbnail_path demo_platform "/tmp/a.jpg" (SizeInt 256)
     = build_thumbnail_path demo_platform "file:///tmp/a.jpg" (SizeInt 256).
Proof.
  destruct (build_thumbnail_path_spec demo_platform "/tmp/a.jpg" "file:///tmp/a.jpg"
              Large (SizeInt 256)) as (H1 & _ & H3).
  - cbn. auto.
  - reflexivity.
  - split.
    + rewrite H1. vm_compute. reflexivity.
    + apply H3; vm_compute; reflexivity.
Defined.

(** C7, the claim as stated fails: a path inside the cache and the
    [file://] URI of that path have the same canonical URI, and
    [build_thumbnail_path] returns the first unchanged but hashes the
    second. *)
Lemma same_uri_different_path :
  _any2uri demo_platform "/home/u/.cache/thumbnails/large/a.png"
  = _any2uri demo_platform "file:///home/u/.cache/thumbnails/large/a.png"
  /\ build_thumbnail_path demo_platform "/home/u/.cache/thumbnails/large/a.png"
       (SizeStr "large")
     <> build_thumbnail_path demo_platform "file:///home/u/.cache/thumbnails/large/a.png"
          (SizeStr "large").
Proof. split; [reflexivity | vm_compute; discriminate]. Qed.

(** ** Reasoning about computations *)

Lemma bind_inv {A B} (m : M A) (f : A -> M B) (w w' : world) (r : result B) :
  bind m f w = (r, w') ->
  (exists a w1, m w = (Ok a, w1) /\ f a w1 = (r, w'))
  \/ (exists e, m w = (Raise e, w') /\ r = Raise e).
Proof.
  unfold bind. destruct (m w) as [[a|e] w1]; intros H.
  - left. now exists a, w1.
  - right. injection H as <- <-. now exists e.
Qed.

Lemma bind_ok_inv {A B} (m : M A) (f : A -> M B) (w w' : world) (b : B) :
  bind m f w = (Ok b, w') ->
  exists a w1, m w = (Ok a, w1) /\ f a w1 = (Ok b, w').
Proof.
  intros H. destruct (bind_inv _ _ _ _ _ H) as [?|(e & _ & ?)]; [assumption | discriminate].
Qed.

Lemma bind_eq {A B} (m : M A) (f : A -> M B) (w w1 : world) (a : A) :
  m w = (Ok a, w1) -> bind m f w = f a w1.
Proof. intros H. unfold bind. now rewrite H. Qed.

Lemma bind_raise {A B} (m : M A) (f : A -> M B) (w w1 : world) (e : exn) :
  m w = (Raise e, w1) -> bind m f w = (Raise e, w1).
Proof. intros H. unfold bind. now rewrite H. Qed.

Lemma readonly_eq {A} (m : M A) (w : world) : readonly m -> m w = (fst (m w), w).
Proof. intros H. rewrite <- (H w) at 3. now destruct (m w). Qed.

Lemma readonly_ret {A} (a : A) : readonly (ret a).
Proof. now intros w. Qed.

Lemma readonly_raise {A} (e : exn) : readonly (@raise A e).
Proof. now intros w. Qed.

Lemma readonly_lift {A} (r : result A) : readonly (lift r).
Proof. now intros w. Qed.

Lemma readonly_bind {A B} (m : M A) (f : A -> M B) :
  readonly m -> (forall a, readonly (f a)) -> readonly (bind m f).
Proof.
  intros Hm Hf w. unfold bind. pose proof (Hm w) as E.
  destruct (m w) as [[a|e] w1]; cbn in E; subst; [apply Hf | reflexivity].
Qed.

Lemma readonly_exists (p : string) : readonly (Os.exists_ p).
Proof. now intros w. Qed.
Lemma readonly_isdir (p : string) : readonly (Os.isdir p).
Proof. now intros w. Qed.
Lemma readonly_getmtime (p : string) : readonly (Os.getmtime p).
Proof. now intros w. Qed.
Lemma readonly_getsize (p : string) : readonly (Os.getsize p).
Proof. now intros w. Qed.
Lemma readonly_read_image (p : string) : readonly (Os.read_image p).
Proof. now intros w. Qed.

Create HintDb readonly.
#[local] Hint Resolve readonly_ret readonly_raise readonly_lift readonly_exists
  readonly_isdir readonly_getmtime readonly_getsize readonly_read_image : readonly.

Ltac readonly_step :=
  match goal with
  | |- readonly (bind _ _) => apply readonly_bind; [|intros ?]
  | |- readonly (match ?x with _ => _ end) => destruct x
  | |- readonly (if ?x then _ else _) => destruct x
  | |- readonly _ => solve [auto with readonly]
  end.

Lemma readonly_any2mtime (origname : option string) (mtime : option Z) :
  readonly (_any2mtime origname mtime).
Proof. unfold _any2mtime. repeat readonly_step. Qed.

Lemma readonly_the_backend (P : platform) : readonly (the_backend P).
Proof. unfold the_backend. repeat readonly_step. Qed.

Lemma readonly_backend_get_info (b : backend) (path : string) :
  readonly (backend_get_info b path).
Proof. unfold backend_get_info. repeat readonly_step. Qed.

#[local] Hint Resolve readonly_any2mtime readonly_the_backend
  readonly_backend_get_info : readonly.

Lemma readonly_thumbnail_info (P : platform) (thumbnail : string) :
  readonly (thumbnail_info P thumbnail).
Proof. unfold thumbnail_info. repeat readonly_step. Qed.

#[local] Hint Resolve readonly_thumbnail_info : readonly.

Lemma readonly_is_thumbnail_valid (P : platform) (thumbnail uri : string) (mtime : Z) :
  readonly (is_thumbnail_valid P thumbnail uri mtime).
Proof. unfold is_thumbnail_valid. repeat readonly_step. Qed.

#[local] Hint Resolve readonly_is_thumbnail_valid : readonly.

Lemma readonly_is_thumbnail_failed (P : platform) (src appname : string) (mtime : option Z) :
  readonly (is_thumbnail_failed P src appname mtime).
Proof. unfold is_thumbnail_failed. repeat readonly_step. Qed.

Lemma readonly_try_sizes (P : platform) (src uri : string) (mtime : Z)
      (sizes : list size_arg) :
  readonly (try_sizes P src uri mtime sizes).
Proof.
  induction sizes as [|s rest IH]; cbn [try_sizes]; repeat readonly_step; assumption.
Qed.

#[local] Hint Resolve readonly_is_thumbnail_failed readonly_try_sizes : readonly.

Lemma readonly_try_get_thumbnail (P : platform) (src : string) (size : option size_arg)
      (mtime : option Z) :
  readonly (try_get_thumbnail P src size mtime).
Proof. unfold try_get_thumbnail. repeat readonly_step. Qed.

(** ** Reading metadata *)







(** ** Without a backend *)




Section NoBackend.
Variable P : platform.
Hypothesis no_backend : get_backend P = None.












End NoBackend.

(** ** Whole seconds survive [int(float(m))] *)

Lemma round_half_even_1 (n : Z) : Num.round_half_even n 1 = n.
Proof.
  unfold Num.round_half_even. rewrite Z.div_1_r, Z.mod_1_r. reflexivity.
Qed.

Lemma trunc_double_small (n : Z) : 0 <= n < 2 ^ 53 -> Num.trunc_double n 1 = n.
Proof.
  intros Hn. unfold Num.trunc_double. rewrite Z.div_1_r.
  assert (Num.bit_length n - 53 <= 0) as He.
  { unfold Num.bit_length. destruct (Z.eqb_spec n 0); [lia|].
    assert (Z.log2 n < 53) by (apply Z.log2_lt_pow2; lia). lia. }
  destruct (Z.leb_spec 0 (Num.bit_length n - 53)).
  - replace (Num.bit_length n - 53) with 0 by lia.
    rewrite Z.mul_1_l. change (2 ^ 0) with 1.
    rewrite round_half_even_1. lia.
  - rewrite round_half_even_1. apply Z.div_mul.
    apply Z.pow_nonzero; lia.
Qed.

Lemma int_float_small (m : Z) : Z.abs m < 2 ^ 53 -> Num.int_float m = Ok m.
Proof.
  intros Hm. unfold Num.int_float. rewrite trunc_double_small by lia.
  unfold Num.finite.
  assert (2 ^ 53 < 2 ^ 1024) by (apply Z.pow_lt_mono_r; lia).
  destruct (Z.leb_spec (2 ^ 1024) (Z.abs m)); [lia|].
  destruct (Z.ltb_spec m 0); f_equal; lia.
Qed.




(** ** The state machine of [get_thumbnail] *)

Lemma any2mtime_current (src : string) (w : world) (n : node) :
  w_fs w !! src = Some n -> _any2mtime (Some src) None w = (Ok (n_mtime n), w).
Proof. intros H. unfold _any2mtime, Os.getmtime. now rewrite H. Qed.

(** C3. [get_thumbnail]: (a) a hit of [try_get_thumbnail] is returned
    and the world is left as it was; (b) on a miss, when an app name is
    given and [is_thumbnail_failed] holds for the current mtime of the
    source, [None] is returned and nothing is generated; (c) on a miss
    otherwise, the result is that of [create_thumbnail] for the size, or
    for the large size when none was given. *)
Theorem get_thumbnail_state_machine (P : platform) (src : string)
        (size : option size_arg) (app : option string) (w : world) :
  (forall t, fst (try_get_thumbnail P src size None w) = Ok (Some t) ->
             get_thumbnail P src size app w = (Ok (Some t), w))
  /\ (forall appname n,
        fst (try_get_thumbnail P src size None w) = Ok None ->
        app = Some appname -> w_fs w !! src = Some n ->
        fst (is_thumbnail_failed P src appname (Some (n_mtime n)) w) = Ok true ->
        get_thumbnail P src size app w = (Ok None, w))
  /\ (fst (try_get_thumbnail P src size None w) = Ok None ->
      (app = None
       \/ exists appname n,
            app = Some appname /\ w_fs w !! src = Some n
            /\ fst (is_thumbnail_failed P src appname (Some (n_mtime n)) w) = Ok false) ->
      get_thumbnail P src size app w
      = create_thumbnail P src (default_large size) None app w).
Proof.
  assert (forall o, fst (try_get_thumbnail P src size None w) = Ok o ->
                    try_get_thumbnail P src size None w = (Ok o, w)) as T.
  { intros o H. rewrite readonly_eq by apply readonly_try_get_thumbnail. now rewrite H. }
  assert (forall appname m v,
             fst (is_thumbnail_failed P src appname (Some m) w) = Ok v ->
             is_thumbnail_failed P src appname (Some m) w = (Ok v, w)) as F.
  { intros a m v H. rewrite readonly_eq by apply readonly_is_thumbnail_failed.
    now rewrite H. }
  unfold get_thumbnail. repeat apply conj.
  - intros t H. now rewrite (bind_eq _ _ _ _ _ (T _ H)).
  - intros appname n H -> Hn Hf. rewrite (bind_eq _ _ _ _ _ (T _ H)).
    rewrite (bind_eq _ _ w w true); [reflexivity|].
    rewrite (bind_eq _ _ _ _ _ (any2mtime_current src w n Hn)). now apply F.
  - intros H [->|(appname & n & -> & Hn & Hf)]; rewrite (bind_eq _ _ _ _ _ (T _ H)).
    + reflexivity.
    + rewrite (bind_eq _ _ w w false); [reflexivity|].
      rewrite (bind_eq _ _ _ _ _ (any2mtime_current src w n Hn)). now apply F.
Qed.

Lemma get_thumbnail_state_machine_witness :
  get_thumbnail demo_platform "/tmp/a.jpg" None None cached_world
  = (Ok (Some "/home/u/.cache/thumbnails/large/fd3d4bbf23a83793d4c47b368af0416e.png"),
     cached_world)
  /\ get_thumbnail demo_platform "/tmp/a.jpg" None (Some "app-1.0") failed_world
     = (Ok None, failed_world)
  /\ get_thumbnail demo_platform "/tmp/a.jpg" None None demo_world
     = create_thumbnail demo_platform "/tmp/a.jpg" (SizeStr "large") None None demo_world.
Proof.
  split; [|split].
  - apply (get_thumbnail_state_machine demo_platform "/tmp/a.jpg" None None cached_world).
    vm_compute. reflexivity.
  - apply (get_thumbnail_state_machine demo_platform "/tmp/a.jpg" None (Some "app-1.0")
             failed_world) with (appname := "app-1.0")
             (n := {| n_content := Picture demo_picture; n_mode := 420;
                      n_mtime := 1000; n_size := 5000 |});
      vm_compute; reflexivity.
  - apply (get_thumbnail_state_machine demo_platform "/tmp/a.jpg" None None demo_world).
    + vm_compute. reflexivity.
    + now left.
Defined.

(** ** Probing the cache *)

Section Probing.
Variable P : platform.




(** A candidate that has to be checked and that the backend cannot read
    ends the probe with the backend's exception: [KeyError] for a PIL
    thumbnail without [Thumb::MTime], [TypeError] for a file Qt cannot
    decode, [AttributeError] without a backend. *)
Lemma try_get_thumbnail_unreadable (src : string) (mtime : option Z) (m : Z) (w : world)
      (e : exn) :
  fst (_any2mtime (Some src) mtime w) = Ok m ->
  is_Some (w_fs w !! thumbnail_path_spec P src Large) ->
  src <> thumbnail_path_spec P src Large ->
  fst (is_thumbnail_valid P (thumbnail_path_spec P src Large) (_any2uri P src) m w)
  = Raise e ->
  try_get_thumbnail P src None mtime w = (Raise e, w).
Proof.
  intros Hm [n Hn] Hne He.
  assert (_any2mtime (Some src) mtime w = (Ok m, w)) as E.
  { rewrite readonly_eq by apply readonly_any2mtime. now rewrite Hm. }
  unfold try_get_thumbnail. rewrite (bind_eq _ _ _ _ _ E). cbn [try_sizes].
  unfold bind at 1, lift.
  rewrite (build_thumbnail_path_class P src Large) by (cbn; auto).
  unfold bind at 1, Os.exists_. rewrite Hn.
  destruct (String.eqb_spec src (thumbnail_path_spec P src Large)); [contradiction|].
  unfold bind.
  rewrite (readonly_eq (is_thumbnail_valid _ _ _ _) w) by apply readonly_is_thumbnail_valid.
  now rewrite He.
Qed.

End Probing.


(** ** What the writing operations leave on disk *)

Lemma save_content (P : platform) (p : string) (img : image) (w : world) :
  exists w', Os.save P p img w = (Ok tt, w')
             /\ content_at w' p = Some (Picture img).
Proof.
  eexists. split; [reflexivity|].
  unfold content_at. cbn. now rewrite lookup_insert_eq.
Qed.

Lemma rename_content (a b : string) (w w' : world) :
  Os.rename a b w = (Ok tt, w') ->
  is_Some (content_at w a) /\ content_at w' b = content_at w a.
Proof.
  unfold Os.rename, content_at. cbn.
  destruct (w_fs w !! a) as [n|] eqn:Ea; [|discriminate].
  destruct (String.eqb_spec a b) as [->|Hne].
  - intros [= <-]. cbn. rewrite Ea. split; [now eexists | reflexivity].
  - assert (forall w0, w0 = w' ->
              w_fs w0 = <[b := n]> (delete a (w_fs w)) ->
              is_Some (n_content <$> Some n)
              /\ n_content <$> w_fs w' !! b = n_content <$> Some n) as K.
    { intros w0 <- E. rewrite E, lookup_insert_eq. split; [now eexists | reflexivity]. }
    destruct (w_fs w !! b) as [nb|].
    + destruct (Bool.eqb _ _); [|discriminate]. intros [= <-]. now eapply K.
    + intros [= <-]. now eapply K.
Qed.

Lemma chmod_content (p : string) (mode : Z) (w w' : world) (q : string) :
  Os.chmod p mode w = (Ok tt, w') -> content_at w' q = content_at w q.
Proof.
  unfold Os.chmod, content_at. cbn.
  destruct (w_fs w !! p) as [n|] eqn:Ep; [|discriminate].
  intros [= <-]. cbn. destruct (decide (p = q)) as [<-|Hne].
  - now rewrite lookup_insert_eq, Ep.
  - now rewrite lookup_insert_ne.
Qed.

(** After [write_then_rename], the destination holds the image. *)
Lemma write_then_rename_content (P : platform) (dest : string) (img : image)
      (w w' : world) (r : string) :
  write_then_rename P dest img w = (Ok r, w') ->
  r = dest /\ content_at w' dest = Some (Picture img).
Proof.
  unfold write_then_rename. intros H.
  apply bind_ok_inv in H as (tmp & w1 & _ & H).
  apply bind_ok_inv in H as ([] & w2 & Hs & H).
  apply bind_ok_inv in H as ([] & w3 & Hr & H).
  injection H as <- <-.
  destruct (save_content P tmp img w1) as (w2' & Hs' & Hc).
  rewrite Hs in Hs'. injection Hs' as <-.
  apply rename_content in Hr as [_ Hr]. split; [reflexivity | congruence].
Qed.

Lemma read_image_content (p : string) (w : world) :
  Os.read_image p w
  = (Ok (match content_at w p with Some (Picture img) => Some img | _ => None end), w).
Proof.
  unfold Os.read_image, content_at. destruct (w_fs w !! p) as [n|]; reflexivity.
Qed.

(** ** The metadata dictionary *)

Lemma lookup_setdefault_eq (k v : string) (d : gmap string string) :
  setdefault k v d !! k = Some (default v (d !! k)).
Proof.
  unfold setdefault. destruct (d !! k) eqn:E; cbn; [assumption|].
  apply lookup_insert_eq.
Qed.

Lemma lookup_setdefault_ne (k k' v : string) (d : gmap string string) :
  k <> k' -> setdefault k v d !! k' = d !! k'.
Proof.
  intros H. unfold setdefault. destruct (d !! k); [reflexivity|].
  now apply lookup_insert_ne.
Qed.

Lemma KEY_MTIME_neq_URI : KEY_MTIME <> KEY_URI.
Proof. discriminate. Qed.

(** What [_info_dict] returns for a source: the caller's dictionary,
    with the mtime and the URI added where the caller left them out. *)
Lemma info_dict_ok (P : platform) (moreinfo : option (gmap string string))
      (mtime : option Z) (src : string) (w w' : world) (d : gmap string string) :
  _info_dict P moreinfo mtime (Some src) w = (Ok d, w') ->
  w' = w
  /\ exists m, _any2mtime (Some src) mtime w = (Ok m, w)
     /\ d = setdefault KEY_URI (_any2uri P src)
              (setdefault KEY_MTIME (Num.str m) (default ∅ moreinfo)).
Proof.
  unfold _info_dict. intros H.
  assert (bind (bind (_any2mtime (Some src) mtime)
                     (fun m => ret (setdefault KEY_MTIME (Num.str m) (default ∅ moreinfo))))
               (fun d => ret (setdefault KEY_URI (_any2uri P src) d)) w = (Ok d, w')) as H'.
  { destruct mtime; exact H. }
  clear H. apply bind_ok_inv in H' as (d1 & w1 & H1 & H2).
  apply bind_ok_inv in H1 as (m & w2 & Hm & H1).
  injection H1 as <- <-. injection H2 as <- <-.
  pose proof (readonly_any2mtime (Some src) mtime w) as R. rewrite Hm in R. cbn in R.
  subst w2. split; [reflexivity|]. now exists m.
Qed.

Lemma info_dict_keeps (P : platform) (moreinfo : gmap string string)
      (mtime : option Z) (src : string) (w w' : world) (d : gmap string string)
      (k v : string) :
  _info_dict P (Some moreinfo) mtime (Some src) w = (Ok d, w') ->
  moreinfo !! k = Some v -> d !! k = Some v.
Proof.
  intros H Hk. apply info_dict_ok in H as (_ & m & _ & ->).
  change (default ∅ (Some moreinfo)) with moreinfo.
  destruct (decide (KEY_URI = k)) as [<-|H1].
  - rewrite lookup_setdefault_eq, lookup_setdefault_ne by apply KEY_MTIME_neq_URI.
    now rewrite Hk.
  - rewrite lookup_setdefault_ne by assumption.
    destruct (decide (KEY_MTIME = k)) as [<-|H2].
    + rewrite lookup_setdefault_eq. now rewrite Hk.
    + now rewrite lookup_setdefault_ne.
Qed.

Lemma with_size_text_lookup (img : image) (w h : Z) (k : string) :
  k <> KEY_WIDTH -> k <> KEY_HEIGHT ->
  i_text (with_size_text img w h) !! k = i_text img !! k.
Proof.
  intros H1 H2. unfold with_size_text. cbn [i_text].
  now rewrite !lookup_insert_ne by congruence.
Qed.

Lemma setattributes_lookup (img : image) (d : gmap string string) (k v : string) :
  d !! k = Some v -> i_text (setattributes img d) !! k = Some v.
Proof. intros H. unfold setattributes. cbn [i_text]. now apply lookup_union_Some_l. Qed.

(** The text a backend attaches holds every key of the dictionary it
    was given, the two size keys apart. *)
Lemma update_metadata_content (P : platform) (b : backend) (tmp : string)
      (d : gmap string string) (w w' : world) (r : option string) (img : image)
      (k v : string) :
  backend_update_metadata P b tmp d w = (Ok r, w') ->
  content_at w' tmp = Some (Picture img) ->
  d !! k = Some v -> k <> KEY_WIDTH -> k <> KEY_HEIGHT ->
  i_text img !! k = Some v.
Proof.
  unfold backend_update_metadata. intros H Hc Hk H1 H2.
  rewrite (bind_eq _ _ _ _ _ (read_image_content tmp w)) in H.
  destruct (content_at w tmp) as [[|img0|]|] eqn:E0.
  1,3,4: destruct b; try discriminate; injection H as <- <-; rewrite E0 in Hc; discriminate.
  assert (forall out, (d0 <- write_then_rename P tmp out;; ret (Some d0)) w = (Ok r, w') ->
                      img = out) as K.
  { intros out Ho. apply bind_ok_inv in Ho as (d0 & w1 & Hw & Hr).
    injection Hr as _ <-.
    apply write_then_rename_content in Hw as [_ Hw].
    rewrite Hw in Hc. now injection Hc. }
  destruct b; apply K in H; subst img.
  - rewrite with_size_text_lookup by assumption. now apply setattributes_lookup.
  - rewrite with_size_text_lookup by assumption. now apply setattributes_lookup.
  - exact Hk.
Qed.

Lemma create_thumbnail_content (P : platform) (b : backend) (src dest : string)
      (size : Z) (d : gmap string string) (w w' : world) (r : string)
      (k v : string) :
  backend_create_thumbnail P b src dest size d w = (Ok (Some r), w') ->
  d !! k = Some v -> k <> KEY_WIDTH -> k <> KEY_HEIGHT ->
  exists img, content_at w' dest = Some (Picture img) /\ i_text img !! k = Some v.
Proof.
  unfold backend_create_thumbnail. intros H Hk H1 H2.
  rewrite (bind_eq _ _ _ _ _ (read_image_content src w)) in H.
  destruct (match content_at w src with Some (Picture img) => Some img | _ => None end)
    as [img0|]; [|discriminate].
  apply bind_ok_inv in H as (d0 & w1 & Hw & Hr). injection Hr as _ <-.
  apply write_then_rename_content in Hw as [_ Hw].
  eexists. split; [exact Hw|].
  destruct b.
  - now apply setattributes_lookup.
  - now apply setattributes_lookup.
  - rewrite with_size_text_lookup by assumption. exact Hk.
Qed.

(** ** Fail markers *)

Lemma the_backend_ok (P : platform) (w w' : world) (b : backend) :
  the_backend P w = (Ok b, w') -> get_backend P = Some b /\ w' = w.
Proof.
  unfold the_backend. destruct (get_backend P); [|discriminate].
  intros [= <- <-]. now split.
Qed.

Lemma the_backend_some (P : platform) (w : world) (b : backend) :
  get_backend P = Some b -> the_backend P w = (Ok b, w).
Proof. intros H. unfold the_backend. now rewrite H. Qed.


(** What a backend reads back from an image that carries both keys. *)
Lemma get_info_written (b : backend) (p : string) (w : world) (img : image)
      (t u : string) (m : Z) :
  content_at w p = Some (Picture img) ->
  i_text img !! KEY_MTIME = Some t -> i_text img !! KEY_URI = Some u ->
  Str.is_empty t = false -> Num.int_float_str t = Ok m ->
  backend_get_info b p w = (Ok (Some {| info_mtime := m; info_uri := u |}), w).
Proof.
  intros Hc Ht Hu He Hp. unfold backend_get_info.
  rewrite (bind_eq _ _ _ _ _ (read_image_content p w)), Hc.
  destruct b; rewrite Ht, ?Hu; cbn [default from_option id]; rewrite ?He;
    unfold bind, lift; rewrite Hp; try rewrite Hu; reflexivity.
Qed.

Section FailMarkers.
Variable P : platform.

Lemma is_thumbnail_failed_unfold (src appname : string) (m : Z) (w : world) :
  Z.abs m < 2 ^ 53 ->
  is_thumbnail_failed P src appname (Some m) w
  = match w_fs w !! fail_path P src appname with
    | Some _ => is_thumbnail_valid P (fail_path P src appname) (_any2uri P src) m w
    | None => (Ok false, w)
    end.
Proof.
  intros Hm. unfold is_thumbnail_failed, _any2mtime, lift, Os.exists_.
  unfold bind at 1. rewrite (int_float_small m Hm). unfold bind at 1.
  destruct (w_fs w !! fail_path P src appname); reflexivity.
Qed.



End FailMarkers.


(** ** Caller-supplied identity and freshness keys *)

Lemma mandatory_key_not_size (k : string) :
  k = KEY_URI \/ k = KEY_MTIME -> k <> KEY_WIDTH /\ k <> KEY_HEIGHT /\ k <> KEY_SIZE.
Proof. intros [->| ->]; repeat split; discriminate. Qed.

Section CallerKeys.
Variable P : platform.
Variables (d : gmap string string) (k v : string).
Hypothesis mandatory : k = KEY_URI \/ k = KEY_MTIME.
Hypothesis supplied : d !! k = Some v.

Lemma put_fail_keeps (src appname : string) (mtime : option Z) (w w' : world)
      (p : string) :
  put_fail P src appname mtime (Some d) w = (Ok p, w') ->
  exists img, content_at w' p = Some (Picture img) /\ i_text img !! k = Some v.
Proof.
  unfold put_fail. intros H.
  apply bind_ok_inv in H as (isd & w1 & _ & H).
  apply bind_ok_inv in H as ([] & w2 & _ & H).
  apply bind_ok_inv in H as (info & w3 & Hd & H).
  apply bind_ok_inv in H as (b & w4 & _ & H).
  apply write_then_rename_content in H as [-> Hc].
  eexists. split; [exact Hc|]. cbn [i_text].
  eapply info_dict_keeps; [exact Hd | exact supplied].
Qed.

Lemma create_thumbnail_keeps (src : string) (size : size_arg) (app : option string)
      (w w' : world) (p : string) :
  create_thumbnail P src size (Some d) app w = (Ok (Some p), w') ->
  exists img, content_at w' p = Some (Picture img) /\ i_text img !! k = Some v.
Proof.
  destruct (mandatory_key_not_size k mandatory) as (N1 & N2 & N3).
  unfold create_thumbnail. intros H.
  apply bind_ok_inv in H as (px & w1 & _ & H).
  apply bind_ok_inv in H as (filesize & w2 & _ & H).
  apply bind_ok_inv in H as (dest & w3 & _ & H).
  apply bind_ok_inv in H as (info & w4 & Hd & H).
  apply bind_ok_inv in H as (isd & w5 & _ & H).
  apply bind_ok_inv in H as ([] & w6 & _ & H).
  apply bind_ok_inv in H as (b & w7 & _ & H).
  apply bind_ok_inv in H as (r & w8 & Hb & H).
  destruct r as [r|]; cbn [truthy] in H.
  - destruct (negb (Str.is_empty r)).
    + injection H as <- <-.
      eapply create_thumbnail_content; [exact Hb | | assumption | assumption].
      rewrite lookup_insert_ne by congruence.
      eapply info_dict_keeps; [exact Hd | exact supplied].
    + destruct app; [|discriminate].
      apply bind_ok_inv in H as (? & ? & _ & H). discriminate.
  - destruct app; [|discriminate].
    apply bind_ok_inv in H as (? & ? & _ & H). discriminate.
Qed.

Lemma put_thumbnail_keeps (src : string) (size : size_arg) (thumb : string)
      (mtime : option Z) (w w' : world) (p : string) (img : image) :
  put_thumbnail P src size thumb mtime (Some d) w = (Ok p, w') ->
  content_at w' p = Some (Picture img) -> i_text img !! k = Some v.
Proof.
  destruct (mandatory_key_not_size k mandatory) as (N1 & N2 & _).
  unfold put_thumbnail. intros H Hc.
  apply bind_ok_inv in H as (dest & w1 & _ & H).
  apply bind_ok_inv in H as (tmp & w2 & _ & H).
  apply bind_ok_inv in H as (info & w3 & Hd & H).
  apply bind_ok_inv in H as (b & w4 & _ & H).
  apply bind_ok_inv in H as (r & w5 & Hu & H).
  apply bind_ok_inv in H as ([] & w6 & Hch & H).
  apply bind_ok_inv in H as ([] & w7 & Hr & H).
  injection H as <- <-.
  apply rename_content in Hr as [_ Hr].
  rewrite Hr, (chmod_content _ _ _ _ tmp Hch) in Hc.
  eapply update_metadata_content; [exact Hu | exact Hc | | assumption | assumption].
  eapply info_dict_keeps; [exact Hd | exact supplied].
Qed.

End CallerKeys.

(** C10. When the caller's [moreinfo] already holds [Thumb::URI] or
    [Thumb::MTime], [_info_dict] keeps the caller's value, and so does
    what is stored: the marker of [put_fail], the thumbnail of
    [create_thumbnail], and the image [put_thumbnail] leaves at the
    destination carry the caller's value under that key, not the
    canonical URI or the mtime of the source. *)
Theorem caller_metadata_kept (P : platform) (d : gmap string string) (k v : string)
        (src appname thumb : string) (size : size_arg) (mtime : option Z)
        (app : option string) :
  k = KEY_URI \/ k = KEY_MTIME ->
  d !! k = Some v ->
  (forall w w' info,
      _info_dict P (Some d) mtime (Some src) w = (Ok info, w') -> info !! k = Some v)
  /\ (forall w w' p,
        put_fail P src appname mtime (Some d) w = (Ok p, w') ->
        exists img, content_at w' p = Some (Picture img) /\ i_text img !! k = Some v)
  /\ (forall w w' p,
        create_thumbnail P src size (Some d) app w = (Ok (Some p), w') ->
        exists img, content_at w' p = Some (Picture img) /\ i_text img !! k = Some v)
  /\ (forall w w' p img,
        put_thumbnail P src size thumb mtime (Some d) w = (Ok p, w') ->
        content_at w' p = Some (Picture img) -> i_text img !! k = Some v).
Proof.
  intros Hk Hd. repeat apply conj.
  - intros w w' info H. eapply info_dict_keeps; eassumption.
  - intros w w' p. now apply put_fail_keeps.
  - intros w w' p. now apply create_thumbnail_keeps.
  - intros w w' p img. now apply put_thumbnail_keeps.
Qed.

Lemma caller_metadata_kept_witness :
  exists img,
    content_at (snd (put_fail demo_platform "/tmp/a.jpg" "app-1.0" (Some 100) (Some forged)
                       demo_world))
      "/home/u/.cache/thumbnails/fail/app-1.0/fd3d4bbf23a83793d4c47b368af0416e.png"
    = Some (Picture img)
    /\ i_text img !! KEY_URI = Some "http://other.example/x".
Proof.
  destruct (caller_metadata_kept demo_platform forged KEY_URI "http://other.example/x"
              "/tmp/a.jpg" "app-1.0" "" (SizeStr "large") (Some 100) None)
    as (_ & H & _); [now left | reflexivity |].
  apply (H demo_world). vm_compute. reflexivity.
Defined.

(** ** The log of file-system calls *)








Lemma mkdir_log (P : platform) (p : string) (mode : Z) (w : world) :
  w_log (snd (Os.mkdir P p mode w)) = (w_log w ++ [EvMkdir p mode])%list.
Proof.
  unfold Os.mkdir. cbn. destruct (w_fs w !! p); [reflexivity|].
  destruct (Os.parent_is_dir _ _); reflexivity.
Qed.


Lemma mkstemp_loop_fresh (fs : gmap string node) (dir : string) (names rest : list string)
      (file : string) :
  Os.mkstemp_loop fs dir names = Some (file, rest) ->
  fs !! file = None
  /\ exists name, In name names /\ file = Path.join dir ("tmp" ++ name ++ ".png").
Proof.
  induction names as [|name names IH]; cbn [Os.mkstemp_loop]; [discriminate|].
  destruct (fs !! Path.join dir ("tmp" ++ name ++ ".png")) eqn:E.
  - intros H. destruct (IH H) as (? & name' & ? & ?). split; [assumption|].
    exists name'. split; [now right | assumption].
  - intros [= <- <-]. split; [assumption|]. exists name. split; [now left | reflexivity].
Qed.

(** [mkstemp] names a file that did not exist, inside the directory. *)
Lemma mkstemp_ok (P : platform) (dir : string) (w w' : world) (p : string) :
  Os.mkstemp P dir w = (Ok p, w') ->
  w_fs w !! p = None
  /\ (exists name, p = Path.join dir ("tmp" ++ name ++ ".png"))
  /\ is_Some (w_fs w' !! p)
  /\ w_log w' = (w_log w ++ [EvMkstemp dir p])%list.
Proof.
  unfold Os.mkstemp. destruct (w_fs w !! dir) as [n|]; [|discriminate].
  destruct (is_dir n); [|discriminate].
  destruct (Os.mkstemp_loop _ _ _) as [[file rest]|] eqn:E; [|discriminate].
  intros [= <- <-]. apply mkstemp_loop_fresh in E as (Hf & name & _ & ->).
  cbn. rewrite lookup_insert_eq. repeat split; eauto.
Qed.











Lemma readonly_info_dict (P : platform) (d : option (gmap string string))
      (mtime : option Z) (src : option string) :
  readonly (_info_dict P d mtime src).
Proof. unfold _info_dict. repeat readonly_step. Qed.

#[local] Hint Resolve readonly_info_dict : readonly.















(** ** Printing and parsing a number *)

(** ** [int(float(str(n)))] *)

Lemma digits_loop_acc (d : Decimal.uint) (acc : positive) (cnt : Z) :
  exists k, Num.digits_loop (Z.pos acc) cnt
              (list_ascii_of_string (NilEmpty.string_of_uint d))
            = (Z.pos (Pos.of_uint_acc d acc), k, []).
Proof.
  revert acc cnt. induction d; intros acc cnt;
    cbn [NilEmpty.string_of_uint list_ascii_of_string Num.digits_loop Pos.of_uint_acc];
    try (now eexists);
    match goal with
    | |- context [Num.digit_val ?c] =>
        let v := eval vm_compute in (Num.digit_val c) in
        change (Num.digit_val c) with v
    end; cbv iota beta;
    match goal with
    | |- context [Num.digits_loop ?a ?c ?l] =>
        match goal with
        | |- context [Pos.of_uint_acc d ?acc'] =>
            replace a with (Z.pos acc') by lia
        end
    end; apply IHd.
Qed.

Lemma digits_loop_zero (d : Decimal.uint) (cnt : Z) :
  exists k, Num.digits_loop 0 cnt (list_ascii_of_string (NilEmpty.string_of_uint d))
            = (Z.of_N (Pos.of_uint d), k, []).
Proof.
  revert cnt. induction d; intros cnt;
    cbn [NilEmpty.string_of_uint list_ascii_of_string Num.digits_loop Pos.of_uint];
    try (now eexists);
    match goal with
    | |- context [Num.digit_val ?c] =>
        let v := eval vm_compute in (Num.digit_val c) in
        change (Num.digit_val c) with v
    end; cbv iota beta;
    [ apply IHd | .. ];
    match goal with
    | |- context [Num.digits_loop (10 * 0 + ?v) ?c ?l] =>
        change (10 * 0 + v) with v
    end; cbn [Z.of_N]; apply digits_loop_acc.
Qed.

Lemma digitpart_uint (d : Decimal.uint) :
  d <> Decimal.Nil ->
  exists k, Num.digitpart 0 (list_ascii_of_string (NilEmpty.string_of_uint d))
            = Some (Z.of_N (Pos.of_uint d), k, []).
Proof.
  intros Hd. unfold Num.digitpart.
  destruct d; [contradiction | ..];
    cbn [NilEmpty.string_of_uint list_ascii_of_string Pos.of_uint];
    match goal with
    | |- context [Num.digit_val ?c] =>
        let v := eval vm_compute in (Num.digit_val c) in
        change (Num.digit_val c) with v
    end; cbv iota beta;
    match goal with
    | |- context [Num.digits_loop (10 * 0 + ?v) ?c ?l] =>
        change (10 * 0 + v) with v
    end.
  1: { destruct (digits_loop_zero d 1) as [k ->]. now exists k. }
  all: cbn [Z.of_N];
    match goal with
    | |- context [Num.digits_loop (Z.pos ?a) ?c ?l] =>
        destruct (digits_loop_acc d a c) as [k ->]
    end; now exists k.
Qed.

Lemma lstrip_nonspace (l : list ascii) :
  match l with c :: _ => Num.is_space c = false | [] => True end -> Num.lstrip l = l.
Proof. destruct l as [|c l]; cbn; [reflexivity | now intros ->]. Qed.

Lemma strip_nonspace (l : list ascii) :
  Forall (fun c => Num.is_space c = false) l -> Num.strip l = l.
Proof.
  intros H. unfold Num.strip.
  rewrite (lstrip_nonspace l) by (destruct H; auto).
  rewrite lstrip_nonspace; [apply rev_involutive|].
  apply Forall_rev in H. destruct H; auto.
Qed.

Lemma uint_chars_digits (d : Decimal.uint) :
  Forall (fun c => Num.is_space c = false /\ exists v, Num.digit_val c = Some v)
         (list_ascii_of_string (NilEmpty.string_of_uint d)).
Proof.
  induction d; cbn [NilEmpty.string_of_uint list_ascii_of_string]; constructor;
    try assumption; (split; [reflexivity | eexists; reflexivity]).
Qed.

Lemma digit_not_word (c : ascii) (l : list ascii) (v : Z) :
  Num.digit_val c = Some v ->
  Num.sign (c :: l) = (false, c :: l)
  /\ (let word := string_of_list_ascii (map Num.lower (c :: l)) in
      String.eqb word "inf" || String.eqb word "infinity" = false
      /\ String.eqb word "nan" = false).
Proof.
  unfold Num.digit_val. destruct c as [[|] [|] [|] [|] [|] [|] [|] [|]];
    try discriminate; intros _; (split; [reflexivity | split; reflexivity]).
Qed.

Lemma int_float_str_uint (neg : bool) (d : Decimal.uint) :
  d <> Decimal.Nil ->
  Num.int_float_str
    (if neg then String "-" (NilEmpty.string_of_uint d) else NilEmpty.string_of_uint d)
  = Num.finite neg (Num.trunc_double (Z.of_N (Pos.of_uint d)) 1).
Proof.
  intros Hd. unfold Num.int_float_str.
  pose proof (uint_chars_digits d) as HF.
  destruct (digitpart_uint d Hd) as [k Hk].
  set (body := list_ascii_of_string (NilEmpty.string_of_uint d)) in *.
  assert (exists c l v, body = c :: l /\ Num.digit_val c = Some v) as (c & l & v & Eb & Hc).
  { destruct HF as [|c l [_ [v Hv]] _]; [discriminate Hk | now exists c, l, v]. }
  destruct (digit_not_word c l v Hc) as (Hs & Hw1 & Hw2). cbv zeta in Hw1, Hw2.
  assert (Forall (fun c => Num.is_space c = false) body) as HF'.
  { eapply Forall_impl; [exact HF | now intros ? []]. }
  assert (Num.sign (Num.strip (list_ascii_of_string
            (if neg then String "-" (NilEmpty.string_of_uint d)
             else NilEmpty.string_of_uint d)))
          = (neg, body)) as ->.
  { destruct neg.
    - cbn [list_ascii_of_string]. fold body.
      rewrite strip_nonspace by (constructor; [reflexivity | exact HF']). reflexivity.
    - fold body. rewrite strip_nonspace by exact HF'. rewrite Eb. exact Hs. }
  rewrite Eb, Hw1, Hw2, <- Eb. unfold Num.number. rewrite Hk.
  cbn [Num.exponent]. change (0 <=? 0 - 0) with true. cbv iota.
  change (10 ^ (0 - 0)) with 1. now rewrite Z.mul_1_r.
Qed.

(** What [str] writes, [int(float(.))] reads as the number itself,
    rounded as [float] rounds it. *)
Lemma int_float_str_str (n : Z) : Num.int_float_str (Num.str n) = Num.int_float n.
Proof.
  unfold Num.str, Num.int_float. destruct n as [|p|p]; cbn [Z.to_int NilZero.string_of_int].
  - vm_compute. reflexivity.
  - pose proof (Unsigned.to_uint_nonnil p) as Hp.
    replace (NilZero.string_of_uint (Pos.to_uint p))
      with (NilEmpty.string_of_uint (Pos.to_uint p))
      by (destruct (Pos.to_uint p); [contradiction | reflexivity ..]).
    rewrite (int_float_str_uint false _ Hp), Unsigned.of_to. reflexivity.
  - pose proof (Unsigned.to_uint_nonnil p) as Hp.
    replace (NilZero.string_of_uint (Pos.to_uint p))
      with (NilEmpty.string_of_uint (Pos.to_uint p))
      by (destruct (Pos.to_uint p); [contradiction | reflexivity ..]).
    rewrite (int_float_str_uint true _ Hp), Unsigned.of_to. reflexivity.
Qed.

Lemma str_nonempty (n : Z) : Str.is_empty (Num.str n) = false.
Proof.
  unfold Num.str. destruct n as [|p|p]; cbn [Z.to_int NilZero.string_of_int];
    [reflexivity | | reflexivity].
  pose proof (Unsigned.to_uint_nonnil p) as Hp.
  destruct (Pos.to_uint p); [contradiction | reflexivity ..].
Qed.

Lemma int_float_str_small (m : Z) :
  Z.abs m < 2 ^ 53 -> Num.int_float_str (Num.str m) = Ok m.
Proof. intros H. rewrite int_float_str_str. now apply int_float_small. Qed.

(** ** Paths and digests *)

Lemma list_ascii_app (a b : string) :
  list_ascii_of_string (a ++ b)
  = (list_ascii_of_string a ++ list_ascii_of_string b)%list.
Proof.
  induction a as [|c a IH]; [reflexivity|].
  rewrite append_cons. cbn [list_ascii_of_string]. now rewrite IH.
Qed.

Lemma string_of_list_app (l1 l2 : list ascii) :
  string_of_list_ascii (l1 ++ l2)%list
  = string_of_list_ascii l1 ++ string_of_list_ascii l2.
Proof.
  induction l1 as [|c l1 IH]; [reflexivity|].
  cbn [app string_of_list_ascii]. now rewrite IH, append_cons.
Qed.

Lemma rev_app (a b : string) : Str.rev (a ++ b) = Str.rev b ++ Str.rev a.
Proof. unfold Str.rev. now rewrite list_ascii_app, rev_app_distr, string_of_list_app. Qed.

Lemma rev_cons (c : ascii) (s : string) : Str.rev (String c s) = Str.rev s ++ String c "".
Proof. unfold Str.rev. cbn [list_ascii_of_string rev]. now rewrite string_of_list_app. Qed.

Lemma rev_rev (s : string) : Str.rev (Str.rev s) = s.
Proof.
  unfold Str.rev. rewrite list_ascii_of_string_of_list_ascii, rev_involutive.
  apply string_of_list_ascii_of_string.
Qed.

Lemma append_nil_r (s : string) : s ++ "" = s.
Proof. induction s as [|c s IH]; [reflexivity|]. now rewrite append_cons, IH. Qed.

Lemma rpartition_no_slash (h t b : string) :
  no_slash b = true ->
  Str.rpartition_aux h t b = (Str.rev h, Str.rev t ++ b).
Proof.
  revert t. induction b as [|c b IH]; intros t; cbn [no_slash Str.rpartition_aux].
  - intros _. now rewrite append_nil_r.
  - destruct (Ascii.eqb c "/"); [discriminate|]. cbn [negb andb]. intros Hb.
    rewrite IH by assumption. now rewrite rev_cons, append_assoc.
Qed.

(** The last slash of [x/b] is the one in front of [b]. *)
Lemma rpartition_last (h t x b : string) :
  no_slash b = true ->
  Str.rpartition_aux h t (x ++ String "/" b)
  = (Str.rev h ++ Str.rev t ++ x ++ "/", b).
Proof.
  intros Hb. revert h t. induction x as [|c x IH]; intros h t.
  - change ("" ++ String "/" b) with (String "/" b). cbn [Str.rpartition_aux].
    change (Ascii.eqb "/" "/") with true. cbv iota.
    rewrite rpartition_no_slash by assumption.
    now rewrite rev_cons, rev_app, append_assoc.
  - rewrite append_cons. cbn [Str.rpartition_aux].
    destruct (Ascii.eqb_spec c "/") as [->|Hc].
    + rewrite IH. rewrite rev_cons, rev_app, !append_assoc. reflexivity.
    + rewrite IH. rewrite rev_cons, !append_assoc. reflexivity.
Qed.




(** A name that does not end in a slash is turned round into one that
    does not start with one. *)
Lemma rev_head (a : string) :
  Str.is_empty a = false -> Str.endswith_slash a = false ->
  exists c r, Str.rev a = String c r /\ Ascii.eqb c "/" = false.
Proof.
  induction a as [|c a IH]; [discriminate|]. intros _ He.
  destruct a as [|d a].
  - exists c, "". split; [reflexivity | exact He].
  - destruct IH as (x & r & Hr & Hx); [reflexivity | exact He |].
    exists x, (r ++ String c ""). rewrite rev_cons, Hr. now split.
Qed.

Lemma rstrip_slash_app_slash (a : string) :
  Str.is_empty a = false -> Str.endswith_slash a = false ->
  Str.rstrip_slash (a ++ "/") = a.
Proof.
  intros Ha He. unfold Str.rstrip_slash. rewrite rev_app.
  change (Str.rev "/") with "/". rewrite append_cons. cbn [Str.lstrip_slash].
  change (Ascii.eqb "/" "/") with true. cbv iota.
  change ("" ++ Str.rev a) with (Str.rev a).
  destruct (rev_head a Ha He) as (c & r & Hr & Hc).
  rewrite Hr. cbn [Str.lstrip_slash]. rewrite Hc, <- Hr. apply rev_rev.
Qed.

Lemma all_slashes_end (a : string) :
  Str.all_slashes a = true -> Str.is_empty a = false -> Str.endswith_slash a = true.
Proof.
  induction a as [|c a IH]; [discriminate|]. cbn [Str.all_slashes].
  intros H _. apply andb_true_iff in H as [Hc Ha].
  destruct a as [|d a]; [exact Hc|]. now apply IH.
Qed.

Lemma all_slashes_app (a b : string) :
  Str.all_slashes (a ++ b) = Str.all_slashes a && Str.all_slashes b.
Proof.
  induction a as [|c a IH]; [reflexivity|].
  rewrite append_cons. cbn [Str.all_slashes]. now rewrite IH, andb_assoc.
Qed.

(** [os.path.split] of a directory name, a slash and a file name. *)
Lemma split_join (a b : string) :
  Str.is_empty a = false -> Str.endswith_slash a = false -> no_slash b = true ->
  Path.split (a ++ "/" ++ b) = (a, b).
Proof.
  intros Ha He Hb. unfold Path.split, Str.rpartition_slash.
  change (a ++ "/" ++ b) with (a ++ String "/" b).
  rewrite rpartition_last by assumption.
  change (Str.rev "" ++ Str.rev "" ++ a ++ "/") with (a ++ "/").
  rewrite is_empty_app_r by reflexivity.
  rewrite all_slashes_app.
  destruct (Str.all_slashes a) eqn:Hs.
  - rewrite (all_slashes_end a Hs Ha) in He. discriminate.
  - cbn [negb andb]. now rewrite rstrip_slash_app_slash.
Qed.

Lemma no_slash_relative (b : string) : no_slash b = true -> Str.startswith b "/" = false.
Proof.
  destruct b as [|c b]; [reflexivity|]. cbn [no_slash]. rewrite startswith_cons.
  destruct (Ascii.eqb c "/"); [discriminate | reflexivity].
Qed.

Lemma no_slash_app (a b : string) : no_slash (a ++ b) = no_slash a && no_slash b.
Proof.
  induction a as [|c a IH]; [reflexivity|].
  rewrite append_cons. cbn [no_slash]. now rewrite IH, andb_assoc.
Qed.




Lemma prefix_app (a b : string) : Str.startswith (a ++ b) a = true.
Proof.
  unfold Str.startswith. induction a as [|c a IH]; [now destruct b|].
  rewrite append_cons.
  change (String.prefix (String c a) (String c (a ++ b)))
    with (if ascii_dec c c then String.prefix a (a ++ b) else false).
  destruct (ascii_dec c c); [exact IH | congruence].
Qed.

Lemma no_slash_hex_word (x : Z) (rest : string) :
  no_slash (MD5.hex_word x rest) = no_slash rest.
Proof.
  unfold MD5.hex_word, MD5.le_bytes. cbn [map seq fold_right no_slash].
  now rewrite !hexdigit_not_slash.
Qed.

Lemma no_slash_hexdigest (s : string) : no_slash (MD5.hexdigest s ++ ".png") = true.
Proof.
  rewrite no_slash_app. unfold MD5.hexdigest.
  destruct (MD5.digest_state _) as [[[a b] c] d].
  now rewrite !no_slash_hex_word.
Qed.

Lemma hexdigit_lower_hex (n : Z) : is_lower_hex (MD5.hexdigit n) = true.
Proof.
  destruct n as [|p|p]; try reflexivity.
  do 4 (destruct p as [p|p|]; try reflexivity).
Qed.

Lemma hex_word_shape (x : Z) (rest : string) :
  String.length (MD5.hex_word x rest) = (8 + String.length rest)%nat
  /\ (Forall (fun c => is_lower_hex c = true) (list_ascii_of_string rest) ->
      Forall (fun c => is_lower_hex c = true) (list_ascii_of_string (MD5.hex_word x rest))).
Proof.
  unfold MD5.hex_word, MD5.le_bytes. cbn [map seq fold_right String.length list_ascii_of_string].
  split; [reflexivity|]. intros H.
  repeat (constructor; [apply hexdigit_lower_hex|]). exact H.
Qed.

Lemma hexdigest_shape (s : string) :
  String.length (MD5.hexdigest s) = 32%nat
  /\ Forall (fun c => is_lower_hex c = true) (list_ascii_of_string (MD5.hexdigest s)).
Proof.
  unfold MD5.hexdigest. destruct (MD5.digest_state _) as [[[a b] c] d]. split.
  - rewrite !(proj1 (hex_word_shape _ _)). reflexivity.
  - repeat apply hex_word_shape. constructor.
Qed.

(** ** The files a store operation leaves alone *)

Lemma unchanged_refl (l : list string) (w : world) : unchanged_except l w w.
Proof. now intros q n H _. Qed.

Lemma unchanged_step (l ps : list string) (w0 w w' : world) :
  unchanged_except l w0 w -> unchanged_except ps w w' ->
  (forall p, In p ps -> writable w0 l p) ->
  unchanged_except l w0 w'.
Proof.
  intros H1 H2 Hps q n Hq Hl. apply H2; [now apply H1|].
  intros Hin. destruct (Hps q Hin) as [?|Hn]; [contradiction | congruence].
Qed.

Lemma writable_fresh (l : list string) (w0 w : world) (p : string) :
  unchanged_except l w0 w -> w_fs w !! p = None -> writable w0 l p.
Proof.
  intros H Hp. destruct (In_dec string_dec p l) as [Hin|Hin]; [now left|].
  right. destruct (w_fs w0 !! p) as [n|] eqn:E; [|reflexivity].
  rewrite (H p n E Hin) in Hp. discriminate.
Qed.

Lemma writable_in (l : list string) (w0 : world) (p : string) : In p l -> writable w0 l p.
Proof. now left. Qed.

Lemma keeps_bind {A B} (w0 : world) (l : list string) (m : M A) (f : A -> M B)
      (Q : A -> Prop) (R : B -> Prop) :
  keeps w0 l m Q -> (forall a, Q a -> keeps w0 l (f a) R) -> keeps w0 l (bind m f) R.
Proof.
  intros Hm Hf w Hw. unfold bind. destruct (Hm w Hw) as [H1 H2].
  destruct (m w) as [[a|e] w1]; cbn [fst snd] in *.
  - apply Hf; auto.
  - split; [assumption | discriminate].
Qed.

Lemma keeps_weaken {A} (w0 : world) (l : list string) (m : M A) (Q R : A -> Prop) :
  keeps w0 l m Q -> (forall a, Q a -> R a) -> keeps w0 l m R.
Proof. intros H HQ w Hw. destruct (H w Hw) as [H1 H2]. split; auto. Qed.

Lemma keeps_readonly {A} (w0 : world) (l : list string) (m : M A) :
  readonly m -> keeps w0 l m (fun _ => True).
Proof. intros H w Hw. rewrite H. now split. Qed.

Lemma keeps_lift {A} (w0 : world) (l : list string) (r : result A) :
  keeps w0 l (lift r) (fun a => r = Ok a).
Proof. intros w Hw. now split. Qed.

Lemma keeps_ret {A} (w0 : world) (l : list string) (a : A) :
  keeps w0 l (ret a) (fun x => x = a).
Proof. intros w Hw. split; [assumption | now intros ? [= <-]]. Qed.

Lemma keeps_touch {A} (w0 : world) (l ps : list string) (m : M A) :
  (forall w, unchanged_except ps w (snd (m w))) ->
  (forall p, In p ps -> writable w0 l p) ->
  keeps w0 l m (fun _ => True).
Proof.
  intros H Hps w Hw. split; [|trivial]. eapply unchanged_step; [exact Hw | apply H | exact Hps].
Qed.

Lemma chmod_unchanged (p : string) (mode : Z) (w : world) :
  unchanged_except [p] w (snd (Os.chmod p mode w)).
Proof.
  intros q n Hq Hin. unfold Os.chmod. cbn.
  destruct (w_fs w !! p); cbn; [|assumption].
  rewrite lookup_insert_ne; [assumption|]. intros ->. apply Hin. now left.
Qed.

Lemma rename_unchanged (a b : string) (w : world) :
  unchanged_except [a; b] w (snd (Os.rename a b w)).
Proof.
  intros q n Hq Hin. unfold Os.rename. cbn.
  assert (a <> q /\ b <> q) as [Ha Hb] by (split; intros ->; apply Hin; cbn; auto).
  assert (<[b := n]> (delete a (w_fs w)) !! q = Some n
          -> forall n0, <[b := n0]> (delete a (w_fs w)) !! q = Some n) as K.
  { intros _ n0. now rewrite lookup_insert_ne, lookup_delete_ne. }
  destruct (w_fs w !! a); [|assumption].
  destruct (String.eqb a b); [assumption|].
  destruct (w_fs w !! b); [destruct (Bool.eqb _ _)|]; cbn; try assumption;
    now rewrite lookup_insert_ne, lookup_delete_ne.
Qed.

Lemma move_unchanged (a b : string) (w : world) :
  unchanged_except [a; b] w (snd (Os.move a b w)).
Proof.
  intros q n Hq Hin. unfold Os.move. cbn.
  assert (a <> q /\ b <> q) as [Ha Hb] by (split; intros ->; apply Hin; cbn; auto).
  destruct (w_fs w !! a) as [na|]; [|assumption].
  destruct (is_dir na); [assumption|].
  destruct (String.eqb a b); [assumption|]. cbn.
  now rewrite lookup_insert_ne, lookup_delete_ne.
Qed.

Lemma save_unchanged (P : platform) (p : string) (img : image) (w : world) :
  unchanged_except [p] w (snd (Os.save P p img w)).
Proof.
  intros q n Hq Hin. unfold Os.save. cbn.
  rewrite lookup_insert_ne; [assumption|]. intros ->. apply Hin. now left.
Qed.

Lemma mkdir_unchanged (P : platform) (p : string) (mode : Z) (w : world) :
  unchanged_except [] w (snd (Os.mkdir P p mode w)).
Proof.
  intros q n Hq _. unfold Os.mkdir. cbn.
  destruct (w_fs w !! p) eqn:E; [assumption|].
  destruct (Os.parent_is_dir _ _); [|assumption]. cbn.
  rewrite lookup_insert_ne; [assumption | congruence].
Qed.

Lemma mkstemp_unchanged (P : platform) (dir : string) (w : world) :
  unchanged_except [] w (snd (Os.mkstemp P dir w)).
Proof.
  intros q n Hq _. unfold Os.mkstemp.
  destruct (w_fs w !! dir) as [nd|]; [|assumption].
  destruct (is_dir nd); [|assumption].
  destruct (Os.mkstemp_loop _ _ _) as [[file rest]|] eqn:E; [|assumption].
  apply mkstemp_loop_fresh in E as [Hf _]. cbn.
  rewrite lookup_insert_ne; [assumption | congruence].
Qed.

Lemma no_writes (w0 : world) (l : list string) (p : string) : In p [] -> writable w0 l p.
Proof. intros []. Qed.

(** [_mkstemp] touches no file that existed, and what it returns was
    free. *)
Lemma keeps_mkstemp (P : platform) (w0 : world) (l : list string) (dest : string) :
  keeps w0 l (_mkstemp P dest) (writable w0 l).
Proof.
  intros w Hw. unfold _mkstemp, bind.
  pose proof (mkstemp_unchanged P (Path.dirname dest) w) as Hm.
  destruct (Os.mkstemp P (Path.dirname dest) w) as [[tmp|e] w1] eqn:E; cbn [snd] in Hm.
  - apply mkstemp_ok in E as (Hf & _).
    pose proof (writable_fresh l w0 w tmp Hw Hf) as Ht.
    assert (unchanged_except l w0 w1) as Hw1.
    { eapply unchanged_step; [exact Hw | exact Hm | apply no_writes]. }
    pose proof (chmod_unchanged tmp 384 w1) as Hc.
    destruct (Os.chmod tmp 384 w1) as [[[]|e] w2]; cbn [fst snd] in *.
    + split; [|now intros ? [= <-]].
      eapply unchanged_step; [exact Hw1 | exact Hc |]. now intros p [<-|[]].
    + split; [|discriminate].
      eapply unchanged_step; [exact Hw1 | exact Hc |]. now intros p [<-|[]].
  - cbn [fst snd]. split; [|discriminate].
    eapply unchanged_step; [exact Hw | exact Hm | apply no_writes].
Qed.

Lemma keeps_chmod (w0 : world) (l : list string) (p : string) (mode : Z) :
  writable w0 l p -> keeps w0 l (Os.chmod p mode) (fun _ => True).
Proof.
  intros Hp. eapply keeps_touch; [apply chmod_unchanged|]. now intros ? [<-|[]].
Qed.

Lemma keeps_rename (w0 : world) (l : list string) (a b : string) :
  writable w0 l a -> writable w0 l b -> keeps w0 l (Os.rename a b) (fun _ => True).
Proof.
  intros Ha Hb. eapply keeps_touch; [apply rename_unchanged|]. now intros ? [<-|[<-|[]]].
Qed.

Lemma keeps_move (w0 : world) (l : list string) (a b : string) :
  writable w0 l a -> writable w0 l b -> keeps w0 l (Os.move a b) (fun _ => True).
Proof.
  intros Ha Hb. eapply keeps_touch; [apply move_unchanged|]. now intros ? [<-|[<-|[]]].
Qed.

Lemma keeps_save (P : platform) (w0 : world) (l : list string) (p : string) (img : image) :
  writable w0 l p -> keeps w0 l (Os.save P p img) (fun _ => True).
Proof.
  intros Hp. eapply keeps_touch; [apply save_unchanged|]. now intros ? [<-|[]].
Qed.

Lemma keeps_mkdir (P : platform) (w0 : world) (l : list string) (p : string) (mode : Z) :
  keeps w0 l (Os.mkdir P p mode) (fun _ => True).
Proof. eapply keeps_touch; [apply mkdir_unchanged | apply no_writes]. Qed.

Lemma keeps_true {A} (w0 : world) (l : list string) (m : M A) (Q : A -> Prop) :
  keeps w0 l m Q -> keeps w0 l m (fun _ => True).
Proof. intros H. eapply keeps_weaken; [exact H | trivial]. Qed.

Lemma keeps_write_then_rename (P : platform) (w0 : world) (l : list string)
      (dest : string) (img : image) :
  writable w0 l dest -> keeps w0 l (write_then_rename P dest img) (fun _ => True).
Proof.
  intros Hd. unfold write_then_rename.
  eapply keeps_bind; [apply keeps_mkstemp | intros tmp Ht].
  eapply keeps_bind; [now apply keeps_save | intros _ _].
  eapply keeps_bind; [now apply keeps_rename | intros _ _].
  eapply keeps_true, keeps_ret.
Qed.

Lemma keeps_makedirs_rec (P : platform) (w0 : world) (l : list string) (fuel : nat)
      (name : string) (mode : Z) :
  keeps w0 l (Os.makedirs_rec P fuel name mode) (fun _ => True).
Proof.
  revert name mode. induction fuel as [|fuel IH]; intros name mode; cbn [Os.makedirs_rec].
  - apply keeps_readonly, readonly_raise.
  - destruct (Path.split name) as [head tail].
    destruct (if Str.is_empty tail then Path.split head else (head, tail)) as [head' tail'].
    destruct (negb (Str.is_empty head') && negb (Str.is_empty tail')); [|apply keeps_mkdir].
    eapply keeps_bind; [apply keeps_readonly, readonly_exists | intros ex _].
    destruct ex; [apply keeps_mkdir|].
    eapply keeps_bind; [apply IH | intros _ _].
    destruct (String.eqb tail' "."); [eapply keeps_true, keeps_ret | apply keeps_mkdir].
Qed.

Lemma keeps_makedirs (P : platform) (w0 : world) (l : list string) (name : string)
      (mode : Z) :
  keeps w0 l (Os.makedirs P name mode) (fun _ => True).
Proof. apply keeps_makedirs_rec. Qed.

Lemma keeps_ensure_dir (P : platform) (w0 : world) (l : list string) (isd : bool)
      (name : string) (mode : Z) :
  keeps w0 l (if isd then ret tt else Os.makedirs P name mode) (fun _ => True).
Proof. destruct isd; [eapply keeps_true, keeps_ret | apply keeps_makedirs]. Qed.

Lemma normal_alias_class (s : size_arg) :
  is_normal_alias s = true -> In s (class_aliases Normal).
Proof.
  destruct s as [n|s]; cbn.
  - intros H. apply Z.eqb_eq in H. subst. auto.
  - intros H. apply orb_true_iff in H as [H|H]; apply String.eqb_eq in H; subst; auto.
Qed.

Lemma large_alias_class (s : size_arg) :
  is_large_alias s = true -> In s (class_aliases Large).
Proof.
  destruct s as [n|s]; cbn.
  - intros H. apply Z.eqb_eq in H. subst. auto.
  - intros H. apply orb_true_iff in H as [H|H]; apply String.eqb_eq in H; subst; auto.
Qed.

(** [_any2size(size)] can be subscripted only for the names of a class. *)
Lemma any2size_pair_class (s : size_arg) (px : Z) (name : string) :
  _any2size s = Ok (SizePair px name) ->
  exists c, In s (class_aliases c) /\ px = class_px c /\ name = class_dir c.
Proof.
  unfold _any2size. destruct (is_normal_alias s) eqn:E1.
  - intros [= <- <-]. exists Normal. auto using normal_alias_class.
  - destruct (is_large_alias s) eqn:E2.
    + intros [= <- <-]. exists Large. auto using large_alias_class.
    + destruct s as [n|s]; [|discriminate].
      destruct (_ && _); [discriminate|]. destruct (_ && _); discriminate.
Qed.

Lemma subscript1_class (s : size_arg) (name : string) :
  rbind (_any2size s) subscript1 = Ok name ->
  exists c, In s (class_aliases c) /\ name = class_dir c.
Proof.
  destruct (_any2size s) as [[px nm|px]|e] eqn:E; cbn; try discriminate.
  intros [= <-]. destruct (any2size_pair_class s px nm E) as (c & ? & _ & ?). now exists c.
Qed.

Lemma subscript0_class (s : size_arg) (px : Z) :
  rbind (_any2size s) subscript0 = Ok px ->
  exists c, In s (class_aliases c) /\ px = class_px c.
Proof.
  destruct (_any2size s) as [[px' nm|px']|e] eqn:E; cbn; try discriminate.
  intros [= <-]. destruct (any2size_pair_class s px' nm E) as (c & ? & ? & _). now exists c.
Qed.

Lemma class_px_alias (c : size_class) : In (SizeInt (class_px c)) (class_aliases c).
Proof. destruct c; cbn; auto. Qed.

(** A path [build_thumbnail_path] returns is the path of a class the
    size names. *)
Lemma build_thumbnail_path_ok (P : platform) (src : string) (s : size_arg) (dest : string) :
  build_thumbnail_path P src s = Ok dest ->
  exists c, In s (class_aliases c) /\ dest = thumbnail_path_spec P src c.
Proof.
  intros H. destruct (rbind (_any2size s) subscript1) as [name|e] eqn:E.
  - destruct (subscript1_class s name E) as (c & Hc & _). exists c. split; [assumption|].
    rewrite (build_thumbnail_path_class P src c s Hc) in H. congruence.
  - unfold build_thumbnail_path in H. rewrite E in H. discriminate.
Qed.

Lemma keeps_backend_create_fail (P : platform) (w0 : world) (l : list string)
      (b : backend) (dest : string) (d : gmap string string) :
  writable w0 l dest -> keeps w0 l (backend_create_fail P b dest d) (fun _ => True).
Proof. intros H. now apply keeps_write_then_rename. Qed.

Lemma keeps_backend_update_metadata (P : platform) (w0 : world) (l : list string)
      (b : backend) (dest : string) (d : gmap string string) :
  writable w0 l dest -> keeps w0 l (backend_update_metadata P b dest d) (fun _ => True).
Proof.
  intros H. unfold backend_update_metadata.
  eapply keeps_bind; [apply keeps_readonly, readonly_read_image | intros o _].
  destruct b, o;
    first [ apply keeps_readonly, readonly_raise
          | apply keeps_readonly, readonly_ret
          | eapply keeps_bind; [now apply keeps_write_then_rename | intros ? _];
            eapply keeps_true, keeps_ret ].
Qed.

Lemma keeps_backend_create_thumbnail (P : platform) (w0 : world) (l : list string)
      (b : backend) (src dest : string) (size : Z) (d : gmap string string) :
  writable w0 l dest ->
  keeps w0 l (backend_create_thumbnail P b src dest size d) (fun _ => True).
Proof.
  intros H. unfold backend_create_thumbnail.
  eapply keeps_bind; [apply keeps_readonly, readonly_read_image | intros o _].
  destruct o; [|eapply keeps_true, keeps_ret].
  eapply keeps_bind; [now apply keeps_write_then_rename | intros ? _].
  eapply keeps_true, keeps_ret.
Qed.

Lemma keeps_put_fail (P : platform) (w0 : world) (l : list string) (src appname : string)
      (mtime : option Z) (moreinfo : option (gmap string string)) :
  writable w0 l (fail_path P src appname) ->
  keeps w0 l (put_fail P src appname mtime moreinfo) (fun _ => True).
Proof.
  intros H. unfold put_fail.
  eapply keeps_bind; [apply keeps_readonly, readonly_isdir | intros isd _].
  eapply keeps_bind; [apply keeps_ensure_dir | intros _ _].
  eapply keeps_bind; [apply keeps_readonly, readonly_info_dict | intros d _].
  eapply keeps_bind; [apply keeps_readonly, readonly_the_backend | intros b _].
  now apply keeps_backend_create_fail.
Qed.

Lemma keeps_create_thumbnail (P : platform) (w0 : world) (l : list string) (src : string)
      (size : size_arg) (moreinfo : option (gmap string string)) (app : option string) :
  (forall p, In p (cache_paths P src app) -> writable w0 l p) ->
  keeps w0 l (create_thumbnail P src size moreinfo app) (fun _ => True).
Proof.
  intros H. unfold create_thumbnail.
  eapply keeps_bind; [apply keeps_lift | intros px Hpx].
  eapply keeps_bind; [apply keeps_readonly, readonly_getsize | intros filesize _].
  eapply keeps_bind; [apply keeps_lift | intros dest Hdest].
  eapply keeps_bind; [apply keeps_readonly, readonly_info_dict | intros d _].
  eapply keeps_bind; [apply keeps_readonly, readonly_isdir | intros isd _].
  eapply keeps_bind; [apply keeps_ensure_dir | intros _ _].
  eapply keeps_bind; [apply keeps_readonly, readonly_the_backend | intros b _].
  apply build_thumbnail_path_ok in Hdest as (c & _ & ->).
  eapply keeps_bind.
  { apply keeps_backend_create_thumbnail, H. destruct c; cbn; auto. }
  intros r _. destruct (truthy r); [eapply keeps_true, keeps_ret|].
  destruct app as [a|]; [|eapply keeps_true, keeps_ret].
  eapply keeps_bind; [|intros _ _; eapply keeps_true, keeps_ret].
  apply keeps_put_fail, H. cbn. auto.
Qed.

Lemma keeps_put_thumbnail (P : platform) (w0 : world) (l : list string) (src : string)
      (size : size_arg) (thumb : string) (mtime : option Z)
      (moreinfo : option (gmap string string)) :
  writable w0 l thumb ->
  (forall p, In p (cache_paths P src None) -> writable w0 l p) ->
  keeps w0 l (put_thumbnail P src size thumb mtime moreinfo) (fun _ => True).
Proof.
  intros Ht H. unfold put_thumbnail.
  eapply keeps_bind; [apply keeps_lift | intros dest Hdest].
  assert (writable w0 l dest) as Hd.
  { apply build_thumbnail_path_ok in Hdest as (c & _ & ->). apply H. destruct c; cbn; auto. }
  eapply (keeps_bind _ _ _ _ (writable w0 l)).
  { destruct (String.eqb dest thumb).
    - eapply keeps_bind; [apply keeps_mkstemp | intros tmp Htmp].
      eapply keeps_bind; [now apply keeps_rename | intros _ _].
      eapply keeps_weaken; [apply keeps_ret | now intros ? ->].
    - destruct (String.eqb _ _).
      + eapply keeps_weaken; [apply keeps_ret | now intros ? ->].
      + eapply keeps_bind; [apply keeps_mkstemp | intros tmp Htmp].
        eapply keeps_bind; [now apply keeps_move | intros _ _].
        eapply keeps_weaken; [apply keeps_ret | now intros ? ->]. }
  intros tmp Htmp.
  eapply keeps_bind; [apply keeps_readonly, readonly_info_dict | intros d _].
  eapply keeps_bind; [apply keeps_readonly, readonly_the_backend | intros b _].
  eapply keeps_bind; [now apply keeps_backend_update_metadata | intros _ _].
  eapply keeps_bind; [now apply keeps_chmod | intros _ _].
  eapply keeps_bind; [now apply keeps_rename | intros _ _].
  eapply keeps_true, keeps_ret.
Qed.

Lemma keeps_create_temp (P : platform) (w0 : world) (l : list string) (size : size_arg) :
  keeps w0 l (create_temp P size) (writable w0 l).
Proof.
  unfold create_temp.
  eapply keeps_bind; [apply keeps_lift | intros name _].
  eapply keeps_bind; [apply keeps_readonly, readonly_isdir | intros isd _].
  eapply keeps_bind; [apply keeps_ensure_dir | intros _ _].
  apply keeps_mkstemp.
Qed.

Lemma keeps_makedirs_loop (P : platform) (w0 : world) (l : list string) (root : string)
      (children : list string) :
  (forall child, In child children -> writable w0 l (Path.join root child)) ->
  keeps w0 l (makedirs_loop P root children) (fun _ => True).
Proof.
  induction children as [|child rest IH]; intros H; cbn [makedirs_loop].
  - eapply keeps_true, keeps_ret.
  - eapply keeps_bind; [apply keeps_readonly, readonly_isdir | intros isd _].
    eapply keeps_bind.
    { destruct isd; [apply keeps_chmod, H; now left | apply keeps_makedirs]. }
    intros _ _. apply IH. intros c Hc. apply H. now right.
Qed.

Lemma keeps_run {A} (w : world) (l : list string) (m : M A) (Q : A -> Prop) :
  keeps w l m Q -> unchanged_except l w (snd (m w)).
Proof. intros H. apply H, unchanged_refl. Qed.

(** ** A thumbnail that was written is found *)

Lemma readonly_ok {A} (m : M A) (w w' : world) (r : result A) :
  readonly m -> m w = (r, w') -> w' = w.
Proof. intros H E. pose proof (H w) as R. rewrite E in R. exact R. Qed.

Lemma content_at_node (w : world) (p : string) (c : content) :
  content_at w p = Some c -> exists n, w_fs w !! p = Some n /\ n_content n = c.
Proof.
  unfold content_at. destruct (w_fs w !! p) as [n|]; [|discriminate].
  intros [= <-]. now exists n.
Qed.

(** What the bound backend reads from an image that carries the text of
    a whole-second mtime and a URI. *)
Lemma valid_after_write (P : platform) (b : backend) (p : string) (w : world) (img : image)
      (m : Z) (u : string) :
  get_backend P = Some b ->
  content_at w p = Some (Picture img) ->
  i_text img !! KEY_MTIME = Some (Num.str m) -> i_text img !! KEY_URI = Some u ->
  Z.abs m < 2 ^ 53 ->
  thumbnail_info P p w = (Ok (Some {| info_mtime := m; info_uri := u |}), w)
  /\ forall uri m',
       is_thumbnail_valid P p uri m' w = (Ok (String.eqb u uri && (m =? m')), w).
Proof.
  intros Hb Hc Ht Hu Hm.
  assert (thumbnail_info P p w = (Ok (Some {| info_mtime := m; info_uri := u |}), w)) as E.
  { unfold thumbnail_info. rewrite (bind_eq _ _ _ _ _ (the_backend_some P w b Hb)).
    eapply get_info_written; eauto using str_nonempty, int_float_str_small. }
  split; [exact E|]. intros uri m'. unfold is_thumbnail_valid.
  now rewrite (bind_eq _ _ _ _ _ E).
Qed.

(** The probe stops at the first size whose path exists and is the
    source itself or is valid. *)
Lemma probe_hit (P : platform) (src uri : string) (m : Z) (size : size_arg)
      (rest : list size_arg) (w : world) (p : string) :
  build_thumbnail_path P src size = Ok p ->
  is_Some (w_fs w !! p) ->
  src = p \/ is_thumbnail_valid P p uri m w = (Ok true, w) ->
  try_sizes P src uri m (size :: rest) w = (Ok (Some p), w).
Proof.
  intros Hb [n Hn] Hv. cbn [try_sizes]. unfold bind at 1, lift. rewrite Hb.
  unfold bind at 1, Os.exists_. rewrite Hn.
  destruct (String.eqb_spec src p) as [->|Hne]; [reflexivity|].
  destruct Hv as [?|Hv]; [contradiction|]. now rewrite (bind_eq _ _ _ _ _ Hv).
Qed.

Lemma getsize_ok (src : string) (w w' : world) (sz : Z) :
  Os.getsize src w = (Ok sz, w') ->
  w' = w /\ exists n, w_fs w !! src = Some n /\ sz = n_size n.
Proof.
  unfold Os.getsize. destruct (w_fs w !! src) as [n|]; [|discriminate].
  intros [= <- <-]. split; [reflexivity | now exists n].
Qed.

Lemma ensure_dir_unchanged (P : platform) (isd : bool) (name : string) (mode : Z)
      (w w' : world) (r : result unit) :
  (if isd then ret tt else Os.makedirs P name mode) w = (r, w') ->
  unchanged_except [] w w'.
Proof.
  intros H. pose proof (keeps_run w [] _ _ (keeps_ensure_dir P w [] isd name mode)) as K.
  now rewrite H in K.
Qed.

Lemma unchanged_trans_nil (l : list string) (w0 w w' : world) :
  unchanged_except [] w0 w -> unchanged_except l w w' -> unchanged_except l w0 w'.
Proof. intros H1 H2 q n Hq Hl. apply H2; [|assumption]. apply H1; [assumption | intros []]. Qed.

Lemma write_then_rename_unchanged (P : platform) (dest : string) (img : image)
      (w w' : world) (r : result string) :
  write_then_rename P dest img w = (r, w') -> unchanged_except [dest] w w'.
Proof.
  intros H.
  assert (writable w [dest] dest) as Hd by (left; now left).
  pose proof (keeps_run w [dest] _ _ (keeps_write_then_rename P w [dest] dest img Hd)) as K.
  now rewrite H in K.
Qed.

(** The steps of a [create_thumbnail] that returns a path: the size of
    the source is read, the directories are made, and the bound backend
    writes the thumbnail with the metadata dictionary. *)
Lemma create_thumbnail_steps (P : platform) (src : string) (size : size_arg)
      (moreinfo : option (gmap string string)) (app : option string) (w w' : world)
      (p : string) :
  create_thumbnail P src size moreinfo app w = (Ok (Some p), w') ->
  exists c n0 b w6,
    In size (class_aliases c) /\ p = thumbnail_path_spec P src c
    /\ w_fs w !! src = Some n0 /\ get_backend P = Some b
    /\ unchanged_except [] w w6
    /\ backend_create_thumbnail P b src p (class_px c)
         (<[KEY_SIZE := Num.str (n_size n0)]>
            (setdefault KEY_URI (_any2uri P src)
               (setdefault KEY_MTIME (Num.str (n_mtime n0)) (default ∅ moreinfo)))) w6
       = (Ok (Some p), w').
Proof.
  unfold create_thumbnail. intros H.
  apply bind_ok_inv in H as (px & w1 & Hpx & H). injection Hpx as Hpx <-.
  apply bind_ok_inv in H as (filesize & w2 & Hsz & H).
  apply getsize_ok in Hsz as (-> & n0 & Hn0 & ->).
  apply bind_ok_inv in H as (dest & w3 & Hdest & H). injection Hdest as Hdest <-.
  apply bind_ok_inv in H as (d & w4 & Hd & H).
  apply info_dict_ok in Hd as (-> & m & Hm & ->).
  rewrite (any2mtime_current src w n0 Hn0) in Hm. injection Hm as <-.
  apply bind_ok_inv in H as (isd & w5 & Hisd & H).
  apply (readonly_ok _ _ _ _ (readonly_isdir _)) in Hisd as ->.
  apply bind_ok_inv in H as ([] & w6 & Hmk & H).
  apply ensure_dir_unchanged in Hmk.
  apply bind_ok_inv in H as (b & w7 & Hb & H).
  apply the_backend_ok in Hb as (Hb & ->).
  apply bind_ok_inv in H as (r & w8 & Hc & H).
  assert (exists r', r = Some r' /\ p = dest /\ w' = w8) as (r' & -> & -> & ->).
  { destruct r as [r|]; cbn [truthy] in H.
    - destruct (negb (Str.is_empty r)).
      + injection H as <- <-. now exists r.
      + destruct app; [|discriminate].
        apply bind_ok_inv in H as (? & ? & _ & H). discriminate.
    - destruct app; [|discriminate].
      apply bind_ok_inv in H as (? & ? & _ & H). discriminate. }
  destruct (subscript0_class size px Hpx) as (c & Hc0 & ->).
  rewrite (build_thumbnail_path_class P src c _ (class_px_alias c)) in Hdest.
  injection Hdest as <-.
  assert (r' = thumbnail_path_spec P src c) as ->.
  { unfold backend_create_thumbnail in Hc.
    apply bind_ok_inv in Hc as (o & w9 & _ & Hc).
    destruct o as [img0|]; [|discriminate].
    apply bind_ok_inv in Hc as (d0 & w10 & Hw & Hr). injection Hr as <- _.
    now apply write_then_rename_content in Hw as [-> _]. }
  now exists c, n0, b, w6.
Qed.

Lemma backend_create_thumbnail_unchanged (P : platform) (b : backend) (src dest : string)
      (size : Z) (d : gmap string string) (w w' : world) (r : result (option string)) :
  backend_create_thumbnail P b src dest size d w = (r, w') ->
  unchanged_except [dest] w w'.
Proof.
  intros H.
  assert (writable w [dest] dest) as Hd by (left; now left).
  pose proof (keeps_run w [dest] _ _
                (keeps_backend_create_thumbnail P w [dest] b src dest size d Hd)) as K.
  now rewrite H in K.
Qed.

(** What a successful [create_thumbnail] has left on disk. *)
Lemma create_thumbnail_inv (P : platform) (src : string) (size : size_arg)
      (moreinfo : option (gmap string string)) (app : option string) (w w' : world)
      (p : string) :
  create_thumbnail P src size moreinfo app w = (Ok (Some p), w') ->
  exists c n0 b img,
    In size (class_aliases c) /\ p = thumbnail_path_spec P src c
    /\ w_fs w !! src = Some n0 /\ get_backend P = Some b
    /\ content_at w' p = Some (Picture img)
    /\ i_text img !! KEY_MTIME
       = Some (default (Num.str (n_mtime n0)) (default ∅ moreinfo !! KEY_MTIME))
    /\ i_text img !! KEY_URI
       = Some (default (_any2uri P src) (default ∅ moreinfo !! KEY_URI))
    /\ i_text img !! KEY_SIZE = Some (Num.str (n_size n0))
    /\ unchanged_except [p] w w'.
Proof.
  intros H.
  apply create_thumbnail_steps in H as (c & n0 & b & w6 & Hc0 & -> & Hn0 & Hb & Hmk & Hc).
  set (d := <[KEY_SIZE := Num.str (n_size n0)]> _) in Hc.
  assert (forall k v, d !! k = Some v -> k <> KEY_WIDTH -> k <> KEY_HEIGHT ->
            exists img, content_at w' (thumbnail_path_spec P src c) = Some (Picture img)
                        /\ i_text img !! k = Some v) as K.
  { intros k v. now apply (create_thumbnail_content P b src _ (class_px c) d w6 w'
                           (thumbnail_path_spec P src c)). }
  assert (d !! KEY_SIZE = Some (Num.str (n_size n0))) as D1 by apply lookup_insert_eq.
  assert (d !! KEY_URI
          = Some (default (_any2uri P src) (default ∅ moreinfo !! KEY_URI))) as D2.
  { unfold d. rewrite lookup_insert_ne by discriminate.
    rewrite lookup_setdefault_eq.
    now rewrite lookup_setdefault_ne by apply KEY_MTIME_neq_URI. }
  assert (d !! KEY_MTIME
          = Some (default (Num.str (n_mtime n0)) (default ∅ moreinfo !! KEY_MTIME))) as D3.
  { unfold d. rewrite lookup_insert_ne by discriminate.
    rewrite lookup_setdefault_ne by (symmetry; apply KEY_MTIME_neq_URI).
    apply lookup_setdefault_eq. }
  destruct (K _ _ D1) as (img & Hi & T1); [discriminate | discriminate |].
  destruct (K _ _ D2) as (img2 & Hi2 & T2); [discriminate | discriminate |].
  destruct (K _ _ D3) as (img3 & Hi3 & T3); [discriminate | discriminate |].
  assert (img2 = img) as -> by congruence. assert (img3 = img) as -> by congruence.
  exists c, n0, b, img. repeat (split; [assumption || reflexivity|]).
  eapply unchanged_trans_nil; [exact Hmk|].
  eapply backend_create_thumbnail_unchanged, Hc.
Qed.

(** After [create_thumbnail] has returned a path, the probe of the
    cache for the same source stops at that path. *)
Lemma created_probe (P : platform) (src : string) (size : size_arg)
      (moreinfo : option (gmap string string)) (app : option string) (w w' : world)
      (p : string) (rest : list size_arg) :
  create_thumbnail P src size moreinfo app w = (Ok (Some p), w') ->
  lacks_mandatory moreinfo ->
  (forall n, w_fs w !! src = Some n -> Z.abs (n_mtime n) < 2 ^ 53) ->
  (m <- _any2mtime (Some src) None ;; try_sizes P src (_any2uri P src) m (size :: rest)) w'
  = (Ok (Some p), w').
Proof.
  intros H [L1 L2] Hsmall.
  apply create_thumbnail_inv in H
    as (c & n0 & b & img & Hc & -> & Hn0 & Hb & Hi & T1 & T2 & _ & Hu).
  rewrite L2 in T1. rewrite L1 in T2. cbn [default from_option] in T1, T2.
  pose proof (build_thumbnail_path_class P src c size Hc) as Hp.
  destruct (content_at_node _ _ _ Hi) as (np & Hnp & _).
  destruct (decide (src = thumbnail_path_spec P src c)) as [E|E].
  - rewrite (bind_eq _ _ w' w' (n_mtime np)).
    + apply probe_hit; [assumption | now exists np | now left].
    + apply any2mtime_current. now rewrite E at 1.
  - assert (w_fs w' !! src = Some n0) as Hs.
    { apply Hu; [assumption|]. intros [?|[]]. congruence. }
    rewrite (bind_eq _ _ _ _ _ (any2mtime_current src w' n0 Hs)).
    apply probe_hit; [assumption | now exists np | right].
    destruct (valid_after_write P b _ w' img (n_mtime n0) (_any2uri P src) Hb Hi T1 T2
                (Hsmall _ Hn0)) as [_ V].
    now rewrite V, String.eqb_refl, Z.eqb_refl.
Qed.

(** X2. A thumbnail that [create_thumbnail] has just generated is the
    answer of [try_get_thumbnail] for the same source and size. *)
Theorem created_thumbnail_is_found (P : platform) (src : string) (size : size_arg)
        (moreinfo : option (gmap string string)) (app : option string) (w w' : world)
        (p : string) :
  create_thumbnail P src size moreinfo app w = (Ok (Some p), w') ->
  lacks_mandatory moreinfo ->
  (forall n, w_fs w !! src = Some n -> Z.abs (n_mtime n) < 2 ^ 53) ->
  try_get_thumbnail P src (Some size) None w' = (Ok (Some p), w').
Proof. intros H L Hs. exact (created_probe P src size moreinfo app w w' p [] H L Hs). Qed.

Lemma created_thumbnail_is_found_witness :
  try_get_thumbnail demo_platform "/tmp/a.jpg" (Some (SizeStr "normal")) None small_world
  = (Ok (Some "/home/u/.cache/thumbnails/normal/fd3d4bbf23a83793d4c47b368af0416e.png"),
     small_world).
Proof.
  apply (created_thumbnail_is_found demo_platform "/tmp/a.jpg" (SizeStr "normal") None None
           demo_world small_world).
  - vm_compute. reflexivity.
  - split; reflexivity.
  - intros n Hn. vm_compute in Hn. injection Hn as <-. vm_compute. reflexivity.
Defined.

Lemma lacks_mandatory_None : lacks_mandatory None.
Proof. split; reflexivity. Qed.

(** X3. [get_thumbnail] called again after it has returned a path
    returns the same path and leaves the world as it is. *)
Theorem get_thumbnail_twice (P : platform) (src : string) (size : option size_arg)
        (app : option string) (w w' : world) (p : string) :
  get_thumbnail P src size app w = (Ok (Some p), w') ->
  (forall n, w_fs w !! src = Some n -> Z.abs (n_mtime n) < 2 ^ 53) ->
  get_thumbnail P src size app w' = (Ok (Some p), w').
Proof.
  intros H Hs. pose proof H as H0. unfold get_thumbnail in H.
  apply bind_ok_inv in H as (t & w1 & Ht & H).
  pose proof (readonly_ok _ _ _ _ (readonly_try_get_thumbnail P src size None) Ht) as ->.
  destruct t as [t|].
  - injection H as <- <-. exact H0.
  - apply bind_ok_inv in H as (failed & w2 & Hf & H).
    assert (w2 = w) as ->.
    { destruct app as [a|]; [|now injection Hf].
      eapply (readonly_ok _ _ _ _ _ Hf). }
    destruct failed; [discriminate|].
    pose proof (created_probe P src _ None app w w' p
                  (match size with None => [SizeStr "normal"] | Some _ => [] end)
                  H lacks_mandatory_None Hs) as Hp.
    unfold get_thumbnail.
    rewrite (bind_eq _ _ w' w' (Some p)); [reflexivity|].
    unfold try_get_thumbnail. destruct size; exact Hp.
  Unshelve.
  apply readonly_bind; [auto with readonly | intros; auto with readonly].
Qed.

Lemma get_thumbnail_twice_witness :
  get_thumbnail demo_platform "/tmp/a.jpg" None (Some "app-1.0") 
    (snd (get_thumbnail demo_platform "/tmp/a.jpg" None (Some "app-1.0") demo_world))
  = (Ok (Some "/home/u/.cache/thumbnails/large/fd3d4bbf23a83793d4c47b368af0416e.png"),
     snd (get_thumbnail demo_platform "/tmp/a.jpg" None (Some "app-1.0") demo_world)).
Proof.
  apply (get_thumbnail_twice demo_platform "/tmp/a.jpg" None (Some "app-1.0") demo_world).
  - vm_compute. reflexivity.
  - intros n Hn. vm_compute in Hn. injection Hn as <-. vm_compute. reflexivity.
Defined.

(** ** Thumbnails pushed by an application *)

Lemma move_content (a b : string) (w w' : world) :
  Os.move a b w = (Ok tt, w') -> content_at w' b = content_at w a.
Proof.
  unfold Os.move, content_at. cbn.
  destruct (w_fs w !! a) as [n|] eqn:Ea; [|discriminate].
  destruct (is_dir n); [discriminate|].
  destruct (String.eqb_spec a b) as [->|Hne]; intros [= <-]; cbn.
  - now rewrite Ea.
  - now rewrite lookup_insert_eq.
Qed.

(** [_mkstemp] leaves the files there were, and names another. *)
Lemma mkstemp_keeps_node (P : platform) (dest : string) (w w' : world) (tmp q : string)
      (n : node) :
  _mkstemp P dest w = (Ok tmp, w') -> w_fs w !! q = Some n ->
  w_fs w' !! q = Some n /\ tmp <> q.
Proof.
  intros H Hq. destruct (keeps_mkstemp P w [] dest w (unchanged_refl _ _)) as [K1 K2].
  rewrite H in K1, K2. cbn [fst snd] in K1, K2. split.
  - apply K1; [assumption | intros []].
  - destruct (K2 tmp eq_refl) as [[]|Hn]. congruence.
Qed.

(** The file [put_thumbnail] works on holds what the caller's file
    held. *)
Lemma put_thumbnail_tmp (P : platform) (dest thumb : string) (w w2 : world) (tmp : string)
      (c0 : content) :
  (if String.eqb dest thumb then
     tmp <- _mkstemp P dest ;; _ <- Os.rename dest tmp ;; ret tmp
   else if String.eqb (Path.dirname dest) (Path.dirname thumb) then ret thumb
   else tmp <- _mkstemp P dest ;; _ <- Os.move thumb tmp ;; ret tmp) w = (Ok tmp, w2) ->
  content_at w thumb = Some c0 ->
  content_at w2 tmp = Some c0.
Proof.
  intros H Hc. destruct (content_at_node _ _ _ Hc) as (n & Hn & Hn').
  destruct (String.eqb_spec dest thumb) as [->|Hne].
  - apply bind_ok_inv in H as (t & w1 & Hm & H).
    apply bind_ok_inv in H as ([] & w3 & Hr & H). injection H as <- <-.
    destruct (mkstemp_keeps_node _ _ _ _ _ _ _ Hm Hn) as [Hn1 _].
    apply rename_content in Hr as [_ ->]. unfold content_at. now rewrite Hn1, <- Hn'.
  - destruct (String.eqb _ _).
    + now injection H as <- <-.
    + apply bind_ok_inv in H as (t & w1 & Hm & H).
      apply bind_ok_inv in H as ([] & w3 & Hr & H). injection H as <- <-.
      destruct (mkstemp_keeps_node _ _ _ _ _ _ _ Hm Hn) as [Hn1 _].
      apply move_content in Hr as ->. unfold content_at. now rewrite Hn1, <- Hn'.
Qed.

(** What a backend's [update_metadata] leaves at the path, when it
    returns. *)
Lemma update_metadata_published (P : platform) (b : backend) (tmp : string)
      (d : gmap string string) (w w' : world) (r : option string) (c0 : content) :
  backend_update_metadata P b tmp d w = (Ok r, w') ->
  content_at w tmp = Some c0 ->
  content_at w' tmp = Some (published b d c0)
  /\ (b = PilBackend -> exists img0, c0 = Picture img0).
Proof.
  unfold backend_update_metadata. intros H Hc.
  rewrite (bind_eq _ _ _ _ _ (read_image_content tmp w)), Hc in H.
  assert (forall out, (d0 <- write_then_rename P tmp out;; ret (Some d0)) w = (Ok r, w') ->
                      content_at w' tmp = Some (Picture out)) as K.
  { intros out Ho. apply bind_ok_inv in Ho as (d0 & w1 & Hw & Hr).
    injection Hr as _ <-. now apply write_then_rename_content in Hw as [_ Hw]. }
  destruct c0 as [|img0|]; destruct b; try discriminate;
    try (injection H as <- <-; split; [exact Hc | discriminate]);
    (split; [now apply K | eauto]).
Qed.

(** What a successful [put_thumbnail] has done. *)
Lemma put_thumbnail_inv (P : platform) (src : string) (size : size_arg) (thumb : string)
      (mtime : option Z) (moreinfo : option (gmap string string)) (w w' : world)
      (p : string) (c0 : content) :
  put_thumbnail P src size thumb mtime moreinfo w = (Ok p, w') ->
  content_at w thumb = Some c0 ->
  exists c b m w2,
    In size (class_aliases c) /\ p = thumbnail_path_spec P src c
    /\ get_backend P = Some b
    /\ _any2mtime (Some src) mtime w2 = (Ok m, w2)
    /\ content_at w' p
       = Some (published b (setdefault KEY_URI (_any2uri P src)
                              (setdefault KEY_MTIME (Num.str m) (default ∅ moreinfo))) c0)
    /\ (b = PilBackend -> exists img0, c0 = Picture img0).
Proof.
  unfold put_thumbnail. intros H Hc0.
  apply bind_ok_inv in H as (dest & w1 & Hdest & H). injection Hdest as Hdest <-.
  apply bind_ok_inv in H as (tmp & w2 & Htmp & H).
  apply (put_thumbnail_tmp _ _ _ _ _ _ c0) in Htmp; [|assumption].
  apply bind_ok_inv in H as (d & w3 & Hd & H).
  apply info_dict_ok in Hd as (-> & m & Hm & ->).
  apply bind_ok_inv in H as (b & w4 & Hb & H).
  apply the_backend_ok in Hb as (Hb & ->).
  apply bind_ok_inv in H as (r & w5 & Hu & H).
  apply bind_ok_inv in H as ([] & w6 & Hch & H).
  apply bind_ok_inv in H as ([] & w7 & Hr & H).
  injection H as <- <-.
  apply build_thumbnail_path_ok in Hdest as (c & Hc & ->).
  destruct (update_metadata_published _ _ _ _ _ _ _ _ Hu Htmp) as [Hp Hpil].
  apply rename_content in Hr as [_ Hr].
  rewrite (chmod_content _ _ _ _ tmp Hch), Hp in Hr.
  now exists c, b, m, w2.
Qed.

Lemma published_lookup (b : backend) (d : gmap string string) (img0 : image) (k v : string) :
  d !! k = Some v -> k <> KEY_WIDTH -> k <> KEY_HEIGHT ->
  exists img, published b d (Picture img0) = Picture img /\ i_text img !! k = Some v.
Proof.
  intros Hk H1 H2. eexists. split; [reflexivity|].
  destruct b; try (rewrite with_size_text_lookup by assumption; now apply setattributes_lookup).
  exact Hk.
Qed.

(** The store's own values of the two mandatory keys. *)
Lemma mandatory_defaults (d : option (gmap string string)) (u t : string) :
  lacks_mandatory d ->
  setdefault KEY_URI u (setdefault KEY_MTIME t (default ∅ d)) !! KEY_MTIME = Some t
  /\ setdefault KEY_URI u (setdefault KEY_MTIME t (default ∅ d)) !! KEY_URI = Some u.
Proof.
  intros [L1 L2]. split.
  - rewrite lookup_setdefault_ne by (symmetry; apply KEY_MTIME_neq_URI).
    now rewrite lookup_setdefault_eq, L2.
  - rewrite lookup_setdefault_eq, lookup_setdefault_ne by apply KEY_MTIME_neq_URI.
    now rewrite L1.
Qed.

Lemma any2mtime_given (src : option string) (m : Z) (w w' : world) (m' : Z) :
  Z.abs m < 2 ^ 53 -> _any2mtime src (Some m) w = (Ok m', w') -> m' = m.
Proof.
  intros Hm. unfold _any2mtime, lift. rewrite (int_float_small m Hm). congruence.
Qed.

Lemma any2mtime_given_eq (src : option string) (m : Z) (w : world) :
  Z.abs m < 2 ^ 53 -> _any2mtime src (Some m) w = (Ok m, w).
Proof. intros Hm. unfold _any2mtime, lift. now rewrite (int_float_small m Hm). Qed.

(** X8. An image handed to [put_thumbnail] with the mtime [m] of its
    source is stored with the canonical URI and [m], and is the answer of
    [try_get_thumbnail] for that source, size and mtime. *)
Theorem put_thumbnail_is_found (P : platform) (src : string) (size : size_arg)
        (thumb : string) (m : Z) (moreinfo : option (gmap string string)) (w w' : world)
        (p : string) (img0 : image) :
  put_thumbnail P src size thumb (Some m) moreinfo w = (Ok p, w') ->
  content_at w thumb = Some (Picture img0) ->
  lacks_mandatory moreinfo ->
  Z.abs m < 2 ^ 53 ->
  thumbnail_info P p w' = (Ok (Some {| info_mtime := m; info_uri := _any2uri P src |}), w')
  /\ try_get_thumbnail P src (Some size) (Some m) w' = (Ok (Some p), w').
Proof.
  intros H Hc L Hm.
  destruct (put_thumbnail_inv _ _ _ _ _ _ _ _ _ _ H Hc)
    as (c & b & m' & w2 & Hs & -> & Hb & Hm' & Hp & _).
  apply (any2mtime_given _ _ _ _ _ Hm) in Hm' as ->.
  destruct (mandatory_defaults moreinfo (_any2uri P src) (Num.str m) L) as [D1 D2].
  destruct (published_lookup b _ img0 _ _ D1) as (img & E & T1); [discriminate..|].
  destruct (published_lookup b _ img0 _ _ D2) as (img' & E' & T2); [discriminate..|].
  assert (img' = img) as -> by congruence. rewrite E in Hp.
  destruct (valid_after_write P b _ w' img m (_any2uri P src) Hb Hp T1 T2 Hm) as [I V].
  split; [exact I|].
  unfold try_get_thumbnail. rewrite (bind_eq _ _ _ _ _ (any2mtime_given_eq _ m w' Hm)).
  destruct (content_at_node _ _ _ Hp) as (np & Hnp & _).
  apply probe_hit; [now apply build_thumbnail_path_class | now exists np | right].
  now rewrite V, String.eqb_refl, Z.eqb_refl.
Qed.

Lemma put_thumbnail_is_found_witness :
  thumbnail_info demo_platform
    "/home/u/.cache/thumbnails/large/667621a20c8e4b6ec0abf069cf1f8298.png" pdf_world
  = (Ok (Some {| info_mtime := 0; info_uri := "http://x/y.pdf" |}), pdf_world)
  /\ try_get_thumbnail demo_platform "http://x/y.pdf" (Some (SizeStr "large")) (Some 0)
       pdf_world
     = (Ok (Some "/home/u/.cache/thumbnails/large/667621a20c8e4b6ec0abf069cf1f8298.png"),
        pdf_world).
Proof.
  apply (put_thumbnail_is_found demo_platform "http://x/y.pdf" (SizeStr "large")
           "/tmp/preview.png" 0 None stocked_world pdf_world _ preview_picture);
    try (vm_compute; reflexivity).
  split; reflexivity.
Defined.

(** X9. With the Qt or the Magick backend, [put_thumbnail] of a file the
    toolkit cannot decode returns all the same: the file is published as
    it is, without metadata, and a later [try_get_thumbnail] for the
    source raises [TypeError]. With PIL, [put_thumbnail] does not
    return. *)
Theorem put_thumbnail_undecodable (P : platform) (src : string) (size : size_arg)
        (thumb : string) (mtime : option Z) (moreinfo : option (gmap string string))
        (w w' : world) (p : string) (m : Z) :
  put_thumbnail P src size thumb mtime moreinfo w = (Ok p, w') ->
  content_at w thumb = Some Bytes ->
  Z.abs m < 2 ^ 53 ->
  get_backend P <> Some PilBackend
  /\ content_at w' p = Some Bytes
  /\ (src <> p ->
      try_get_thumbnail P src (Some size) (Some m) w' = (Raise TypeError, w')).
Proof.
  intros H Hc Hm.
  destruct (put_thumbnail_inv _ _ _ _ _ _ _ _ _ _ H Hc)
    as (c & b & m' & w2 & Hs & -> & Hb & _ & Hp & Hpil).
  cbn [published] in Hp.
  assert (b <> PilBackend) as Hnp by (intros E; destruct (Hpil E); discriminate).
  split; [congruence|]. split; [exact Hp|]. intros Hne.
  unfold try_get_thumbnail. rewrite (bind_eq _ _ _ _ _ (any2mtime_given_eq _ m w' Hm)).
  cbn [try_sizes]. unfold bind at 1, lift.
  rewrite (build_thumbnail_path_class P src c size Hs).
  destruct (content_at_node _ _ _ Hp) as (np & Hnp' & _).
  unfold bind at 1, Os.exists_. rewrite Hnp'.
  destruct (String.eqb_spec src (thumbnail_path_spec P src c)); [contradiction|].
  unfold bind at 1, is_thumbnail_valid, thumbnail_info.
  rewrite (bind_eq _ _ w' w' None); [reflexivity|].
  rewrite (bind_eq _ _ _ _ _ (the_backend_some P w' b Hb)).
  unfold backend_get_info.
  rewrite (bind_eq _ _ _ _ _ (read_image_content _ w')), Hp.
  destruct b; [reflexivity | reflexivity | contradiction].
Qed.

Lemma put_thumbnail_undecodable_witness :
  get_backend qt_platform <> Some PilBackend
  /\ content_at (snd (put_thumbnail qt_platform "http://x/y.pdf" (SizeStr "large")
                        "/tmp/notes.txt" (Some 0) None stocked_world))
       "/home/u/.cache/thumbnails/large/667621a20c8e4b6ec0abf069cf1f8298.png"
     = Some Bytes
  /\ ("http://x/y.pdf"
      <> "/home/u/.cache/thumbnails/large/667621a20c8e4b6ec0abf069cf1f8298.png" ->
      try_get_thumbnail qt_platform "http://x/y.pdf" (Some (SizeStr "large")) (Some 0)
        (snd (put_thumbnail qt_platform "http://x/y.pdf" (SizeStr "large")
                "/tmp/notes.txt" (Some 0) None stocked_world))
      = (Raise TypeError,
         snd (put_thumbnail qt_platform "http://x/y.pdf" (SizeStr "large")
                "/tmp/notes.txt" (Some 0) None stocked_world))).
Proof.
  apply (put_thumbnail_undecodable qt_platform "http://x/y.pdf" (SizeStr "large")
           "/tmp/notes.txt" (Some 0) None stocked_world);
    vm_compute; reflexivity.
Defined.

(** ** Fail markers, missing sources, and what is left alone *)

(** What a successful [put_fail] has done. *)
Lemma put_fail_inv (P : platform) (src appname : string) (mtime : option Z)
      (moreinfo : option (gmap string string)) (w w' : world) (p : string) :
  put_fail P src appname mtime moreinfo w = (Ok p, w') ->
  p = fail_path P src appname
  /\ exists b m w2,
       get_backend P = Some b
       /\ unchanged_except [] w w2
       /\ _any2mtime (Some src) mtime w2 = (Ok m, w2)
       /\ content_at w' p
          = Some (Picture {| i_width := 1; i_height := 1;
                             i_text := setdefault KEY_URI (_any2uri P src)
                                         (setdefault KEY_MTIME (Num.str m)
                                            (default ∅ moreinfo)) |})
       /\ unchanged_except [p] w2 w'.
Proof.
  unfold put_fail. intros H.
  apply bind_ok_inv in H as (isd & w1 & Hisd & H).
  apply (readonly_ok _ _ _ _ (readonly_isdir _)) in Hisd as ->.
  apply bind_ok_inv in H as ([] & w2 & Hmk & H).
  apply ensure_dir_unchanged in Hmk.
  apply bind_ok_inv in H as (d & w3 & Hd & H).
  apply bind_ok_inv in H as (b & w4 & Hb & H).
  apply info_dict_ok in Hd as (-> & m & Hm & ->).
  apply the_backend_ok in Hb as (Hb & ->).
  unfold backend_create_fail in H.
  pose proof (write_then_rename_unchanged _ _ _ _ _ _ H) as Hu.
  apply write_then_rename_content in H as [-> Hc].
  split; [reflexivity|]. now exists b, m, w2.
Qed.

(** Whether a marker the store has written counts for an mtime. *)
Lemma marker_valid (P : platform) (src appname : string) (b : backend)
      (moreinfo : option (gmap string string)) (m m' : Z) (w : world) :
  get_backend P = Some b ->
  content_at w (fail_path P src appname)
  = Some (Picture {| i_width := 1; i_height := 1;
                     i_text := setdefault KEY_URI (_any2uri P src)
                                 (setdefault KEY_MTIME (Num.str m) (default ∅ moreinfo)) |}) ->
  lacks_mandatory moreinfo ->
  Z.abs m < 2 ^ 53 -> Z.abs m' < 2 ^ 53 ->
  is_thumbnail_failed P src appname (Some m') w = (Ok (m =? m'), w).
Proof.
  intros Hb Hc L Hm Hm'.
  destruct (mandatory_defaults moreinfo (_any2uri P src) (Num.str m) L) as [D1 D2].
  destruct (valid_after_write P b _ w _ m (_any2uri P src) Hb Hc D1 D2 Hm) as [_ V].
  rewrite is_thumbnail_failed_unfold by assumption.
  destruct (content_at_node _ _ _ Hc) as (n & -> & _).
  now rewrite V, String.eqb_refl.
Qed.

(** X12. A marker that [put_fail] wrote for mtime [m] makes
    [is_thumbnail_failed] answer [True] for [m] and [False] for every
    other mtime. *)
Theorem put_fail_round_trip (P : platform) (src appname : string) (m m' : Z)
        (moreinfo : option (gmap string string)) (w w' : world) (p : string) :
  put_fail P src appname (Some m) moreinfo w = (Ok p, w') ->
  lacks_mandatory moreinfo ->
  Z.abs m < 2 ^ 53 -> Z.abs m' < 2 ^ 53 ->
  is_thumbnail_failed P src appname (Some m') w' = (Ok (m =? m'), w').
Proof.
  intros H L Hm Hm'.
  apply put_fail_inv in H as (-> & b & m0 & w2 & Hb & _ & Hm0 & Hc & _).
  apply (any2mtime_given _ _ _ _ _ Hm) in Hm0 as ->.
  now apply (marker_valid P src appname b moreinfo).
Qed.

Lemma put_fail_round_trip_witness :
  is_thumbnail_failed demo_platform "/tmp/a.jpg" "app-1.0" (Some 200) marked_world
  = (Ok false, marked_world).
Proof.
  apply (put_fail_round_trip demo_platform "/tmp/a.jpg" "app-1.0" 100 200 None demo_world
           marked_world
           "/home/u/.cache/thumbnails/fail/app-1.0/fd3d4bbf23a83793d4c47b368af0416e.png");
    try (vm_compute; reflexivity).
  split; reflexivity.
Defined.

Lemma thumbnail_path_nonempty (P : platform) (src : string) (c : size_class) :
  Str.is_empty (thumbnail_path_spec P src c) = false.
Proof.
  unfold thumbnail_path_spec.
  destruct (Str.startswith src _) eqn:E.
  - destruct src; [|reflexivity]. unfold Str.startswith in E.
    destruct (size_dir_path P c ++ "/") eqn:E'; [|discriminate].
    apply (f_equal Str.is_empty) in E'. rewrite is_empty_app_r in E' by reflexivity.
    discriminate.
  - rewrite is_empty_app_r; [reflexivity|]. reflexivity.
Qed.

(** What [create_thumbnail] has done when it returns [None] for an app. *)
Lemma create_thumbnail_none_inv (P : platform) (src : string) (size : size_arg)
      (moreinfo : option (gmap string string)) (appname : string) (w w' : world) :
  create_thumbnail P src size moreinfo (Some appname) w = (Ok None, w') ->
  exists n0 w6 p,
    w_fs w !! src = Some n0
    /\ unchanged_except [] w w6
    /\ put_fail P src appname None None w6 = (Ok p, w').
Proof.
  unfold create_thumbnail. intros H.
  apply bind_ok_inv in H as (px & w1 & Hpx & H). injection Hpx as Hpx <-.
  apply bind_ok_inv in H as (filesize & w2 & Hsz & H).
  apply getsize_ok in Hsz as (-> & n0 & Hn0 & ->).
  apply bind_ok_inv in H as (dest & w3 & Hdest & H). injection Hdest as Hdest <-.
  apply bind_ok_inv in H as (d & w4 & Hd & H).
  apply (readonly_ok _ _ _ _ (readonly_info_dict _ _ _ _)) in Hd as ->.
  apply bind_ok_inv in H as (isd & w5 & Hisd & H).
  apply (readonly_ok _ _ _ _ (readonly_isdir _)) in Hisd as ->.
  apply bind_ok_inv in H as ([] & w6 & Hmk & H).
  apply ensure_dir_unchanged in Hmk.
  apply bind_ok_inv in H as (b & w7 & Hb & H).
  apply the_backend_ok in Hb as (Hb & ->).
  apply bind_ok_inv in H as (r & w8 & Hc & H).
  apply build_thumbnail_path_ok in Hdest as (c & _ & ->).
  assert (r = None /\ w8 = w6) as [-> ->].
  { unfold backend_create_thumbnail in Hc.
    apply bind_ok_inv in Hc as (o & w9 & Ho & Hc).
    apply (readonly_ok _ _ _ _ (readonly_read_image _)) in Ho as ->.
    destruct o as [img0|]; [|now injection Hc].
    apply bind_ok_inv in Hc as (d0 & w10 & Hw & Hr). injection Hr as <- <-.
    apply write_then_rename_content in Hw as [-> _].
    cbn [truthy] in H. rewrite thumbnail_path_nonempty in H. discriminate. }
  cbn [truthy] in H.
  apply bind_ok_inv in H as (p & w9 & Hp & H). injection H as <-.
  now exists n0, w6, p.
Qed.

(** X13. When [create_thumbnail] returns [None] for an app, the failure
    is on record for the mtime the source has: [is_thumbnail_failed]
    answers [True], and a [get_thumbnail] that finds no thumbnail returns
    [None] and leaves the world as it is. *)
Theorem failed_generation_is_recorded (P : platform) (src : string) (size : size_arg)
        (moreinfo : option (gmap string string)) (appname : string) (w w' : world) :
  create_thumbnail P src size moreinfo (Some appname) w = (Ok None, w') ->
  src <> fail_path P src appname ->
  (forall n, w_fs w !! src = Some n -> Z.abs (n_mtime n) < 2 ^ 53) ->
  is_thumbnail_failed P src appname None w' = (Ok true, w')
  /\ (forall osize,
        fst (try_get_thumbnail P src osize None w') = Ok None ->
        get_thumbnail P src osize (Some appname) w' = (Ok None, w')).
Proof.
  intros H Hne Hs.
  apply create_thumbnail_none_inv in H as (n0 & w6 & p & Hn0 & H6 & H).
  apply put_fail_inv in H as (-> & b & m & w2 & Hb & H2 & Hm & Hc & Hu).
  assert (w_fs w2 !! src = Some n0) as Hn2.
  { apply H2; [|intros []]. apply H6; [assumption | intros []]. }
  rewrite (any2mtime_current src w2 n0 Hn2) in Hm. injection Hm as <-.
  assert (w_fs w' !! src = Some n0) as Hn'.
  { apply Hu; [assumption|]. intros [?|[]]. congruence. }
  pose proof (marker_valid P src appname b None (n_mtime n0) (n_mtime n0) w' Hb Hc
                lacks_mandatory_None (Hs _ Hn0) (Hs _ Hn0)) as V.
  rewrite Z.eqb_refl in V.
  assert (is_thumbnail_failed P src appname None w' = (Ok true, w')) as F.
  { unfold is_thumbnail_failed in *.
    rewrite (bind_eq _ _ _ _ _ (any2mtime_current src w' n0 Hn')).
    rewrite (bind_eq _ _ _ _ _ (any2mtime_given_eq (Some src) _ w' (Hs _ Hn0))) in V.
    exact V. }
  split; [exact F|]. intros osize Ht. unfold get_thumbnail.
  rewrite (bind_eq _ _ w' w' None).
  - rewrite (bind_eq _ _ w' w' true); [reflexivity|].
    now rewrite (bind_eq _ _ _ _ _ (any2mtime_current src w' n0 Hn')).
  - rewrite readonly_eq by apply readonly_try_get_thumbnail. now rewrite Ht.
Qed.

Lemma failed_generation_is_recorded_witness :
  is_thumbnail_failed demo_platform "/tmp/notes.txt" "app-1.0" None refused_world
  = (Ok true, refused_world)
  /\ (forall osize,
        fst (try_get_thumbnail demo_platform "/tmp/notes.txt" osize None refused_world)
        = Ok None ->
        get_thumbnail demo_platform "/tmp/notes.txt" osize (Some "app-1.0") refused_world
        = (Ok None, refused_world)).
Proof.
  apply (failed_generation_is_recorded demo_platform "/tmp/notes.txt" (SizeStr "large") None
           "app-1.0" desk_world refused_world).
  - vm_compute. reflexivity.
  - vm_compute. discriminate.
  - intros n Hn. vm_compute in Hn. injection Hn as <-. vm_compute. reflexivity.
Defined.

(** X14. Without an mtime argument the mtime is read from the file the
    source names: for a source that is no file, the probes and
    [get_thumbnail] raise [OSError] and leave the world as it is, and
    [_info_dict] raises even when the caller supplies [Thumb::MTime]. *)
Theorem missing_source_raises (P : platform) (src appname : string)
        (size : option size_arg) (app : option string)
        (moreinfo : option (gmap string string)) (w : world) :
  w_fs w !! src = None ->
  try_get_thumbnail P src size None w = (Raise OSError, w)
  /\ is_thumbnail_failed P src appname None w = (Raise OSError, w)
  /\ get_thumbnail P src size app w = (Raise OSError, w)
  /\ _info_dict P moreinfo None (Some src) w = (Raise OSError, w).
Proof.
  intros H.
  assert (_any2mtime (Some src) None w = (Raise OSError, w)) as E.
  { unfold _any2mtime, Os.getmtime. now rewrite H. }
  assert (try_get_thumbnail P src size None w = (Raise OSError, w)) as T.
  { unfold try_get_thumbnail. now rewrite (bind_raise _ _ _ _ _ E). }
  repeat split.
  - exact T.
  - unfold is_thumbnail_failed. now rewrite (bind_raise _ _ _ _ _ E).
  - unfold get_thumbnail. now rewrite (bind_raise _ _ _ _ _ T).
  - unfold _info_dict. unfold bind at 1. unfold bind at 1. now rewrite E.
Qed.

Lemma missing_source_raises_witness :
  try_get_thumbnail demo_platform "/tmp/gone.jpg" None None demo_world
  = (Raise OSError, demo_world)
  /\ is_thumbnail_failed demo_platform "/tmp/gone.jpg" "app-1.0" None demo_world
     = (Raise OSError, demo_world)
  /\ get_thumbnail demo_platform "/tmp/gone.jpg" None (Some "app-1.0") demo_world
     = (Raise OSError, demo_world)
  /\ _info_dict demo_platform None None (Some "/tmp/gone.jpg") demo_world
     = (Raise OSError, demo_world).
Proof.
  apply (missing_source_raises demo_platform "/tmp/gone.jpg" "app-1.0" None
           (Some "app-1.0") None demo_world).
  vm_compute. reflexivity.
Defined.

(** X10. [put_thumbnail] makes no directory: for a file outside the size
    directory, when the directory of the destination does not exist,
    it raises [OSError] and leaves the world as it is. *)
Theorem put_thumbnail_needs_directory (P : platform) (src : string) (size : size_arg)
        (c : size_class) (thumb : string) (mtime : option Z)
        (moreinfo : option (gmap string string)) (w : world) :
  In size (class_aliases c) ->
  thumbnail_path_spec P src c <> thumb ->
  Path.dirname (thumbnail_path_spec P src c) <> Path.dirname thumb ->
  Os.isdir (Path.dirname (thumbnail_path_spec P src c)) w = (Ok false, w) ->
  put_thumbnail P src size thumb mtime moreinfo w = (Raise OSError, w).
Proof.
  intros Hs H1 H2 Hd. unfold put_thumbnail.
  unfold bind at 1, lift. rewrite (build_thumbnail_path_class P src c size Hs).
  destruct (String.eqb_spec (thumbnail_path_spec P src c) thumb); [contradiction|].
  destruct (String.eqb_spec (Path.dirname (thumbnail_path_spec P src c)) (Path.dirname thumb));
    [contradiction|].
  unfold Os.isdir in Hd. injection Hd as Hd.
  unfold bind, _mkstemp, bind, Os.mkstemp.
  destruct (w_fs w !! Path.dirname (thumbnail_path_spec P src c)) as [nd|]; [|reflexivity].
  now rewrite Hd.
Qed.

Lemma put_thumbnail_needs_directory_witness :
  put_thumbnail demo_platform "http://x/y.pdf" (SizeStr "large") "/tmp/preview.png"
    (Some 0) None demo_world
  = (Raise OSError, demo_world).
Proof.
  apply (put_thumbnail_needs_directory demo_platform "http://x/y.pdf" (SizeStr "large")
           Large).
  - cbn. auto.
  - vm_compute. discriminate.
  - vm_compute. discriminate.
  - vm_compute. reflexivity.
Defined.

(** X15. The writing operations leave every file that existed as it was,
    apart from the paths of the cache that belong to the source (and the
    file handed to [put_thumbnail]), whether they return or raise. *)
Theorem writers_leave_other_files (P : platform) (src : string) (size : size_arg)
        (thumb appname : string) (mtime : option Z)
        (moreinfo : option (gmap string string)) (app : option string) (w : world) :
  unchanged_except [fail_path P src appname] w
    (snd (put_fail P src appname mtime moreinfo w))
  /\ unchanged_except (cache_paths P src app) w
       (snd (create_thumbnail P src size moreinfo app w))
  /\ unchanged_except (thumb :: cache_paths P src None) w
       (snd (put_thumbnail P src size thumb mtime moreinfo w))
  /\ unchanged_except [] w (snd (create_temp P size w))
  /\ unchanged_except (map (Path.join (_thumb_path_prefix P)) ["normal"; "large"; "fail"]) w
       (snd (makedirs P w)).
Proof.
  repeat split.
  - eapply keeps_run, keeps_put_fail. left. now left.
  - eapply keeps_run, keeps_create_thumbnail. intros p Hp. now left.
  - eapply keeps_run, keeps_put_thumbnail; [left; now left|].
    intros p Hp. left. now right.
  - eapply keeps_run, keeps_create_temp.
  - eapply keeps_run, keeps_makedirs_loop. intros child Hc. left.
    now apply in_map.
Qed.

(** X16. The queries only look: whatever they return or raise,
    [try_get_thumbnail], [is_thumbnail_failed] and [thumbnail_info] leave
    the files, the pool of temporary names and the log of file-system
    calls as they were. *)
Theorem queries_leave_the_world (P : platform) (src appname thumbnail : string)
        (size : option size_arg) (mtime : option Z) (w : world) :
  snd (try_get_thumbnail P src size mtime w) = w
  /\ snd (is_thumbnail_failed P src appname mtime w) = w
  /\ snd (thumbnail_info P thumbnail w) = w.
Proof.
  repeat split.
  - apply readonly_try_get_thumbnail.
  - apply readonly_is_thumbnail_failed.
  - apply readonly_thumbnail_info.
Qed.

(** ** Temporary files and the layout of the cache *)





Lemma dirname_in_size_dir (P : platform) (c : size_class) (x : string) :
  no_slash x = true ->
  Path.join (size_dir_path P c) x = size_dir_path P c ++ "/" ++ x
  /\ Path.split (size_dir_path P c ++ "/" ++ x) = (size_dir_path P c, x).
Proof.
  intros Hx. destruct (size_dir_path_shape P c) as (_ & Hne & Hsl). split.
  - apply join_plain; auto using no_slash_relative.
  - now apply split_join.
Qed.




(** X22. For a source outside the size directory, the thumbnail lies
    directly in the size directory, under a name of 32 lowercase
    hexadecimal digits followed by [.png]. *)
Theorem thumbnail_path_layout (P : platform) (src : string) (c : size_class)
        (s : size_arg) :
  In s (class_aliases c) ->
  Str.startswith src (size_dir_path P c ++ "/") = false ->
  exists p,
    build_thumbnail_path P src s = Ok p
    /\ Path.split p = (size_dir_path P c, hash_name P src ++ ".png")
    /\ String.length (hash_name P src) = 32%nat
    /\ Forall (fun x => is_lower_hex x = true) (list_ascii_of_string (hash_name P src)).
Proof.
  intros Hs Hout. exists (thumbnail_path_spec P src c).
  split; [now apply build_thumbnail_path_class|].
  unfold thumbnail_path_spec. rewrite Hout. unfold hash_name. split; [|apply hexdigest_shape].
  apply dirname_in_size_dir, no_slash_hexdigest.
Qed.

Lemma thumbnail_path_layout_witness :
  exists p,
    build_thumbnail_path demo_platform "/tmp/a.jpg" (SizeInt 256) = Ok p
    /\ Path.split p
       = (size_dir_path demo_platform Large, hash_name demo_platform "/tmp/a.jpg" ++ ".png")
    /\ String.length (hash_name demo_platform "/tmp/a.jpg") = 32%nat
    /\ Forall (fun x => is_lower_hex x = true)
              (list_ascii_of_string (hash_name demo_platform "/tmp/a.jpg")).
Proof.
  apply (thumbnail_path_layout demo_platform "/tmp/a.jpg" Large (SizeInt 256)).
  - cbn. auto.
  - vm_compute. reflexivity.
Defined.

Lemma thumbnail_path_inside (P : platform) (src : string) (c : size_class) :
  Str.startswith (thumbnail_path_spec P src c) (size_dir_path P c ++ "/") = true.
Proof.
  unfold thumbnail_path_spec. destruct (Str.startswith src _) eqn:E; [exact E|].
  rewrite <- append_assoc. apply prefix_app.
Qed.

(** X23. The thumbnail of a thumbnail is the thumbnail itself: a path
    [build_thumbnail_path] returns is returned unchanged when it is given
    as the source, and, when the file exists, [try_get_thumbnail] answers
    with it without looking at its metadata. *)
Theorem thumbnail_of_thumbnail (P : platform) (src : string) (s : size_arg) (p : string) :
  build_thumbnail_path P src s = Ok p ->
  build_thumbnail_path P p s = Ok p
  /\ (forall w mtime m,
        is_Some (w_fs w !! p) ->
        fst (_any2mtime (Some p) mtime w) = Ok m ->
        try_get_thumbnail P p (Some s) mtime w = (Ok (Some p), w)).
Proof.
  intros H. apply build_thumbnail_path_ok in H as (c & Hs & ->).
  assert (build_thumbnail_path P (thumbnail_path_spec P src c) s
          = Ok (thumbnail_path_spec P src c)) as E.
  { rewrite (build_thumbnail_path_class P _ c s Hs).
    unfold thumbnail_path_spec at 1. now rewrite thumbnail_path_inside. }
  split; [exact E|]. intros w mtime m Hex Hm.
  unfold try_get_thumbnail. rewrite (bind_eq _ _ w w m).
  - apply probe_hit; [exact E | exact Hex | now left].
  - rewrite readonly_eq by apply readonly_any2mtime. now rewrite Hm.
Qed.

Lemma thumbnail_of_thumbnail_witness :
  build_thumbnail_path demo_platform
    "/home/u/.cache/thumbnails/large/fd3d4bbf23a83793d4c47b368af0416e.png" (SizeStr "large")
  = Ok "/home/u/.cache/thumbnails/large/fd3d4bbf23a83793d4c47b368af0416e.png"
  /\ (forall w mtime m,
        is_Some (w_fs w
                   !! "/home/u/.cache/thumbnails/large/fd3d4bbf23a83793d4c47b368af0416e.png") ->
        fst (_any2mtime
               (Some "/home/u/.cache/thumbnails/large/fd3d4bbf23a83793d4c47b368af0416e.png")
               mtime w) = Ok m ->
        try_get_thumbnail demo_platform
          "/home/u/.cache/thumbnails/large/fd3d4bbf23a83793d4c47b368af0416e.png"
          (Some (SizeStr "large")) mtime w
        = (Ok (Some "/home/u/.cache/thumbnails/large/fd3d4bbf23a83793d4c47b368af0416e.png"),
           w)).
Proof.
  apply (thumbnail_of_thumbnail demo_platform "/tmp/a.jpg" (SizeStr "large")).
  vm_compute. reflexivity.
Defined.

Lemma pil_create_thumbnail_size_keys (P : platform) (src dest : string) (size : Z)
      (d : gmap string string) (w w' : world) (r : string) :
  backend_create_thumbnail P PilBackend src dest size d w = (Ok (Some r), w') ->
  exists img0 img,
    content_at w src = Some (Picture img0)
    /\ content_at w' dest = Some (Picture img)
    /\ i_text img !! KEY_WIDTH = Some (Num.str (i_width img0))
    /\ i_text img !! KEY_HEIGHT = Some (Num.str (i_height img0)).
Proof.
  unfold backend_create_thumbnail. intros H.
  rewrite (bind_eq _ _ _ _ _ (read_image_content src w)) in H.
  destruct (content_at w src) as [[|img0|]|]; try discriminate.
  apply bind_ok_inv in H as (d0 & w1 & Hw & Hr). injection Hr as _ <-.
  apply write_then_rename_content in Hw as [_ Hw].
  exists img0. eexists. split; [reflexivity|]. split; [exact Hw|].
  unfold with_size_text. cbn [i_text]. split.
  - rewrite lookup_insert_ne by discriminate. apply lookup_insert_eq.
  - apply lookup_insert_eq.
Qed.

(** X7. Whatever the caller supplies, a generated thumbnail carries the
    byte size of the source under [Thumb::Size], and with the PIL backend
    the pixel size of the source under [Thumb::Image::Width] and
    [Thumb::Image::Height]. *)
Theorem create_thumbnail_metadata (P : platform) (src : string) (size : size_arg)
        (moreinfo : option (gmap string string)) (app : option string) (w w' : world)
        (p : string) :
  create_thumbnail P src size moreinfo app w = (Ok (Some p), w') ->
  exists n0 img0 img,
    w_fs w !! src = Some n0 /\ n_content n0 = Picture img0
    /\ content_at w' p = Some (Picture img)
    /\ i_text img !! KEY_SIZE = Some (Num.str (n_size n0))
    /\ (get_backend P = Some PilBackend ->
        i_text img !! KEY_WIDTH = Some (Num.str (i_width img0))
        /\ i_text img !! KEY_HEIGHT = Some (Num.str (i_height img0))).
Proof.
  intros H. pose proof H as H0.
  apply create_thumbnail_inv in H0 as (c & n0 & b & img & _ & -> & Hn0 & Hb & Hi & _ & _ & T & _).
  apply create_thumbnail_steps in H as (c' & n0' & b' & w6 & _ & Hp & Hn0' & Hb' & Hmk & Hc).
  assert (n0' = n0) as -> by congruence. assert (b' = b) as -> by congruence.
  assert (exists img0, n_content n0 = Picture img0) as [img0 Himg0].
  { unfold backend_create_thumbnail in Hc.
    rewrite (bind_eq _ _ _ _ _ (read_image_content src w6)) in Hc.
    unfold content_at in Hc. rewrite (Hmk src n0 Hn0 (fun x => x)) in Hc. cbn in Hc.
    destruct (n_content n0) as [|img0|]; try discriminate. now exists img0. }
  exists n0, img0, img. repeat (split; [assumption|]).
  intros E. rewrite E in Hb. injection Hb as <-.
  apply pil_create_thumbnail_size_keys in Hc as (i0 & i & Hs & Hd & T1 & T2).
  unfold content_at in Hs. rewrite (Hmk src n0 Hn0 (fun x => x)) in Hs. cbn in Hs.
  rewrite Hd in Hi. split; congruence.
Qed.

Lemma create_thumbnail_metadata_witness :
  exists n0 img0 img,
    w_fs demo_world !! "/tmp/a.jpg" = Some n0 /\ n_content n0 = Picture img0
    /\ content_at cached_world
         "/home/u/.cache/thumbnails/large/fd3d4bbf23a83793d4c47b368af0416e.png"
       = Some (Picture img)
    /\ i_text img !! KEY_SIZE = Some (Num.str (n_size n0))
    /\ (get_backend demo_platform = Some PilBackend ->
        i_text img !! KEY_WIDTH = Some (Num.str (i_width img0))
        /\ i_text img !! KEY_HEIGHT = Some (Num.str (i_height img0))).
Proof.
  apply (create_thumbnail_metadata demo_platform "/tmp/a.jpg" (SizeStr "large") None None
           demo_world cached_world).
  vm_compute. reflexivity.
Defined.



(** X11. [put_thumbnail] has moved the caller's file before the backend
    opens it: with the PIL backend, a file that is not an image and lies
    outside the directory of the destination makes [put_thumbnail] raise,
    and the file is then no longer where the caller put it, but in the
    temporary file made beside the destination. *)
Theorem put_thumbnail_moves_before_failing (P : platform) (src : string) (size : size_arg)
        (c : size_class) (thumb : string) (mtime : option Z)
        (moreinfo : option (gmap string string)) (w w1 : world) (tmp : string) :
  get_backend P = Some PilBackend ->
  In size (class_aliases c) ->
  content_at w thumb = Some Bytes ->
  thumbnail_path_spec P src c <> thumb ->
  Path.dirname (thumbnail_path_spec P src c) <> Path.dirname thumb ->
  _mkstemp P (thumbnail_path_spec P src c) w = (Ok tmp, w1) ->
  raised (fst (put_thumbnail P src size thumb mtime moreinfo w))
  /\ w_fs (snd (put_thumbnail P src size thumb mtime moreinfo w)) !! thumb = None
  /\ content_at (snd (put_thumbnail P src size thumb mtime moreinfo w)) tmp = Some Bytes.
Proof.
  intros Hb Hs Hc H1 H2 Hm.
  destruct (content_at_node _ _ _ Hc) as (nt & Hnt & Hbytes).
  destruct (mkstemp_keeps_node _ _ _ _ _ _ _ Hm Hnt) as [Hnt1 Hne].
  assert (exists w2, Os.move thumb tmp w1 = (Ok tt, w2)
                     /\ w_fs w2 !! thumb = None /\ content_at w2 tmp = Some Bytes)
    as (w2 & Hmv & Hgone & Htmp).
  { unfold Os.move. cbn. rewrite Hnt1. unfold is_dir. rewrite Hbytes.
    destruct (String.eqb_spec thumb tmp); [congruence|].
    eexists. split; [reflexivity|]. cbn. split.
    - rewrite lookup_insert_ne by assumption. apply lookup_delete_eq.
    - unfold content_at. cbn. rewrite lookup_insert_eq. cbn. now rewrite Hbytes. }
  assert (exists e, put_thumbnail P src size thumb mtime moreinfo w = (Raise e, w2))
    as [e ->]; [|cbn [fst snd]; repeat split; [now exists e | assumption | assumption]].
  unfold put_thumbnail.
  unfold bind at 1, lift. rewrite (build_thumbnail_path_class P src c size Hs).
  destruct (String.eqb_spec (thumbnail_path_spec P src c) thumb); [contradiction|].
  destruct (String.eqb_spec (Path.dirname (thumbnail_path_spec P src c)) (Path.dirname thumb));
    [contradiction|].
  unfold bind at 1. unfold bind at 1. rewrite Hm.
  unfold bind at 1. rewrite Hmv. unfold ret at 1.
  unfold bind at 1.
  destruct (_info_dict P moreinfo mtime (Some src) w2) as [[d|e] w3] eqn:Ed.
  - apply (readonly_ok _ _ _ _ (readonly_info_dict _ _ _ _)) in Ed as ->.
    rewrite (bind_eq _ _ _ _ _ (the_backend_some P w2 _ Hb)).
    unfold bind at 1, backend_update_metadata.
    rewrite (bind_eq _ _ _ _ _ (read_image_content tmp w2)), Htmp.
    now exists OSError.
  - apply (readonly_ok _ _ _ _ (readonly_info_dict _ _ _ _)) in Ed as ->.
    now exists e.
Qed.

Lemma put_thumbnail_moves_before_failing_witness :
  raised (fst (put_thumbnail demo_platform "http://x/y.pdf" (SizeStr "large")
                 "/tmp/notes.txt" (Some 0) None stocked_world))
  /\ w_fs (snd (put_thumbnail demo_platform "http://x/y.pdf" (SizeStr "large")
                  "/tmp/notes.txt" (Some 0) None stocked_world)) !! "/tmp/notes.txt" = None
  /\ content_at (snd (put_thumbnail demo_platform "http://x/y.pdf" (SizeStr "large")
                        "/tmp/notes.txt" (Some 0) None stocked_world))
       "/home/u/.cache/thumbnails/large/tmpaaaaaaaa.png" = Some Bytes.
Proof.
  apply (put_thumbnail_moves_before_failing demo_platform "http://x/y.pdf"
           (SizeStr "large") Large "/tmp/notes.txt" (Some 0) None stocked_world
           (snd (_mkstemp demo_platform
                   (thumbnail_path_spec demo_platform "http://x/y.pdf" Large)
                   stocked_world)));
    try (vm_compute; reflexivity).
  - cbn. auto.
  - vm_compute. discriminate.
  - vm_compute. discriminate.
Defined.

(** ** [makedirs()] *)

Lemma mkdir_ok (P : platform) (p : string) (mode : Z) (w w' : world) :
  Os.mkdir P p mode w = (Ok tt, w') ->
  w_fs w !! p = None
  /\ w_fs w' = <[p := {| n_content := Directory; n_mode := Z.ldiff mode (umask P);
                         n_mtime := now P; n_size := 4096 |}]> (w_fs w).
Proof.
  unfold Os.mkdir. cbn. destruct (w_fs w !! p); [discriminate|].
  destruct (Os.parent_is_dir _ _); [|discriminate]. now intros [= <-].
Qed.

Lemma mkdir_raises (P : platform) (p : string) (mode : Z) (w w' : world) (e : exn) :
  Os.mkdir P p mode w = (Raise e, w') -> e = OSError.
Proof.
  unfold Os.mkdir. cbn. destruct (w_fs w !! p); [now intros [= <-]|].
  destruct (Os.parent_is_dir _ _); [discriminate | now intros [= <-]].
Qed.

Lemma makedirs_rec_raises (P : platform) (fuel : nat) (name : string) (mode : Z)
      (w w' : world) (e : exn) :
  Os.makedirs_rec P fuel name mode w = (Raise e, w') -> e = OSError.
Proof.
  revert name mode w w'. induction fuel as [|fuel IH]; intros name mode w w';
    cbn [Os.makedirs_rec].
  - now intros [= <-].
  - destruct (Path.split name) as [head tail].
    destruct (if Str.is_empty tail then Path.split head else (head, tail)) as [head' tail'].
    destruct (negb (Str.is_empty head') && negb (Str.is_empty tail'));
      [|apply mkdir_raises].
    unfold bind at 1, Os.exists_.
    destruct (w_fs w !! head'); [apply mkdir_raises|].
    intros H. apply bind_inv in H as [([] & w1 & _ & H)|(e' & H & [= ->])].
    + destruct (String.eqb tail' "."); [discriminate | eapply mkdir_raises, H].
    + eapply IH, H.
Qed.

(** [os.makedirs] of [root/child]: when it returns, the directory is
    new, with the mode asked for less the umask. *)
Lemma makedirs_child_ok (P : platform) (root child : string) (mode : Z) (w w' : world) :
  Str.is_empty root = false -> Str.endswith_slash root = false -> plain_child child ->
  Os.makedirs P (root ++ "/" ++ child) mode w = (Ok tt, w') ->
  w_fs w !! (root ++ "/" ++ child) = None
  /\ w_fs w' !! (root ++ "/" ++ child)
     = Some {| n_content := Directory; n_mode := Z.ldiff mode (umask P);
               n_mtime := now P; n_size := 4096 |}.
Proof.
  intros Hr Hs (Hc1 & Hc2 & Hc3). unfold Os.makedirs. cbn [Os.makedirs_rec].
  rewrite split_join by assumption. rewrite Hc1. cbv iota beta.
  rewrite Hc1, Hr. cbn [negb andb].
  unfold bind at 1, Os.exists_.
  assert (forall w0, Os.mkdir P (root ++ "/" ++ child) mode w0 = (Ok tt, w') ->
            w_fs w0 !! (root ++ "/" ++ child) = None
            /\ w_fs w' !! (root ++ "/" ++ child)
               = Some {| n_content := Directory; n_mode := Z.ldiff mode (umask P);
                         n_mtime := now P; n_size := 4096 |}) as K.
  { intros w0 H. apply mkdir_ok in H as [H1 ->]. split; [assumption | apply lookup_insert_eq]. }
  destruct (w_fs w !! root); [apply K|].
  intros H. apply bind_ok_inv in H as ([] & w1 & H1 & H). rewrite Hc3 in H.
  destruct (K w1 H) as [K1 K2]. split; [|assumption].
  pose proof (keeps_run w [] _ _
                (keeps_makedirs_rec P w [] (String.length (root ++ "/" ++ child)) root 511))
    as U.
  rewrite H1 in U. cbn [snd] in U.
  destruct (w_fs w !! (root ++ "/" ++ child)) as [n|] eqn:E; [|reflexivity].
  rewrite (U _ n E (fun x => x)) in K1. discriminate.
Qed.

Lemma chmod_ok (p : string) (mode : Z) (w w' : world) (r : result unit) :
  Os.chmod p mode w = (r, w') ->
  forall n, w_fs w !! p = Some n ->
  r = Ok tt
  /\ w_fs w' !! p = Some {| n_content := n_content n; n_mode := mode;
                            n_mtime := n_mtime n; n_size := n_size n |}.
Proof.
  unfold Os.chmod. cbn. intros H n Hn. rewrite Hn in H. injection H as <- <-.
  split; [reflexivity|]. cbn. apply lookup_insert_eq.
Qed.

Lemma owner_only_modes (u : Z) : owner_only 448 /\ owner_only (Z.ldiff 448 u).
Proof.
  split; [reflexivity|]. unfold owner_only. apply Z.bits_inj'. intros i Hi.
  rewrite Z.land_spec, Z.ldiff_spec, Z.bits_0.
  assert (Z.testbit 448 i && Z.testbit 63 i = false) as H.
  { rewrite <- Z.land_spec. change (Z.land 448 63) with 0. apply Z.bits_0. }
  destruct (Z.testbit 448 i), (Z.testbit 63 i), (Z.testbit u i); auto.
Qed.

Lemma append_inv_head (a b c : string) : a ++ b = a ++ c -> b = c.
Proof.
  induction a as [|x a IH]; [trivial|]. rewrite !append_cons. intros [= H]. auto.
Qed.

(** One turn of the loop of [makedirs()]. *)
Lemma makedirs_step (P : platform) (root child : string) (w w1 : world) :
  Str.is_empty root = false -> Str.endswith_slash root = false -> plain_child child ->
  (isd <- Os.isdir (Path.join root child) ;;
   if isd then Os.chmod (Path.join root child) 448
   else Os.makedirs P (Path.join root child) 448) w = (Ok tt, w1) ->
  exists n, w_fs w1 !! (root ++ "/" ++ child) = Some n
            /\ is_dir n = true /\ owner_only (n_mode n).
Proof.
  intros Hr Hs Hc. pose proof Hc as (_ & Hc2 & _).
  rewrite join_plain by auto using no_slash_relative.
  unfold bind, Os.isdir.
  destruct (w_fs w !! (root ++ "/" ++ child)) as [n|] eqn:E.
  - destruct (is_dir n) eqn:Ed.
    + intros H. destruct (chmod_ok _ _ _ _ _ H n E) as [_ H1].
      eexists. split; [exact H1|]. split; [exact Ed | reflexivity].
    + intros H. apply makedirs_child_ok in H as [H _]; [congruence | assumption..].
  - intros H. apply makedirs_child_ok in H as [_ H]; [|assumption..].
    eexists. split; [exact H|]. split; [reflexivity | apply owner_only_modes].
Qed.

Lemma makedirs_step_unchanged (P : platform) (root child : string) (w w1 : world)
      (r : result unit) :
  (isd <- Os.isdir (Path.join root child) ;;
   if isd then Os.chmod (Path.join root child) 448
   else Os.makedirs P (Path.join root child) 448) w = (r, w1) ->
  unchanged_except [Path.join root child] w w1.
Proof.
  intros H.
  assert (keeps w [Path.join root child]
            (isd <- Os.isdir (Path.join root child) ;;
             if isd then Os.chmod (Path.join root child) 448
             else Os.makedirs P (Path.join root child) 448) (fun _ => True)) as K.
  { eapply keeps_bind; [apply keeps_readonly, readonly_isdir | intros isd _].
    destruct isd; [apply keeps_chmod; left; now left | apply keeps_makedirs]. }
  apply keeps_run in K. now rewrite H in K.
Qed.

Lemma makedirs_step_raises (P : platform) (root child : string) (w w1 : world) (e : exn) :
  (isd <- Os.isdir (Path.join root child) ;;
   if isd then Os.chmod (Path.join root child) 448
   else Os.makedirs P (Path.join root child) 448) w = (Raise e, w1) ->
  e = OSError.
Proof.
  unfold bind, Os.isdir.
  destruct (match w_fs w !! Path.join root child with
            | Some n => is_dir n | None => false end).
  - unfold Os.chmod. cbn. destruct (w_fs w !! Path.join root child); [discriminate|].
    now intros [= <-].
  - apply makedirs_rec_raises.
Qed.

Lemma makedirs_loop_unfold (P : platform) (root child : string) (rest : list string) :
  makedirs_loop P root (child :: rest)
  = (_ <- (isd <- Os.isdir (Path.join root child) ;;
           if isd then Os.chmod (Path.join root child) 448
           else Os.makedirs P (Path.join root child) 448) ;;
     makedirs_loop P root rest).
Proof.
  cbn [makedirs_loop]. unfold bind. reflexivity.
Qed.

(** The loop of [makedirs()], when it returns. *)
Lemma makedirs_loop_ok (P : platform) (root : string) (children : list string)
      (w w' : world) :
  Str.is_empty root = false -> Str.endswith_slash root = false ->
  Forall plain_child children -> List.NoDup children ->
  makedirs_loop P root children w = (Ok tt, w') ->
  forall child, In child children ->
  exists n, w_fs w' !! (root ++ "/" ++ child) = Some n
            /\ is_dir n = true /\ owner_only (n_mode n).
Proof.
  intros Hr Hs HF. revert w. induction HF as [|c rest Hc HF IH]; intros w HN H child [].
  - subst c. rewrite makedirs_loop_unfold in H. apply bind_ok_inv in H as ([] & w1 & H1 & H).
    destruct (makedirs_step P root child w w1 Hr Hs Hc H1) as (n & Hn & Hd & Hm).
    exists n. split; [|now split].
    pose proof (keeps_run w1 (map (Path.join root) rest) _ _
                  (keeps_makedirs_loop P w1 _ root rest
                     (fun ch Hch => or_introl (in_map _ _ _ Hch)))) as U.
    rewrite H in U. cbn [snd] in U. apply U; [assumption|].
    intros Hin. apply in_map_iff in Hin as (ch & E & Hch).
    pose proof Hc as (_ & Hc2 & _).
    assert (plain_child ch) as (_ & Hch2 & _)
      by exact (proj1 (List.Forall_forall _ _) HF ch Hch).
    rewrite join_plain in E by auto using no_slash_relative.
    apply append_inv_head, append_inv_head in E. subst ch.
    inversion HN; contradiction.
  - rewrite makedirs_loop_unfold in H. apply bind_ok_inv in H as ([] & w1 & _ & H).
    inversion HN; subst. now apply (IH w1).
Qed.

(** The loop of [makedirs()] in front of a file that has the name of
    one of the directories. *)
Lemma makedirs_loop_blocked (P : platform) (root : string) (children : list string)
      (w : world) (child : string) (n : node) :
  Str.is_empty root = false -> Str.endswith_slash root = false ->
  Forall plain_child children -> List.NoDup children ->
  In child children ->
  w_fs w !! (root ++ "/" ++ child) = Some n -> is_dir n = false ->
  fst (makedirs_loop P root children w) = Raise OSError.
Proof.
  intros Hr Hs HF. revert w.
  induction HF as [|c rest Hc HF IH]; intros w HN Hin Hn Hd; [destruct Hin|].
  rewrite makedirs_loop_unfold. unfold bind at 1.
  destruct ((isd <- Os.isdir (Path.join root c) ;;
             if isd then Os.chmod (Path.join root c) 448
             else Os.makedirs P (Path.join root c) 448) w) as [[[]|e] w1] eqn:E.
  - destruct Hin as [->|Hin].
    + exfalso. destruct (makedirs_step P root child w w1 Hr Hs Hc E) as (n1 & Hn1 & Hd1 & _).
      revert E. pose proof Hc as (_ & Hc2 & _).
      rewrite join_plain by auto using no_slash_relative.
      unfold bind, Os.isdir. rewrite Hn, Hd.
      intros E. apply makedirs_child_ok in E as [E _]; [congruence | assumption..].
    + inversion HN; subst. apply (IH w1); try assumption.
      apply (makedirs_step_unchanged _ _ _ _ _ _ E); [assumption|].
      intros [E'|[]]. pose proof Hc as (_ & Hc2 & _).
      rewrite join_plain in E' by auto using no_slash_relative.
      apply append_inv_head, append_inv_head in E'. subst c. contradiction.
  - cbn [fst]. f_equal. eapply makedirs_step_raises, E.
Qed.

Lemma cache_children_plain :
  Forall plain_child ["normal"; "large"; "fail"] /\ List.NoDup ["normal"; "large"; "fail"].
Proof.
  split.
  - repeat constructor.
  - repeat constructor; cbn; intuition discriminate.
Qed.

(** X20. When [makedirs()] returns, the three directories of the cache
    exist, are directories, and give no permission to the group or to
    others. *)
Theorem makedirs_makes_private_directories (P : platform) (w w' : world) (child : string) :
  makedirs P w = (Ok tt, w') ->
  In child ["normal"; "large"; "fail"] ->
  exists n, w_fs w' !! (_thumb_path_prefix P ++ "/" ++ child) = Some n
            /\ is_dir n = true /\ owner_only (n_mode n).
Proof.
  intros H Hin. destruct (thumb_path_prefix_shape P) as [Hr Hs].
  destruct cache_children_plain as [HF HN].
  exact (makedirs_loop_ok P _ _ w w' Hr Hs HF HN H child Hin).
Qed.

Lemma makedirs_makes_private_directories_witness :
  exists n, w_fs stocked_world !! (_thumb_path_prefix demo_platform ++ "/" ++ "fail") = Some n
            /\ is_dir n = true /\ owner_only (n_mode n).
Proof.
  apply (makedirs_makes_private_directories demo_platform desk_world stocked_world "fail").
  - vm_compute. reflexivity.
  - cbn. auto.
Defined.

(** X21. [makedirs()] does not replace a file: when one of the three
    directory names is taken by a file that is not a directory, it raises
    [OSError]. *)
Theorem makedirs_blocked_by_file (P : platform) (w : world) (child : string) (n : node) :
  In child ["normal"; "large"; "fail"] ->
  w_fs w !! (_thumb_path_prefix P ++ "/" ++ child) = Some n ->
  is_dir n = false ->
  fst (makedirs P w) = Raise OSError.
Proof.
  intros Hin Hn Hd. destruct (thumb_path_prefix_shape P) as [Hr Hs].
  destruct cache_children_plain as [HF HN].
  exact (makedirs_loop_blocked P _ _ w child n Hr Hs HF HN Hin Hn Hd).
Qed.

Lemma makedirs_blocked_by_file_witness :
  fst (makedirs demo_platform blocked_world) = Raise OSError.
Proof.
  apply (makedirs_blocked_by_file demo_platform blocked_world "large"
           {| n_content := Bytes; n_mode := 420; n_mtime := 1200; n_size := 40 |}).
  - cbn. auto.
  - vm_compute. reflexivity.
  - reflexivity.
Defined.

(** ** Validity follows the source *)

(** X1. The mtime [_info_dict] writes with [str] is the mtime every
    backend's [get_info] reads with [int(float(.))]: for a whole number
    of seconds [m] below [2^53], an image that carries [str(m)] and a URI
    is read as [m] and that URI. *)
Theorem written_mtime_reads_back (b : backend) (p : string) (w : world) (img : image)
        (m : Z) (u : string) :
  content_at w p = Some (Picture img) ->
  i_text img !! KEY_MTIME = Some (Num.str m) -> i_text img !! KEY_URI = Some u ->
  Z.abs m < 2 ^ 53 ->
  Num.int_float_str (Num.str m) = Ok m
  /\ backend_get_info b p w = (Ok (Some {| info_mtime := m; info_uri := u |}), w).
Proof.
  intros Hc Ht Hu Hm. split; [now apply int_float_str_small|].
  eapply get_info_written; eauto using str_nonempty, int_float_str_small.
Qed.

Lemma written_mtime_reads_back_witness :
  backend_get_info QtBackend
    "/home/u/.cache/thumbnails/large/fd3d4bbf23a83793d4c47b368af0416e.png" foreign_world
  = (Ok (Some {| info_mtime := 1000; info_uri := "http://other.example/x" |}), foreign_world).
Proof.
  apply (written_mtime_reads_back QtBackend _ foreign_world foreign_picture 1000
           "http://other.example/x"); vm_compute; reflexivity.
Defined.

(** X4. A thumbnail is not served once its source has another mtime:
    after [create_thumbnail], in any world where the thumbnail file is as
    it was written and the source has another mtime, [try_get_thumbnail]
    for the size returns [None]. *)
Theorem modified_source_invalidates (P : platform) (src : string) (size : size_arg)
        (moreinfo : option (gmap string string)) (app : option string) (w w' w'' : world)
        (p : string) (n0 n2 : node) :
  create_thumbnail P src size moreinfo app w = (Ok (Some p), w') ->
  lacks_mandatory moreinfo ->
  src <> p ->
  w_fs w !! src = Some n0 -> Z.abs (n_mtime n0) < 2 ^ 53 ->
  w_fs w'' !! p = w_fs w' !! p ->
  w_fs w'' !! src = Some n2 -> n_mtime n2 <> n_mtime n0 ->
  try_get_thumbnail P src (Some size) None w'' = (Ok None, w'').
Proof.
  intros H [L1 L2] Hne Hn0 Hsmall Hp Hn2 Hm.
  apply create_thumbnail_inv in H
    as (c & n0' & b & img & Hc & -> & Hn0' & Hb & Hi & T1 & T2 & _ & _).
  assert (n0' = n0) as -> by congruence.
  rewrite L2 in T1. rewrite L1 in T2. cbn [default from_option] in T1, T2.
  assert (content_at w'' (thumbnail_path_spec P src c) = Some (Picture img)) as Hi''.
  { unfold content_at in *. now rewrite Hp. }
  destruct (valid_after_write P b _ w'' img (n_mtime n0) (_any2uri P src) Hb Hi'' T1 T2 Hsmall)
    as [_ V].
  unfold try_get_thumbnail.
  rewrite (bind_eq _ _ _ _ _ (any2mtime_current src w'' n2 Hn2)).
  cbn [try_sizes]. unfold bind at 1, lift.
  rewrite (build_thumbnail_path_class P src c size Hc).
  destruct (content_at_node _ _ _ Hi'') as (np & Hnp & _).
  unfold bind at 1, Os.exists_. rewrite Hnp.
  destruct (String.eqb_spec src (thumbnail_path_spec P src c)); [contradiction|].
  rewrite (bind_eq _ _ _ _ _ (V _ _)), String.eqb_refl.
  destruct (Z.eqb_spec (n_mtime n0) (n_mtime n2)); [congruence | reflexivity].
Qed.

Lemma modified_source_invalidates_witness :
  try_get_thumbnail demo_platform "/tmp/a.jpg" (Some (SizeStr "large")) None touched_world
  = (Ok None, touched_world).
Proof.
  apply (modified_source_invalidates demo_platform "/tmp/a.jpg" (SizeStr "large") None None
           demo_world cached_world touched_world
           "/home/u/.cache/thumbnails/large/fd3d4bbf23a83793d4c47b368af0416e.png"
           {| n_content := Picture demo_picture; n_mode := 420;
              n_mtime := 1000; n_size := 5000 |}
           {| n_content := Picture demo_picture; n_mode := 420;
              n_mtime := 1001; n_size := 5000 |});
    try (vm_compute; reflexivity); try discriminate.
  split; reflexivity.
Defined.




(** ** The predecessor module *)

Lemma all_digits_acc (d : Decimal.uint) (acc : positive) :
  Legacy.all_digits (Z.pos acc) (list_ascii_of_string (NilEmpty.string_of_uint d))
  = Some (Z.pos (Pos.of_uint_acc d acc)).
Proof.
  revert acc. induction d; intros acc;
    cbn [NilEmpty.string_of_uint list_ascii_of_string Legacy.all_digits Pos.of_uint_acc];
    try reflexivity;
    match goal with
    | |- context [Num.digit_val ?c] =>
        let v := eval vm_compute in (Num.digit_val c) in
        change (Num.digit_val c) with v
    end; cbv iota beta;
    match goal with
    | |- context [Legacy.all_digits ?a ?l] =>
        match goal with
        | |- context [Pos.of_uint_acc d ?acc'] =>
            replace a with (Z.pos acc') by lia
        end
    end; apply IHd.
Qed.

Lemma all_digits_zero (d : Decimal.uint) :
  Legacy.all_digits 0 (list_ascii_of_string (NilEmpty.string_of_uint d))
  = Some (Z.of_N (Pos.of_uint d)).
Proof.
  induction d;
    cbn [NilEmpty.string_of_uint list_ascii_of_string Legacy.all_digits Pos.of_uint];
    try reflexivity;
    match goal with
    | |- context [Num.digit_val ?c] =>
        let v := eval vm_compute in (Num.digit_val c) in
        change (Num.digit_val c) with v
    end; cbv iota beta;
    [ exact IHd | .. ];
    match goal with
    | |- context [Legacy.all_digits (10 * 0 + ?v) ?l] =>
        change (10 * 0 + v) with v
    end; cbn [Z.of_N]; apply all_digits_acc.
Qed.

Lemma int_str_uint (neg : bool) (d : Decimal.uint) :
  d <> Decimal.Nil ->
  Legacy.int_str
    (if neg then String "-" (NilEmpty.string_of_uint d) else NilEmpty.string_of_uint d)
  = Ok (if neg then - Z.of_N (Pos.of_uint d) else Z.of_N (Pos.of_uint d)).
Proof.
  intros Hd. unfold Legacy.int_str.
  pose proof (uint_chars_digits d) as HF.
  pose proof (all_digits_zero d) as Hk.
  assert (exists c l v, list_ascii_of_string (NilEmpty.string_of_uint d) = c :: l
                        /\ Num.digit_val c = Some v) as (c & l & v & Eb & Hc).
  { destruct d; [contradiction | ..]; cbn [NilEmpty.string_of_uint list_ascii_of_string];
      do 3 eexists; (split; [reflexivity | reflexivity]). }
  destruct (digit_not_word c l v Hc) as (Hs & _).
  assert (Forall (fun c => Num.is_space c = false)
            (list_ascii_of_string (NilEmpty.string_of_uint d))) as HF'.
  { eapply Forall_impl; [exact HF | now intros ? []]. }
  assert (Num.sign (Num.strip (list_ascii_of_string
            (if neg then String "-" (NilEmpty.string_of_uint d)
             else NilEmpty.string_of_uint d)))
          = (neg, list_ascii_of_string (NilEmpty.string_of_uint d))) as ->.
  { destruct neg.
    - cbn [list_ascii_of_string].
      rewrite strip_nonspace by (constructor; [reflexivity | exact HF']). reflexivity.
    - rewrite strip_nonspace by exact HF'. rewrite Eb. exact Hs. }
  rewrite Hk. rewrite Eb. reflexivity.
Qed.

(** [int(str(n))] is [n]. *)
Lemma int_str_str (n : Z) : Legacy.int_str (Num.str n) = Ok n.
Proof.
  unfold Num.str. destruct n as [|p|p]; cbn [Z.to_int NilZero.string_of_int].
  - reflexivity.
  - pose proof (Unsigned.to_uint_nonnil p) as Hp.
    replace (NilZero.string_of_uint (Pos.to_uint p))
      with (NilEmpty.string_of_uint (Pos.to_uint p))
      by (destruct (Pos.to_uint p); [contradiction | reflexivity ..]).
    rewrite (int_str_uint false _ Hp), Unsigned.of_to. reflexivity.
  - pose proof (Unsigned.to_uint_nonnil p) as Hp.
    replace (NilZero.string_of_uint (Pos.to_uint p))
      with (NilEmpty.string_of_uint (Pos.to_uint p))
      by (destruct (Pos.to_uint p); [contradiction | reflexivity ..]).
    rewrite (int_str_uint true _ Hp), Unsigned.of_to. reflexivity.
Qed.

Lemma legacy_any2size_class (c : size_class) (s : size_arg) :
  In s (class_aliases c) -> Legacy._any2size s = Some (class_px c, class_dir c).
Proof. destruct c; cbn [class_aliases In]; intros [<-|[<-|[<-|[]]]]; reflexivity. Qed.

Lemma legacy_any2size_some (s : size_arg) (px : Z) (name : string) :
  Legacy._any2size s = Some (px, name) ->
  (exists c, px = class_px c /\ name = class_dir c)
  /\ LegacyStore.size_given (Some s) = Some s.
Proof.
  unfold Legacy._any2size. intros H. split.
  - destruct (is_large_alias s); [injection H as <- <-; now exists Large|].
    destruct (is_normal_alias s); [injection H as <- <-; now exists Normal|].
    destruct (match s with SizeInt n => Ok n | SizeStr s0 => Legacy.int_str s0 end);
      [|discriminate].
    destruct (_ && _); [injection H as <- <-; now exists Normal | discriminate].
  - destruct s as [n|s]; cbn [LegacyStore.size_given].
    + destruct (Z.eqb_spec n 0) as [->|]; [discriminate H | reflexivity].
    + destruct s; [discriminate H | reflexivity].
Qed.

Lemma legacy_gen_filenames_class (P : platform) (name : string) (c : size_class) :
  LegacyStore._gen_filenames P name (Some (SizeStr (class_dir c)))
  = Ok (legacy_path P name (class_dir c), []).
Proof. destruct c; reflexivity. Qed.

Lemma legacy_gen_filenames_sized (P : platform) (name : string) (s : size_arg) (px : Z)
      (dir : string) :
  Legacy._any2size s = Some (px, dir) ->
  LegacyStore._gen_filenames P name (Some s) = Ok (legacy_path P name dir, []).
Proof.
  intros H. unfold LegacyStore._gen_filenames.
  destruct (legacy_any2size_some s px dir H) as [_ ->]. now rewrite H.
Qed.

(** X24. The sizes [thumbnail_path] of [thumbnail.py] takes: the names of
    a class and the numbers of the small box give the path of the class;
    any other number but 0 raises [TypeError], since [_any2size] has
    returned [None]; 0, like no size, gives the large path. *)
Theorem legacy_thumbnail_path_sizes (P : platform) (name : string) :
  (forall c s, In s (class_aliases c) ->
     LegacyStore.thumbnail_path P name (Some s) = Ok (legacy_path P name (class_dir c)))
  /\ (forall n, 0 < n <= 128 ->
        LegacyStore.thumbnail_path P name (Some (SizeInt n))
        = Ok (legacy_path P name "normal"))
  /\ (forall n, n < 0 \/ 128 < n -> n <> 256 ->
        LegacyStore.thumbnail_path P name (Some (SizeInt n)) = Raise TypeError)
  /\ LegacyStore.thumbnail_path P name (Some (SizeInt 0)) = Ok (legacy_path P name "large")
  /\ LegacyStore.thumbnail_path P name None = Ok (legacy_path P name "large").
Proof.
  repeat apply conj; try reflexivity.
  - intros c s Hs. unfold LegacyStore.thumbnail_path.
    now rewrite (legacy_gen_filenames_sized P name s _ _ (legacy_any2size_class c s Hs)).
  - intros n Hn. unfold LegacyStore.thumbnail_path.
    now rewrite (legacy_gen_filenames_sized P name _ _ _ (legacy_any2size_numeric n Hn)).
  - intros n Hn H256. unfold LegacyStore.thumbnail_path, LegacyStore._gen_filenames.
    cbn [LegacyStore.size_given]. destruct (Z.eqb_spec n 0); [lia|].
    unfold Legacy._any2size, is_large_alias, is_normal_alias.
    destruct (Z.eqb_spec n 256); [lia|]. destruct (Z.eqb_spec n 128); [lia|].
    destruct (Z.ltb_spec 0 n), (Z.leb_spec n 128); cbn; try reflexivity; lia.
Qed.

Lemma legacy_readonly_do1 (mtime : Z) (filename : string) :
  readonly (LegacyStore.do1 mtime filename).
Proof. unfold LegacyStore.do1. repeat readonly_step. Qed.

Lemma legacy_readonly_scan (mtime : Z) (filename : string) (rest : list string) :
  readonly (LegacyStore.scan mtime filename rest).
Proof.
  revert filename. induction rest as [|f rest IH]; intros filename; cbn [LegacyStore.scan].
  - apply readonly_bind; [apply legacy_readonly_do1 | intros code]. repeat readonly_step.
  - apply readonly_bind; [apply legacy_readonly_do1 | intros code].
    destruct (code =? 0); [apply readonly_ret | apply IH].
Qed.

Lemma legacy_readonly_fine (P : platform) (name : string) (size : option size_arg)
      (mtime : option Z) (app : option string) :
  readonly (LegacyStore._fine_existing_thumbnail_path P name size mtime app).
Proof.
  unfold LegacyStore._fine_existing_thumbnail_path, LegacyStore._any2mtime,
    LegacyStore.is_thumbnail_failed.
  apply readonly_bind; [destruct mtime; auto with readonly | intros m].
  apply readonly_bind; [auto with readonly | intros fns].
  apply readonly_bind; [apply legacy_readonly_scan | intros r].
  repeat readonly_step.
Qed.

(** The probe of [thumbnail.py] accepts a file that carries the mtime,
    as the first candidate. *)
Lemma legacy_do1_hit (m : Z) (p : string) (w : world) (img : image) :
  content_at w p = Some (Picture img) ->
  i_text img !! KEY_MTIME = Some (Num.str m) ->
  LegacyStore.do1 m p w = (Ok 0, w).
Proof.
  intros Hc Ht. destruct (content_at_node _ _ _ Hc) as (n & Hn & _).
  unfold LegacyStore.do1. unfold bind at 1, Os.exists_. rewrite Hn. cbn [negb].
  rewrite (bind_eq _ _ _ _ _ (read_image_content p w)), Hc, Ht.
  unfold bind, lift. now rewrite int_str_str, Z.eqb_refl.
Qed.

Lemma legacy_fine_hit (P : platform) (name : string) (size : option size_arg)
      (mtime : option Z) (m : Z) (w : world) (p : string) (rest : list string)
      (img : image) (app : option string) :
  LegacyStore._any2mtime name mtime w = (Ok m, w) ->
  LegacyStore._gen_filenames P name size = Ok (p, rest) ->
  content_at w p = Some (Picture img) ->
  i_text img !! KEY_MTIME = Some (Num.str m) ->
  LegacyStore._fine_existing_thumbnail_path P name size mtime app w = (Ok (0, Some p), w).
Proof.
  intros Hm Hg Hc Ht. unfold LegacyStore._fine_existing_thumbnail_path.
  rewrite (bind_eq _ _ _ _ _ Hm). unfold bind at 1, lift. rewrite Hg. cbn [fst snd].
  rewrite (bind_eq _ _ w w (0, p)); [reflexivity|].
  destruct rest; cbn [LegacyStore.scan]; now rewrite (bind_eq _ _ _ _ _ (legacy_do1_hit m p w img Hc Ht)).
Qed.

(** X25. [existing_thumbnail_path] of [thumbnail.py] compares the mtime
    and nothing else: a file at the thumbnail path that carries the mtime
    asked for is returned, whatever URI it carries. *)
Theorem legacy_probe_trusts_the_name (P : platform) (name : string)
        (size : option size_arg) (m : Z) (w : world) (p : string) (img : image) :
  LegacyStore.thumbnail_path P name size = Ok p ->
  content_at w p = Some (Picture img) ->
  i_text img !! KEY_MTIME = Some (Num.str m) ->
  LegacyStore.existing_thumbnail_path P name size (Some m) w = (Ok (Some p), w).
Proof.
  intros Hp Hc Ht. unfold LegacyStore.thumbnail_path in Hp.
  destruct (LegacyStore._gen_filenames P name size) as [[p' rest]|e] eqn:Hg; [|discriminate].
  injection Hp as ->. unfold LegacyStore.existing_thumbnail_path.
  now rewrite (bind_eq _ _ _ _ _
                 (legacy_fine_hit P name size (Some m) m w p rest img None eq_refl Hg Hc Ht)).
Qed.

Lemma legacy_probe_trusts_the_name_witness :
  LegacyStore.existing_thumbnail_path demo_platform "/tmp/a.jpg" None (Some 1000)
    foreign_world
  = (Ok (Some "/home/u/.cache/thumbnails/large/fd3d4bbf23a83793d4c47b368af0416e.png"),
     foreign_world).
Proof.
  apply (legacy_probe_trusts_the_name demo_platform "/tmp/a.jpg" None 1000 foreign_world _
           foreign_picture);
    vm_compute; reflexivity.
Defined.

Lemma legacy_mkdir_log (P : platform) (p : string) (mode : Z) (w : world) :
  exists tr, w_log (snd (Os.mkdir P p mode w)) = (w_log w ++ tr)%list
             /\ Forall (fun e => is_mkdir e = true) tr.
Proof. exists [EvMkdir p mode]. split; [apply mkdir_log | now repeat constructor]. Qed.

Lemma legacy_makedirs_log (P : platform) (fuel : nat) (name : string) (mode : Z)
      (w : world) :
  exists tr, w_log (snd (LegacyStore.makedirs_rec P fuel name mode w)) = (w_log w ++ tr)%list
             /\ Forall (fun e => is_mkdir e = true) tr.
Proof.
  revert name mode w. induction fuel as [|fuel IH]; intros name mode w;
    cbn [LegacyStore.makedirs_rec].
  - exists []. split; [now rewrite app_nil_r | constructor].
  - destruct (Path.split name) as [head tail].
    destruct (if Str.is_empty tail then Path.split head else (head, tail)) as [head' tail'].
    destruct (negb (Str.is_empty head') && negb (Str.is_empty tail'));
      [|apply legacy_mkdir_log].
    unfold bind at 1, Os.exists_. destruct (w_fs w !! head'); [apply legacy_mkdir_log|].
    unfold bind. destruct (IH head' mode w) as (tr1 & E1 & F1).
    destruct (LegacyStore.makedirs_rec P fuel head' mode w) as [[[]|e] w1]; cbn [snd] in E1.
    + destruct (String.eqb tail' ".").
      * now exists tr1.
      * destruct (legacy_mkdir_log P name mode w1) as (tr2 & E2 & F2).
        exists (tr1 ++ tr2)%list. rewrite E2, E1, app_assoc.
        split; [reflexivity | now apply Forall_app].
    + now exists tr1.
Qed.

Lemma not_atomic_in_place (pre : list event) (p : string) :
  Forall (fun e => is_mkdir e = true) pre -> ~ atomic_writes (pre ++ [EvSave p]).
Proof.
  induction 1 as [|e pre He _ IH]; cbn [app]; intros A.
  - inversion A as [|e tr Hs _|]; discriminate.
  - destruct e; try discriminate He. inversion A; subst; auto.
Qed.

(** X26. [put_fail] of [thumbnail.py] writes the marker where it stays:
    its log is the making of directories and one image write at the path
    of the marker, with no temporary file and no rename; afterwards
    [is_thumbnail_failed] answers [True]. *)
Theorem legacy_put_fail_in_place (P : platform) (name appname : string) (mtime : option Z)
        (moreinfo : option (gmap string string)) (w w' : world) :
  LegacyStore.put_fail P name appname mtime moreinfo w = (Ok tt, w') ->
  LegacyStore.is_thumbnail_failed P name appname w' = (Ok true, w')
  /\ exists pre,
       w_log w' = (w_log w ++ pre ++ [EvSave (LegacyStore.fail_path P name appname)])%list
       /\ Forall (fun e => is_mkdir e = true) pre
       /\ ~ atomic_writes (pre ++ [EvSave (LegacyStore.fail_path P name appname)]).
Proof.
  unfold LegacyStore.put_fail. intros H.
  apply bind_ok_inv in H as (isd & w1 & Hisd & H).
  apply (readonly_ok _ _ _ _ (readonly_isdir _)) in Hisd as ->.
  apply bind_ok_inv in H as ([] & w2 & Hmk & H).
  apply bind_ok_inv in H as (m & w3 & Hm & H).
  assert (w3 = w2) as ->.
  { destruct mtime; [now injection Hm | eapply readonly_ok, Hm; apply readonly_getmtime]. }
  assert (exists pre, w_log w2 = (w_log w ++ pre)%list
                      /\ Forall (fun e => is_mkdir e = true) pre) as (pre & Hl & Hpre).
  { destruct isd.
    - injection Hmk as <-. exists []. split; [now rewrite app_nil_r | constructor].
    - unfold LegacyStore.makedirs in Hmk.
      match type of Hmk with
      | LegacyStore.makedirs_rec _ ?fuel ?nm _ _ = _ =>
          destruct (legacy_makedirs_log P fuel nm 448 w) as (tr & E & F)
      end.
      rewrite Hmk in E. now exists tr. }
  unfold Os.save in H. injection H as <-. split.
  - unfold LegacyStore.is_thumbnail_failed, LegacyStore.fail_path, Os.exists_. cbn.
    now rewrite lookup_insert_eq.
  - exists pre. cbn. rewrite Hl, <- app_assoc.
    split; [reflexivity|]. split; [assumption | now apply not_atomic_in_place].
Qed.

Lemma legacy_put_fail_in_place_witness :
  LegacyStore.is_thumbnail_failed demo_platform "/tmp/a.jpg" "app-1.0"
    (snd (LegacyStore.put_fail demo_platform "/tmp/a.jpg" "app-1.0" None None demo_world))
  = (Ok true,
     snd (LegacyStore.put_fail demo_platform "/tmp/a.jpg" "app-1.0" None None demo_world))
  /\ exists pre,
       w_log (snd (LegacyStore.put_fail demo_platform "/tmp/a.jpg" "app-1.0" None None
                     demo_world))
       = (w_log demo_world ++ pre
          ++ [EvSave (LegacyStore.fail_path demo_platform "/tmp/a.jpg" "app-1.0")])%list
       /\ Forall (fun e => is_mkdir e = true) pre
       /\ ~ atomic_writes
            (pre ++ [EvSave (LegacyStore.fail_path demo_platform "/tmp/a.jpg" "app-1.0")]).
Proof.
  apply (legacy_put_fail_in_place demo_platform "/tmp/a.jpg" "app-1.0" None None demo_world).
  vm_compute. reflexivity.
Defined.

Lemma legacy_keeps_makedirs_rec (P : platform) (w0 : world) (l : list string) (fuel : nat)
      (name : string) (mode : Z) :
  keeps w0 l (LegacyStore.makedirs_rec P fuel name mode) (fun _ => True).
Proof.
  revert name mode. induction fuel as [|fuel IH]; intros name mode;
    cbn [LegacyStore.makedirs_rec].
  - apply keeps_readonly, readonly_raise.
  - destruct (Path.split name) as [head tail].
    destruct (if Str.is_empty tail then Path.split head else (head, tail)) as [head' tail'].
    destruct (negb (Str.is_empty head') && negb (Str.is_empty tail')); [|apply keeps_mkdir].
    eapply keeps_bind; [apply keeps_readonly, readonly_exists | intros ex _].
    destruct ex; [apply keeps_mkdir|].
    eapply keeps_bind; [apply IH | intros _ _].
    destruct (String.eqb tail' "."); [eapply keeps_true, keeps_ret | apply keeps_mkdir].
Qed.

Lemma legacy_ensure_dir_unchanged (P : platform) (isd : bool) (name : string) (mode : Z)
      (w w' : world) (r : result unit) :
  (if isd then ret tt else LegacyStore.makedirs P name mode) w = (r, w') ->
  unchanged_except [] w w'.
Proof.
  intros H. destruct isd.
  - injection H as _ <-. apply unchanged_refl.
  - pose proof (keeps_run w [] _ _
                  (legacy_keeps_makedirs_rec P w [] (Datatypes.S (String.length name))
                     name mode)) as K.
    unfold LegacyStore.makedirs in H. now rewrite H in K.
Qed.

Lemma legacy_pnginfo_mtime (uri : string) (m : Z) (moreinfo : option (gmap string string))
      (w h : string) :
  default ∅ moreinfo !! KEY_MTIME = None ->
  <[KEY_HEIGHT := h]> (<[KEY_WIDTH := w]> (LegacyStore._create_pnginfo uri m moreinfo))
    !! KEY_MTIME = Some (Num.str m).
Proof.
  intros H. rewrite !lookup_insert_ne by discriminate.
  unfold LegacyStore._create_pnginfo. rewrite lookup_union_r by assumption.
  apply lookup_insert_eq.
Qed.

(** [os.makedirs] adds directories and nothing else. *)
Lemma legacy_makedirs_adds_dirs (P : platform) (fuel : nat) (name : string) (mode : Z)
      (w w' : world) (r : result unit) :
  LegacyStore.makedirs_rec P fuel name mode w = (r, w') ->
  forall q n, w_fs w' !! q = Some n -> w_fs w !! q = Some n \/ n_content n = Directory.
Proof.
  assert (forall p md w0 w1 r0, Os.mkdir P p md w0 = (r0, w1) ->
            forall q n, w_fs w1 !! q = Some n ->
                        w_fs w0 !! q = Some n \/ n_content n = Directory) as Hmk.
  { intros p md w0 w1 r0. unfold Os.mkdir. cbn.
    destruct (w_fs w0 !! p) eqn:E; [intros [= _ <-]; auto|].
    destruct (Os.parent_is_dir _ _); intros [= _ <-]; [|auto].
    intros q n. cbn. destruct (decide (p = q)) as [<-|Hne].
    - rewrite lookup_insert_eq. intros [= <-]. now right.
    - rewrite lookup_insert_ne by assumption. auto. }
  revert name mode w w' r. induction fuel as [|fuel IH]; intros name mode w w' r;
    cbn [LegacyStore.makedirs_rec].
  - intros [= _ <-]. auto.
  - destruct (Path.split name) as [head tail].
    destruct (if Str.is_empty tail then Path.split head else (head, tail)) as [head' tail'].
    destruct (negb (Str.is_empty head') && negb (Str.is_empty tail')); [|apply Hmk].
    unfold bind at 1, Os.exists_. destruct (w_fs w !! head'); [apply Hmk|].
    unfold bind.
    destruct (LegacyStore.makedirs_rec P fuel head' mode w) as [[[]|e] w1] eqn:E.
    + destruct (String.eqb tail' ".").
      * intros [= _ <-]. eapply IH, E.
      * intros H q n Hq. destruct (Hmk _ _ _ _ _ H q n Hq) as [H1|H1]; [|now right].
        eapply IH; eassumption.
    + intros [= _ <-]. eapply IH, E.
Qed.

(** What a [force_gen_image_thumbnail] that returns a path has done. *)
Lemma legacy_force_gen_inv (P : platform) (filename : string) (size : option size_arg)
      (moreinfo : option (gmap string string)) (app : option string) (w w' : world)
      (p : string) :
  LegacyGen.force_gen_image_thumbnail P filename size moreinfo app w = (Ok (Some p), w') ->
  default ∅ moreinfo !! KEY_MTIME = None ->
  exists rest n0 img,
    LegacyStore._gen_filenames P filename size = Ok (p, rest)
    /\ w_fs w !! filename = Some n0
    /\ content_at w' p = Some (Picture img)
    /\ i_text img !! KEY_MTIME = Some (Num.str (n_mtime n0))
    /\ unchanged_except [p] w w'.
Proof.
  unfold LegacyGen.force_gen_image_thumbnail. intros H L.
  apply bind_ok_inv in H as (sizename & w1 & Hs & H). injection Hs as Hs <-.
  set (sizeinfo := match size with
                   | Some s => Legacy._any2size s
                   | None => Some (256, "large")
                   end) in *.
  destruct sizeinfo as [[px name]|] eqn:Esi; [|discriminate]. injection Hs as ->.
  assert (exists c, px = class_px c /\ sizename = class_dir c) as (c & -> & ->).
  { destruct size as [s|].
    - now apply (legacy_any2size_some s).
    - injection Esi as <- <-. now exists Large. }
  rewrite legacy_gen_filenames_class in H.
  apply bind_ok_inv in H as (fns & w2 & Hf & H). injection Hf as <- <-. cbn [fst] in H.
  assert (exists rest, LegacyStore._gen_filenames P filename size
                       = Ok (legacy_path P filename (class_dir c), rest)) as [rest Hg].
  { destruct size as [s|].
    - exists []. now apply (legacy_gen_filenames_sized P filename s (class_px c)).
    - injection Esi as E1 E2. destruct c; try discriminate. now eexists. }
  apply bind_ok_inv in H as (isd & w3 & Hisd & H).
  apply (readonly_ok _ _ _ _ (readonly_isdir _)) in Hisd as ->.
  apply bind_ok_inv in H as ([] & w4 & Hmk & H).
  assert (forall q n, w_fs w4 !! q = Some n -> w_fs w !! q = Some n \/ n_content n = Directory)
    as Hdirs.
  { destruct isd; [injection Hmk as <-; auto|].
    unfold LegacyStore.makedirs in Hmk. eapply legacy_makedirs_adds_dirs, Hmk. }
  apply legacy_ensure_dir_unchanged in Hmk.
  apply bind_ok_inv in H as (o & w5 & Ho & H).
  pose proof Ho as Ho'.
  apply (readonly_ok _ _ _ _ (readonly_read_image _)) in Ho as ->.
  destruct o as [img0|].
  2:{ apply bind_ok_inv in H as (? & ? & _ & H). discriminate. }
  apply bind_ok_inv in H as (m & w6 & Hm & H).
  unfold Os.getmtime in Hm.
  destruct (w_fs w4 !! filename) as [n4|] eqn:E4; [|discriminate]. injection Hm as <- <-.
  apply bind_ok_inv in H as (tmp & w7 & Ht & H).
  pose proof (mkstemp_unchanged P (Path.dirname (legacy_path P filename (class_dir c))) w4)
    as U7. rewrite Ht in U7. cbn [snd] in U7.
  apply mkstemp_ok in Ht as (Hfresh & _).
  apply bind_ok_inv in H as ([] & w8 & Hsv & H).
  match type of Hsv with
  | Os.save _ _ ?im _ = _ => pose proof (save_unchanged P tmp im w7) as U8
  end.
  rewrite Hsv in U8. cbn [snd] in U8.
  destruct (save_content P tmp
              {| i_width := i_width (resized P PilBackend (class_px c) img0);
                 i_height := i_height (resized P PilBackend (class_px c) img0);
                 i_text := <[KEY_HEIGHT := Num.str (i_height img0)]>
                             (<[KEY_WIDTH := Num.str (i_width img0)]>
                                (LegacyStore._create_pnginfo (LegacyStore._any2uri P filename)
                                   (n_mtime n4) moreinfo)) |} w7) as (w8' & Hsv' & Hc8).
  rewrite Hsv in Hsv'. injection Hsv' as <-.
  apply bind_ok_inv in H as ([] & w9 & Hrn & H). injection H as <- <-.
  pose proof (rename_unchanged tmp (legacy_path P filename (class_dir c)) w8) as U9.
  rewrite Hrn in U9. cbn [snd] in U9.
  apply rename_content in Hrn as [_ Hrn]. rewrite Hc8 in Hrn.
  assert (unchanged_except [legacy_path P filename (class_dir c)] w w9) as U.
  { eapply unchanged_step; [|exact U9|].
    - eapply unchanged_step; [|exact U8|].
      + eapply unchanged_step; [|exact U7 | intros ? []].
        eapply unchanged_step; [apply unchanged_refl | exact Hmk | intros ? []].
      + intros q [<-|[]]. right.
        destruct (w_fs w !! tmp) as [nq|] eqn:Eq; [|reflexivity].
        rewrite (Hmk tmp nq Eq (fun x => x)) in Hfresh. discriminate.
    - intros q [<-|[<-|[]]]; [|left; now left]. right.
      destruct (w_fs w !! tmp) as [nq|] eqn:Eq; [|reflexivity].
      rewrite (Hmk tmp nq Eq (fun x => x)) in Hfresh. discriminate. }
  assert (exists n0, w_fs w !! filename = Some n0 /\ n_mtime n0 = n_mtime n4)
    as (n0 & Hn0 & Hmt).
  { exists n4. split; [|reflexivity].
    destruct (Hdirs _ _ E4) as [?|Hd]; [assumption|].
    unfold Os.read_image in Ho'. rewrite E4, Hd in Ho'. discriminate. }
  exists rest, n0. eexists. split; [exact Hg|]. split; [exact Hn0|].
  split; [exact Hrn|]. split; [|exact U].
  cbn [i_text]. rewrite Hmt. now apply legacy_pnginfo_mtime.
Qed.

(** After [force_gen_image_thumbnail] has returned a path, the probe
    for the same file and size stops at that path. *)
Lemma legacy_generated_probe (P : platform) (filename : string) (size : option size_arg)
      (moreinfo : option (gmap string string)) (app : option string) (w w' : world)
      (p : string) :
  LegacyGen.force_gen_image_thumbnail P filename size moreinfo app w = (Ok (Some p), w') ->
  default ∅ moreinfo !! KEY_MTIME = None ->
  filename <> p ->
  LegacyStore._fine_existing_thumbnail_path P filename size None None w'
  = (Ok (0, Some p), w').
Proof.
  intros H L Hne.
  destruct (legacy_force_gen_inv _ _ _ _ _ _ _ _ H L) as (rest & n0 & img & Hg & Hn0 & Hc & Ht & U).
  assert (w_fs w' !! filename = Some n0) as Hn'.
  { apply U; [assumption|]. intros [?|[]]. congruence. }
  eapply legacy_fine_hit; eauto.
  unfold LegacyStore._any2mtime, Os.getmtime. now rewrite Hn'.
Qed.

(** X27. A thumbnail that [force_gen_image_thumbnail] of [thumbnail.py]
    has generated is what [existing_thumbnail_path] returns for the same
    file and size. *)
Theorem legacy_generated_is_found (P : platform) (filename : string)
        (size : option size_arg) (moreinfo : option (gmap string string))
        (app : option string) (w w' : world) (p : string) :
  LegacyGen.force_gen_image_thumbnail P filename size moreinfo app w = (Ok (Some p), w') ->
  default ∅ moreinfo !! KEY_MTIME = None ->
  filename <> p ->
  LegacyStore.existing_thumbnail_path P filename size None w' = (Ok (Some p), w').
Proof.
  intros H L Hne. unfold LegacyStore.existing_thumbnail_path.
  now rewrite (bind_eq _ _ _ _ _ (legacy_generated_probe _ _ _ _ _ _ _ _ H L Hne)).
Qed.

Lemma legacy_generated_is_found_witness :
  LegacyStore.existing_thumbnail_path demo_platform "/tmp/a.jpg" None None
    (snd (LegacyGen.force_gen_image_thumbnail demo_platform "/tmp/a.jpg" None None None
            demo_world))
  = (Ok (Some "/home/u/.cache/thumbnails/large/fd3d4bbf23a83793d4c47b368af0416e.png"),
     snd (LegacyGen.force_gen_image_thumbnail demo_platform "/tmp/a.jpg" None None None
            demo_world)).
Proof.
  apply (legacy_generated_is_found demo_platform "/tmp/a.jpg" None None None demo_world).
  - vm_compute. reflexivity.
  - reflexivity.
  - discriminate.
Defined.

(** X28. [gen_image_thumbnail] of [thumbnail.py] called again after it
    has returned a path returns the same path and leaves the world as it
    is. *)
Theorem legacy_gen_twice (P : platform) (filename : string) (size : option size_arg)
        (moreinfo : option (gmap string string)) (app : option string) (w w' : world)
        (p : string) :
  LegacyGen.gen_image_thumbnail P filename size moreinfo app w = (Ok (Some p), w') ->
  default ∅ moreinfo !! KEY_MTIME = None ->
  filename <> p ->
  LegacyGen.gen_image_thumbnail P filename size moreinfo app w' = (Ok (Some p), w').
Proof.
  intros H L Hne. pose proof H as H0. unfold LegacyGen.gen_image_thumbnail in H.
  apply bind_ok_inv in H as (r & w1 & Hr & H).
  pose proof (readonly_ok _ _ _ _ (legacy_readonly_fine P filename size None None) Hr) as ->.
  destruct (fst r =? 0) eqn:E0.
  - injection H as _ <-. exact H0.
  - destruct (fst r =? 4); [discriminate|].
    unfold LegacyGen.gen_image_thumbnail.
    now rewrite (bind_eq _ _ _ _ _ (legacy_generated_probe _ _ _ _ _ _ _ _ H L Hne)).
Qed.

Lemma legacy_gen_twice_witness :
  LegacyGen.gen_image_thumbnail demo_platform "/tmp/a.jpg" None None None
    (snd (LegacyGen.gen_image_thumbnail demo_platform "/tmp/a.jpg" None None None demo_world))
  = (Ok (Some "/home/u/.cache/thumbnails/large/fd3d4bbf23a83793d4c47b368af0416e.png"),
     snd (LegacyGen.gen_image_thumbnail demo_platform "/tmp/a.jpg" None None None
            demo_world)).
Proof.
  apply (legacy_gen_twice demo_platform "/tmp/a.jpg" None None None demo_world).
  - vm_compute. reflexivity.
  - reflexivity.
  - discriminate.
Defined.

(** ** The identity of a source in the two modules *)





(** ** [create_thumbnail] does return *)



